(** * Money_Tracker: the budget carry-forward engine of [main.py]

    A shallow embedding of the accounting core of the Flask application
    (the helpers [month_start], [next_month_start],
    [month_spend_for_category], [get_or_create_monthly_budget],
    [cumulative_carry_until], [current_month_summary], [ytd_totals] and
    [sort_categories]) together with the properties of its specification.

    Modelling conventions.
    - A [datetime] is the record of its seven calendar fields; every
      datetime of the program is in UTC.  Comparison is lexicographic on
      the fields, which is how Python orders datetimes of one time zone
      and how SQLite orders the ISO strings it stores them as.
    - [datetime.replace] raises [ValueError] when the fields it builds
      leave the range of the type ([MINYEAR] = 1 to [MAXYEAR] = 9999,
      months 1 to 12, ...); this is kept.
    - In the carry-forward engine monetary amounts ([db.Float] columns,
      Python floats) are exact rationals [Qc]; its properties are stated
      with the additions and subtractions in the order the code performs
      them.  The year-to-date totals, whose specification speaks of the
      order of the additions, are modelled on binary64 floats with their
      rounded addition (module [Float64]).
    - Category names are strings of bytes; [lower] is [str.lower()] on
      names written in ASCII ([ascii_name]).
    - The three SQL tables are lists of rows in insertion order; the
      session is threaded through every helper as explicit state.
    - [load_cfg()["categories"]] is a finite map from category names to
      default base budgets, fixed during a run. *)

From Stdlib Require Import ZArith QArith Qcanon Lia Permutation Ascii String.
From Stdlib Require PrimFloat.
From stdpp Require Import base decidable option list numbers strings gmap sorting.

Local Open Scope Z_scope.

(** ** Exceptions and results *)

Inductive exn : Set := ValueError | ZeroDivisionError.

Inductive result (A : Type) : Type :=
| Ok (a : A)
| Raise (e : exn).
Arguments Ok {A} a.
Arguments Raise {A} e.

(** ** Datetimes *)

Record datetime : Set := mk_datetime {
  year : Z; month : Z; day : Z;
  hour : Z; minute : Z; second : Z; microsecond : Z
}.

Definition MINYEAR : Z := 1.
Definition MAXYEAR : Z := 9999.

Definition is_leap (y : Z) : bool :=
  (y mod 4 =? 0) && (negb (y mod 100 =? 0) || (y mod 400 =? 0)).

Definition days_in_month (y m : Z) : Z :=
  if m =? 2 then (if is_leap y then 29 else 28)
  else if (m =? 4) || (m =? 6) || (m =? 9) || (m =? 11) then 30
  else 31.

(** The range check of the [datetime] constructor. *)
Definition valid_datetime (dt : datetime) : bool :=
  (MINYEAR <=? year dt) && (year dt <=? MAXYEAR)
  && (1 <=? month dt) && (month dt <=? 12)
  && (1 <=? day dt) && (day dt <=? days_in_month (year dt) (month dt))
  && (0 <=? hour dt) && (hour dt <=? 23)
  && (0 <=? minute dt) && (minute dt <=? 59)
  && (0 <=? second dt) && (second dt <=? 59)
  && (0 <=? microsecond dt) && (microsecond dt <=? 999999).

(** [datetime(...)] and [dt.replace(...)]: build the value or raise. *)
Definition checked (dt : datetime) : result datetime :=
  if valid_datetime dt then Ok dt else Raise ValueError.

Definition dt_fields (dt : datetime) : list Z :=
  [year dt; month dt; day dt; hour dt; minute dt; second dt; microsecond dt].

Fixpoint lex_cmp (l1 l2 : list Z) : comparison :=
  match l1, l2 with
  | [], [] => Eq
  | [], _ :: _ => Lt
  | _ :: _, [] => Gt
  | x :: l1', y :: l2' =>
      match x ?= y with
      | Eq => lex_cmp l1' l2'
      | c => c
      end
  end.

Definition dt_cmp (a b : datetime) : comparison :=
  lex_cmp (dt_fields a) (dt_fields b).

Definition dt_lt (a b : datetime) : Prop := dt_cmp a b = Lt.
Definition dt_le (a b : datetime) : Prop := dt_cmp a b <> Gt.

(** [month_start(dt)]: the new day and time fields are always in range,
    so this [replace] cannot raise on a datetime. *)
Definition month_start (dt : datetime) : datetime :=
  mk_datetime (year dt) (month dt) 1 0 0 0 0.

Definition next_month_start (dt : datetime) : result datetime :=
  let y := year dt in
  let m := month dt in
  if m =? 12 then checked (mk_datetime (y + 1) 1 1 0 0 0 0)
  else checked (mk_datetime y (m + 1) 1 0 0 0 0).

Definition is_month_start (dt : datetime) : Prop := month_start dt = dt.

Global Instance datetime_eq_dec : EqDecision datetime.
Proof. solve_decision. Defined.
Global Instance dt_lt_dec : RelDecision dt_lt.
Proof. intros a b. unfold dt_lt. apply _. Defined.
Global Instance dt_le_dec : RelDecision dt_le.
Proof. intros a b. unfold dt_le. apply _. Defined.

Declare Scope dt_scope.
Delimit Scope dt_scope with dt.
Infix "<" := dt_lt : dt_scope.
Infix "<=" := dt_le : dt_scope.

(** ** Models (the three tables) *)

Module Category.
Record t : Set := mk {
  id : Z;
  name : string;
  is_active : bool;
  display_order : Z
}.
End Category.

Module MonthlyBudget.
Record t : Set := mk {
  id : Z;
  category_id : Z;
  month_start : datetime;
  base_budget : Qc
}.
End MonthlyBudget.

Module Purchase.
Record t : Set := mk {
  id : Z;
  category_id : Z;
  name : string;
  amount : Qc;
  ts : datetime
}.
End Purchase.

(** The database behind [db.session]. *)
Record db : Set := mk_db {
  categories : list Category.t;
  monthly_budgets : list MonthlyBudget.t;
  purchases : list Purchase.t
}.

(** [uniq_cat_month]: at most one budget row per category and month. *)
Definition mb_key (mb : MonthlyBudget.t) : Z * datetime :=
  (MonthlyBudget.category_id mb, MonthlyBudget.month_start mb).

Definition uniq_cat_month (s : db) : Prop :=
  NoDup (mb_key <$> monthly_budgets s).

(** ** Session-threading computations *)

Inductive outcome (A : Type) : Type :=
| Return (a : A) (s : db)
| Throw (e : exn) (s : db)
| OutOfFuel.
Arguments Return {A} a s.
Arguments Throw {A} e s.
Arguments OutOfFuel {A}.

Definition M (A : Type) : Type := db -> outcome A.

Definition ret {A} (a : A) : M A := fun s => Return a s.
Definition bind {A B} (c : M A) (k : A -> M B) : M B :=
  fun s =>
    match c s with
    | Return a s' => k a s'
    | Throw e s' => Throw e s'
    | OutOfFuel => OutOfFuel
    end.
Definition lift {A} (r : result A) : M A :=
  fun s => match r with Ok a => Return a s | Raise e => Throw e s end.
Definition query {A} (q : db -> A) : M A := fun s => Return (q s) s.

Notation "x <- c1 ;; c2" := (bind c1 (fun x => c2))
  (at level 100, c1 at next level, right associativity).

(** ** Python arithmetic on amounts *)

(** [max(a, b)] keeps [a] unless [b > a]. *)
Definition py_max (a b : Qc) : Qc := if decide (a < b)%Qc then b else a.

(** [x / y] on floats raises [ZeroDivisionError] when [y] is zero. *)
Definition py_div (x y : Qc) : result Qc :=
  if decide (y = 0%Qc) then Raise ZeroDivisionError else Ok (x / y)%Qc.

(** ** Queries *)

Definition sum_amounts (ps : list Purchase.t) : Qc :=
  foldr (fun p acc => (Purchase.amount p + acc)%Qc) 0%Qc ps.

(** [func.min] over a column: [None] on no rows. *)
Fixpoint min_dt (l : list datetime) : option datetime :=
  match l with
  | [] => None
  | d :: l' =>
      match min_dt l' with
      | None => Some d
      | Some d' => if decide (d' < d)%dt then Some d' else Some d
      end
  end.

(** [order_by(MonthlyBudget.month_start.desc()).first()]. *)
Fixpoint latest (rows : list MonthlyBudget.t) : option MonthlyBudget.t :=
  match rows with
  | [] => None
  | r :: rows' =>
      match latest rows' with
      | None => Some r
      | Some r' =>
          if decide (MonthlyBudget.month_start r < MonthlyBudget.month_start r')%dt
          then Some r' else Some r
      end
  end.

Definition purchases_of (cat_id : Z) (s : db) : list Purchase.t :=
  filter (fun p => Purchase.category_id p = cat_id) (purchases s).

Definition budgets_of (cat_id : Z) (s : db) : list MonthlyBudget.t :=
  filter (fun mb => MonthlyBudget.category_id mb = cat_id) (monthly_budgets s).

Definition month_spend_for_category (cat_id : Z) (start_dt end_dt : datetime)
    (s : db) : Qc :=
  sum_amounts
    (filter (fun p => Purchase.category_id p = cat_id
                      /\ (start_dt <= Purchase.ts p)%dt
                      /\ (Purchase.ts p < end_dt)%dt)
            (purchases s)).

(** [MonthlyBudget.query.filter_by(category_id=.., month_start=..).first()] *)
Definition find_budget (cat_id : Z) (mstart : datetime) (s : db)
    : option MonthlyBudget.t :=
  head (filter (fun mb => MonthlyBudget.category_id mb = cat_id
                          /\ MonthlyBudget.month_start mb = mstart)
               (monthly_budgets s)).

(** The most recent budget row of the category at or before [cur]. *)
Definition prev_budget (cat_id : Z) (cur : datetime) (s : db)
    : option MonthlyBudget.t :=
  latest (filter (fun mb => MonthlyBudget.category_id mb = cat_id
                            /\ (MonthlyBudget.month_start mb <= cur)%dt)
                 (monthly_budgets s)).

(** The primary key SQLite gives to an inserted row. *)
Definition next_id (rows : list MonthlyBudget.t) : Z :=
  foldr (fun mb acc => Z.max (MonthlyBudget.id mb) acc) 0 rows + 1.

Definition add_budget (mb : MonthlyBudget.t) (s : db) : db :=
  mk_db (categories s) (monthly_budgets s ++ [mb]) (purchases s).

Definition get_or_create_monthly_budget (cat : Category.t) (mstart : datetime)
    (default_base : Qc) : M MonthlyBudget.t :=
  fun s =>
    match find_budget (Category.id cat) mstart s with
    | Some mb => Return mb s
    | None =>
        let mb := MonthlyBudget.mk (next_id (monthly_budgets s))
                    (Category.id cat) mstart default_base in
        Return mb (add_budget mb s)
    end.

(** ** The carry-forward engine *)

(** [load_cfg()["categories"].get(cat.name, 0.0)] *)
Definition default_base (cfg : gmap string Qc) (cat : Category.t) : Qc :=
  default 0%Qc (cfg !! Category.name cat).

Definition first_purchase_ts (cat_id : Z) (s : db) : option datetime :=
  min_dt (Purchase.ts <$> purchases_of cat_id s).

Definition first_budget_ts (cat_id : Z) (s : db) : option datetime :=
  min_dt (MonthlyBudget.month_start <$> budgets_of cat_id s).

(** [a or b] on values that are [None] or a datetime. *)
Definition py_or {A} (a b : option A) : option A :=
  match a with
  | Some x => Some x
  | None => b
  end.

(** The month the walk starts at; [None] when the category has neither
    a purchase nor a budget row. *)
Definition activity_start (cat : Category.t) (s : db) : option datetime :=
  month_start <$> py_or (first_purchase_ts (Category.id cat) s)
                        (first_budget_ts (Category.id cat) s).

(** The base the walk uses for month [cur]: the row of that month, made
    from the latest earlier row or from the configured default when the
    month has none. *)
Definition resolve_budget (cfg : gmap string Qc) (cat : Category.t)
    (cur : datetime) : M MonthlyBudget.t :=
  prev_mb <- query (prev_budget (Category.id cat) cur) ;;
  match prev_mb with
  | Some p =>
      get_or_create_monthly_budget cat cur (MonthlyBudget.base_budget p)
  | None =>
      get_or_create_monthly_budget cat cur (default_base cfg cat)
  end.

(** One pass through the body of the [while] loop, after [nxt]. *)
Definition carry_step (cfg : gmap string Qc) (cat : Category.t)
    (cur nxt : datetime) (carry : Qc) : M Qc :=
  mb <- resolve_budget cfg cat cur ;;
  spent <- query (month_spend_for_category (Category.id cat) cur nxt) ;;
  ret (carry + (MonthlyBudget.base_budget mb - spent))%Qc.

(** [while cur < up_to_month_start: ...]; [fuel] bounds the number of
    passes through the body. *)
Fixpoint carry_loop (fuel : nat) (cfg : gmap string Qc) (cat : Category.t)
    (up_to_month_start cur : datetime) (carry : Qc) {struct fuel} : M Qc :=
  if decide (cur < up_to_month_start)%dt then
    match fuel with
    | O => fun _ => OutOfFuel
    | S fuel' =>
        nxt <- lift (next_month_start cur) ;;
        carry' <- carry_step cfg cat cur nxt carry ;;
        carry_loop fuel' cfg cat up_to_month_start nxt carry'
    end
  else ret carry.

(** Twelve passes a year separate [start] from [up_to]. *)
Definition month_index (dt : datetime) : Z := 12 * year dt + month dt.

Definition walk_fuel (start up_to : datetime) : nat :=
  S (Z.to_nat (12 * year up_to + 12 - month_index start)).

Definition cumulative_carry_until (cfg : gmap string Qc) (cat : Category.t)
    (up_to_month_start : datetime) : M Qc :=
  start_opt <- query (activity_start cat) ;;
  match start_opt with
  | None => ret 0%Qc
  | Some start =>
      carry_loop (walk_fuel start up_to_month_start) cfg cat
                 up_to_month_start start 0%Qc
  end.

(** ** The monthly summary *)

Record summary : Set := mk_summary {
  base : Qc;
  carry_in : Qc;
  effective : Qc;
  spent : Qc;
  remaining : Qc;
  pct : Qc;
  over_by : Qc
}.

Definition hundred : Qc := Qc_of_Z 100.

(** The base of the current month: the row of the month when the latest
    row is that one, else a row made from the latest earlier row or from
    the configured default. *)
Definition base_this_month (cfg : gmap string Qc) (cat : Category.t)
    (cur_start : datetime) : M Qc :=
  prev_mb <- query (prev_budget (Category.id cat) cur_start) ;;
  match prev_mb with
  | Some p =>
      if decide (MonthlyBudget.month_start p = cur_start)
      then ret (MonthlyBudget.base_budget p)
      else mb <- get_or_create_monthly_budget cat cur_start
                   (MonthlyBudget.base_budget p) ;;
           ret (MonthlyBudget.base_budget mb)
  | None =>
      mb <- get_or_create_monthly_budget cat cur_start
              (default_base cfg cat) ;;
      ret (MonthlyBudget.base_budget mb)
  end.

Definition current_month_summary (cfg : gmap string Qc) (cat : Category.t)
    (now_utc : datetime) : M summary :=
  let cur_start := month_start now_utc in
  nxt_start <- lift (next_month_start cur_start) ;;
  base_this_month <- base_this_month cfg cat cur_start ;;
  carry_in <- cumulative_carry_until cfg cat cur_start ;;
  let effective_budget := py_max 0%Qc (base_this_month + carry_in)%Qc in
  spent <- query (month_spend_for_category (Category.id cat)
                    cur_start nxt_start) ;;
  let remaining := (effective_budget - spent)%Qc in
  pct <- (if decide (effective_budget <= 0)%Qc then ret 0%Qc
          else q <- lift (py_div spent effective_budget) ;;
               ret (q * hundred)%Qc) ;;
  let over_by := py_max 0%Qc (- remaining)%Qc in
  ret (mk_summary base_this_month carry_in effective_budget spent
                  remaining pct over_by).

(** ** Year-to-date totals *)

Definition PREFERRED_ORDER : list string :=
  ["Home Items"; "Kendall's Shopping"; "Kevin's Shopping"; "Eating Out";
   "Groceries"]%string.

Fixpoint index_of (x : string) (l : list string) (i : Z) : option Z :=
  match l with
  | [] => None
  | y :: l' => if decide (y = x) then Some i else index_of x l' (i + 1)
  end.

(** [order_index.get(c.name, 9999)] *)
Definition order_index (nm : string) : Z :=
  default 9999 (index_of nm PREFERRED_ORDER 0).

(** [str.lower()] on ASCII names. *)
Definition ascii_lower (c : ascii) : ascii :=
  let n := Ascii.N_of_ascii c in
  if ((65 <=? n) && (n <=? 90))%N then Ascii.ascii_of_N (n + 32) else c.

Fixpoint lower (s : string) : string :=
  match s with
  | EmptyString => EmptyString
  | String c s' => String (ascii_lower c) (lower s')
  end.

(** The names on which [lower] is [str.lower()] and the order of strings
    is that of Python: those written in ASCII. *)
Definition ascii_name (s : string) : bool :=
  forallb (fun c => (Ascii.N_of_ascii c <? 128)%N) (list_ascii_of_string s).

Definition sort_key (c : Category.t) : Z * string :=
  (order_index (Category.name c), lower (Category.name c)).

(** [<] on the key tuples. *)
Definition key_ltb (k1 k2 : Z * string) : bool :=
  (k1.1 <? k2.1) || ((k1.1 =? k2.1) && String.ltb k1.2 k2.2).

(** [sorted] is stable: an element moves only past strictly smaller ones. *)
Fixpoint insert_sorted (c : Category.t) (l : list Category.t)
    : list Category.t :=
  match l with
  | [] => [c]
  | d :: l' =>
      if key_ltb (sort_key d) (sort_key c) then d :: insert_sorted c l'
      else c :: d :: l'
  end.

Definition sort_categories (cats : list Category.t) : list Category.t :=
  foldr insert_sorted [] cats.

(** The totals add the amounts in an order that depends on the order of
    the rows, so here the amounts are the binary64 floats of Python and
    SQLite, and the additions are rounded. *)
Module Float64.
Import PrimFloat.
#[local] Set Warnings "-inexact-float".

Definition zero : float := 0%float.

(** A row of the [Purchase] table. *)
Record purchase : Set := mk_purchase {
  id : Z;
  category_id : Z;
  name : string;
  amount : float;
  ts : datetime
}.

(** [func.sum] over a [Float] column adds the rows one after the other;
    [func.coalesce(.., 0.0)] is 0.0 on no rows. *)
Definition sql_sum (l : list float) : float :=
  fold_left PrimFloat.add l zero.

(** [x or 0.0]: a zero of either sign is falsy. *)
Definition or_zero (x : float) : float :=
  if (x =? zero)%float then zero else x.

Definition month_spend_for_category (cat_id : Z) (start_dt end_dt : datetime)
    (ps : list purchase) : float :=
  or_zero
    (sql_sum
       (amount <$> filter (fun p => category_id p = cat_id
                                    /\ (start_dt <= ts p)%dt
                                    /\ (ts p < end_dt)%dt) ps)).

Record ytd_row : Set := mk_row { row_cat : Category.t; row_spent : float }.

Definition ytd_totals (now_utc : datetime) (active_only : bool)
    (categories : list Category.t) (ps : list purchase)
    : list ytd_row * float :=
  let start_of_year := mk_datetime (year now_utc) 1 1 0 0 0 0 in
  let q := if active_only
           then filter (fun c => Category.is_active c = true) categories
           else categories in
  let cats := sort_categories q in
  fold_left
    (fun '(rows, overall) c =>
       let spent := month_spend_for_category (Category.id c)
                      start_of_year now_utc ps in
       (rows ++ [mk_row c spent], (overall + spent)%float))
    cats ([], zero).
End Float64.

(** ** Specification-level notions *)

(** [s'] is [s] with budget rows of the category appended, none of a
    month before [lo]; the other tables are untouched.  This is all a
    helper of the engine ever does to the database. *)
Definition extends (cat_id : Z) (lo : datetime) (s s' : db) : Prop :=
  categories s' = categories s /\ purchases s' = purchases s /\
  exists extra,
    monthly_budgets s' = monthly_budgets s ++ extra /\
    Forall (fun mb => MonthlyBudget.category_id mb = cat_id
                      /\ (lo <= MonthlyBudget.month_start mb)%dt) extra.

(** The walk over months that all have their row already: it reads the
    stored bases and writes nothing. *)
Fixpoint read_loop (fuel : nat) (cat : Category.t)
    (up_to_month_start cur : datetime) (carry : Qc) (s : db) {struct fuel}
    : option Qc :=
  if decide (cur < up_to_month_start)%dt then
    match fuel with
    | O => None
    | S fuel' =>
        match next_month_start cur with
        | Ok nxt =>
            match find_budget (Category.id cat) cur s with
            | Some mb =>
                read_loop fuel' cat up_to_month_start nxt
                  (carry + (MonthlyBudget.base_budget mb
                            - month_spend_for_category (Category.id cat)
                                cur nxt s))%Qc s
            | None => None
            end
        | Raise _ => None
        end
    end
  else Some carry.

(** The base that a month without a row is given, and the row made for
    it. *)
Definition seed_base (cfg : gmap string Qc) (cat : Category.t)
    (cur : datetime) (s : db) : Qc :=
  match prev_budget (Category.id cat) cur s with
  | Some p => MonthlyBudget.base_budget p
  | None => default_base cfg cat
  end.

Definition seeded_row (cfg : gmap string Qc) (cat : Category.t)
    (cur : datetime) (s : db) : MonthlyBudget.t :=
  MonthlyBudget.mk (next_id (monthly_budgets s)) (Category.id cat) cur
    (seed_base cfg cat cur s).

(** Every datetime stored in the tables is a datetime of Python. *)
Definition valid_db (s : db) : Prop :=
  Forall (fun p => valid_datetime (Purchase.ts p) = true) (purchases s) /\
  Forall (fun mb => valid_datetime (MonthlyBudget.month_start mb) = true)
         (monthly_budgets s).

(** ** A small household, for examples *)

(** What a computation returned, and the database it left. *)
Definition value_of {A} (d : A) (o : outcome A) : A :=
  match o with
  | Return a _ => a
  | _ => d
  end.

Definition state_after {A} (d : db) (o : outcome A) : db :=
  match o with
  | Return _ s | Throw _ s => s
  | OutOfFuel => d
  end.

Module Household.
Definition groceries : Category.t := Category.mk 1 "Groceries" true 9999.
Definition cfg : gmap string Qc := {[ "Groceries"%string := Qc_of_Z 400 ]}.

Definition jan : datetime := mk_datetime 2024 1 1 0 0 0 0.
Definition feb : datetime := mk_datetime 2024 2 1 0 0 0 0.
Definition mar : datetime := mk_datetime 2024 3 1 0 0 0 0.
Definition apr : datetime := mk_datetime 2024 4 1 0 0 0 0.
Definition dec_9999 : datetime := mk_datetime 9999 12 1 0 0 0 0.

(** 350 spent in January and 500 in February; no budget row yet. *)
Definition ledger : list Purchase.t :=
  [ Purchase.mk 1 1 "market" (Qc_of_Z 200) (mk_datetime 2024 1 10 9 30 0 0);
    Purchase.mk 2 1 "bakery" (Qc_of_Z 150) (mk_datetime 2024 1 24 17 5 0 0);
    Purchase.mk 3 1 "market" (Qc_of_Z 500) (mk_datetime 2024 2 5 12 0 0 0) ].

Definition fresh : db := mk_db [groceries] [] ledger.

(** A budget row of January and a first purchase in March. *)
Definition budget_first : db :=
  mk_db [groceries]
    [ MonthlyBudget.mk 1 1 jan (Qc_of_Z 100) ]
    [ Purchase.mk 1 1 "market" (Qc_of_Z 30)
        (mk_datetime 2024 3 10 9 30 0 0) ].

(** One budget row and no purchase. *)
Definition budget_only : db :=
  mk_db [groceries] [ MonthlyBudget.mk 1 1 jan (Qc_of_Z 100) ] [].
End Household.

Module HouseholdRuns.
Import Household.
(** The databases left by a call for February and then one for April. *)
Definition after_feb : db :=
  state_after fresh (cumulative_carry_until cfg groceries feb fresh).
Definition after_apr : db :=
  state_after fresh (cumulative_carry_until cfg groceries apr after_feb).
Definition carry_feb : Qc :=
  value_of 0%Qc (cumulative_carry_until cfg groceries feb fresh).
Definition carry_apr : Qc :=
  value_of 0%Qc (cumulative_carry_until cfg groceries apr after_feb).
End HouseholdRuns.

(** The dictionary that [current_month_summary] returns, from this
    month's base, the carry into it and the month's spend. *)
Definition summary_of (base_this_month carry_in spent : Qc) : summary :=
  let effective_budget := py_max 0%Qc (base_this_month + carry_in)%Qc in
  let remaining := (effective_budget - spent)%Qc in
  mk_summary base_this_month carry_in effective_budget spent remaining
    (if decide (effective_budget <= 0)%Qc then 0%Qc
     else (spent / effective_budget * hundred)%Qc)
    (py_max 0%Qc (- remaining)%Qc).

Module Overspent.
Import Household.
(** 1000 spent in January against a base of 400, 20 in February. *)
Definition overspent : db :=
  mk_db [groceries] []
    [ Purchase.mk 1 1 "freezer" (Qc_of_Z 1000)
        (mk_datetime 2024 1 10 9 30 0 0);
      Purchase.mk 2 1 "bakery" (Qc_of_Z 20)
        (mk_datetime 2024 2 3 8 0 0 0) ].
Definition now_feb : datetime := mk_datetime 2024 2 20 18 45 12 0.
Definition run : outcome summary :=
  current_month_summary cfg groceries now_feb overspent.
Definition feb_summary : summary := value_of (summary_of 0 0 0)%Qc run.
Definition after : db := state_after overspent run.
End Overspent.

(** The start of the walk in the words of the specification: the earlier
    of the month of the first purchase and the month of the first budget
    row, normalized to the start of its month. *)
Definition earlier (a b : option datetime) : option datetime :=
  match a, b with
  | Some x, Some y => if decide (y < x)%dt then Some y else Some x
  | Some x, None => Some x
  | None, _ => b
  end.

Definition spec_activity_start (cat : Category.t) (s : db) : option datetime :=
  month_start <$> earlier (month_start <$> first_purchase_ts (Category.id cat) s)
                          (first_budget_ts (Category.id cat) s).

(** The categories that [ytd_totals] reports on. *)
Definition selected (active_only : bool) (cats : list Category.t)
    : list Category.t :=
  if active_only
  then filter (fun c => Category.is_active c = true) cats
  else cats.

Module TwoCategories.
Import Household.
Definition pets : Category.t := Category.mk 2 "pets" true 9999.
Definition purchases_2024 : list Purchase.t :=
  ledger ++ [ Purchase.mk 4 2 "vet" (Qc_of_Z 80)
                (mk_datetime 2024 2 11 10 0 0 0) ].
Definition listed : db := mk_db [pets; groceries] [] purchases_2024.
Definition now : datetime := mk_datetime 2024 6 30 23 59 59 0.
End TwoCategories.

(** Three categories with one purchase each in 2024; two of the names
    differ in case only.  [retabled] is the same table with these two
    rows the other way round; [two] and [two_retabled] leave one of them
    out. *)
Module Rounding.
Import PrimFloat.
#[local] Set Warnings "-inexact-float".
Definition car : Category.t := Category.mk 1 "Car" true 9999.
Definition pets_upper : Category.t := Category.mk 2 "Pets" true 9999.
Definition pets_lower : Category.t := Category.mk 3 "pets" true 9999.
Definition ledger : list Float64.purchase :=
  [ Float64.mk_purchase 1 1 "fuel" 0.3%float (mk_datetime 2024 1 10 9 30 0 0);
    Float64.mk_purchase 2 2 "vet" 0.2%float (mk_datetime 2024 2 11 10 0 0 0);
    Float64.mk_purchase 3 3 "food" 0.1%float (mk_datetime 2024 3 5 12 0 0 0) ].
Definition table : list Category.t := [car; pets_upper; pets_lower].
Definition retabled : list Category.t := [car; pets_lower; pets_upper].
Definition two : list Category.t := [pets_lower; car].
Definition two_retabled : list Category.t := [car; pets_lower].
Definition now : datetime := mk_datetime 2024 6 30 23 59 59 0.
End Rounding.

(** ** The routes that write the ledger and the budgets *)

(** The primary key SQLite gives to an inserted purchase. *)
Definition next_purchase_id (rows : list Purchase.t) : Z :=
  foldr (fun p acc => Z.max (Purchase.id p) acc) 0 rows + 1.

Module Routes.
(** [add()], on the parsed form: [name] is the stripped field and [now_utc]
    the default of the [ts] column.  An empty name is refused and nothing
    is written. *)
Definition add (cat_id : Z) (name : string) (amount : Qc)
    (now_utc : datetime) (s : db) : db :=
  if decide (name = EmptyString) then s
  else mk_db (categories s) (monthly_budgets s)
         (purchases s
          ++ [Purchase.mk (next_purchase_id (purchases s)) cat_id name amount
                now_utc]).

(** [Purchase.query.get_or_404(pid)]: [None] is the 404. *)
Definition get_or_404 (pid : Z) (s : db) : option Purchase.t :=
  head (filter (fun p => Purchase.id p = pid) (purchases s)).

(** [delete(pid)] *)
Definition delete (pid : Z) (s : db) : option db :=
  match get_or_404 pid s with
  | None => None
  | Some _ =>
      Some (mk_db (categories s) (monthly_budgets s)
              (filter (fun p => Purchase.id p <> pid) (purchases s)))
  end.

(** [edit(pid)] on a POST: name, amount and category are overwritten, the
    timestamp is kept; the name is not checked here. *)
Definition edit (pid : Z) (name : string) (amount : Qc) (cat_id : Z)
    (s : db) : option db :=
  match get_or_404 pid s with
  | None => None
  | Some _ =>
      Some (mk_db (categories s) (monthly_budgets s)
              ((fun p => if decide (Purchase.id p = pid)
                         then Purchase.mk (Purchase.id p) cat_id name amount
                                (Purchase.ts p)
                         else p) <$> purchases s))
  end.

(** The body of the loop of [admin()] that saves one budget:
    [mb = get_or_create_monthly_budget(c, cur_start, 0.0)] and then
    [mb.base_budget = val], written back by primary key. *)
Definition admin_save (c : Category.t) (cur_start : datetime) (val : Qc)
    : M unit :=
  mb <- get_or_create_monthly_budget c cur_start 0%Qc ;;
  fun s =>
    Return tt
      (mk_db (categories s)
         ((fun r => if decide (MonthlyBudget.id r = MonthlyBudget.id mb)
                    then MonthlyBudget.mk (MonthlyBudget.id r)
                           (MonthlyBudget.category_id r)
                           (MonthlyBudget.month_start r) val
                    else r) <$> monthly_budgets s)
         (purchases s)).
End Routes.

(** The loop that ends the start-up block, and that [admin()] runs for its
    page: [get_or_create_monthly_budget(c, cur_start, seed)] for every
    category, [seed] being the configured default. *)
Fixpoint seed_budgets (cfg : gmap string Qc) (cur_start : datetime)
    (cats : list Category.t) : M unit :=
  match cats with
  | [] => ret tt
  | c :: cats' =>
      _ <- get_or_create_monthly_budget c cur_start (default_base cfg c) ;;
      seed_budgets cfg cur_start cats'
  end.

Definition seed_all (cfg : gmap string Qc) (now_utc : datetime) : M unit :=
  fun s => seed_budgets cfg (month_start now_utc) (categories s) s.

(** The primary key of the budget table. *)
Definition budget_ids_unique (s : db) : Prop :=
  NoDup (MonthlyBudget.id <$> monthly_budgets s).

(** All that a helper of the engine may have done to the database: budget
    rows of the one category appended, nothing else touched. *)
Definition only_appends (cat_id : Z) (s s' : db) : Prop :=
  categories s' = categories s /\ purchases s' = purchases s /\
  exists extra,
    monthly_budgets s' = monthly_budgets s ++ extra /\
    Forall (fun mb => MonthlyBudget.category_id mb = cat_id) extra.

(** The computation ended, normally or by an exception, in [s']. *)
Definition ends_in {A} (o : outcome A) (s' : db) : Prop :=
  (exists a, o = Return a s') \/ (exists e, o = Throw e s').

(** The two constraints of the budget table: its primary key and
    [uniq_cat_month]. *)
Definition budget_constraints (s : db) : Prop :=
  uniq_cat_month s /\ budget_ids_unique s.

(** The database with one more purchase in the ledger. *)
Definition with_purchase (p : Purchase.t) (s : db) : db :=
  mk_db (categories s) (monthly_budgets s) (purchases s ++ [p]).

(** The order [sorted] sees on the keys, and on the categories: [c] may
    stand before [d] when [d] does not compare below [c]. *)
Definition key_cmp (k1 k2 : Z * string) : comparison :=
  match k1.1 ?= k2.1 with
  | Eq => String.compare k1.2 k2.2
  | c => c
  end.

Definition key_le (c d : Category.t) : Prop :=
  key_ltb (sort_key d) (sort_key c) = false.

Definition preferred (c : Category.t) : Prop :=
  Category.name c ∈ PREFERRED_ORDER.

(** What the walk reads of a budget row, and two databases that show the
    walk towards [T] the same rows of a category and the same ledger. *)
Definition row_data (r : MonthlyBudget.t) : datetime * Qc :=
  (MonthlyBudget.month_start r, MonthlyBudget.base_budget r).

Definition same_below (cat_id : Z) (T : datetime) (s s' : db) : Prop :=
  purchases s' = purchases s /\
  row_data <$> filter (fun r => MonthlyBudget.category_id r = cat_id
                                /\ (MonthlyBudget.month_start r < T)%dt)
                 (monthly_budgets s')
  = row_data <$> filter (fun r => MonthlyBudget.category_id r = cat_id
                                  /\ (MonthlyBudget.month_start r < T)%dt)
                   (monthly_budgets s).

(** Two databases that show a category the same budget rows, up to
    their primary keys, and the same ledger. *)
Definition same_rows (cat_id : Z) (s s' : db) : Prop :=
  purchases s' = purchases s /\
  row_data <$> budgets_of cat_id s' = row_data <$> budgets_of cat_id s.

(** The rows of the home page,
    [[{"cat": c, "sum": current_month_summary(c, now)} for c in cats]]
    over the active categories in display order. *)
Fixpoint summaries (cfg : gmap string Qc) (now_utc : datetime)
    (cats : list Category.t) : M (list (Category.t * summary)) :=
  match cats with
  | [] => ret []
  | c :: cats' =>
      sm <- current_month_summary cfg c now_utc ;;
      rest <- summaries cfg now_utc cats' ;;
      ret ((c, sm) :: rest)
  end.

Definition index_rows (cfg : gmap string Qc) (now_utc : datetime)
    : M (list (Category.t * summary)) :=
  fun s =>
    summaries cfg now_utc
      (sort_categories
         (filter (fun c => Category.is_active c = true) (categories s))) s.

(** * Properties *)

(** ** The order on datetimes *)

Lemma lex_cmp_refl l : lex_cmp l l = Eq.
Proof. induction l as [|x l IH]; simpl; [done|]. by rewrite Z.compare_refl. Qed.

Lemma lex_cmp_eq l1 l2 : lex_cmp l1 l2 = Eq -> l1 = l2.
Proof.
  revert l2. induction l1 as [|x l1 IH]; intros [|y l2]; simpl; try done.
  destruct (Z.compare_spec x y) as [Hxy|Hxy|Hxy]; try done.
  intros Hl. f_equal; [done | by apply IH].
Qed.

Lemma lex_cmp_antisym l1 l2 : lex_cmp l2 l1 = CompOpp (lex_cmp l1 l2).
Proof.
  revert l2. induction l1 as [|x l1 IH]; intros [|y l2]; simpl; try done.
  rewrite (Z.compare_antisym x y).
  destruct (x ?= y); simpl; auto.
Qed.

Lemma lex_cmp_trans l1 l2 l3 :
  lex_cmp l1 l2 = Lt -> lex_cmp l2 l3 = Lt -> lex_cmp l1 l3 = Lt.
Proof.
  revert l2 l3.
  induction l1 as [|x l1 IH]; intros [|y l2] [|z l3]; simpl; try done.
  destruct (Z.compare_spec x y) as [Hxy|Hxy|Hxy],
           (Z.compare_spec y z) as [Hyz|Hyz|Hyz]; try done; subst.
  - rewrite Z.compare_refl. apply IH.
  - intros _ _. by apply Z.compare_lt_iff in Hyz as ->.
  - intros _ _. by apply Z.compare_lt_iff in Hxy as ->.
  - intros _ _. assert (x < z) as ->%Z.compare_lt_iff by lia. done.
Qed.

Lemma dt_fields_inj a b : dt_fields a = dt_fields b -> a = b.
Proof. destruct a, b. unfold dt_fields. simpl. by intros [= -> -> -> -> -> -> ->]. Qed.

Lemma dt_cmp_refl a : dt_cmp a a = Eq.
Proof. apply lex_cmp_refl. Qed.

Lemma dt_cmp_eq a b : dt_cmp a b = Eq <-> a = b.
Proof.
  split; [|intros ->; apply dt_cmp_refl].
  intros H. by apply dt_fields_inj, lex_cmp_eq.
Qed.

Lemma dt_cmp_antisym a b : dt_cmp b a = CompOpp (dt_cmp a b).
Proof. apply lex_cmp_antisym. Qed.

Lemma dt_lt_irrefl a : ~ (a < a)%dt.
Proof. unfold dt_lt. by rewrite dt_cmp_refl. Qed.

Lemma dt_lt_trans a b c : (a < b)%dt -> (b < c)%dt -> (a < c)%dt.
Proof. apply lex_cmp_trans. Qed.

Lemma dt_le_refl a : (a <= a)%dt.
Proof. unfold dt_le. by rewrite dt_cmp_refl. Qed.

Lemma dt_le_lteq a b : (a <= b)%dt <-> (a < b)%dt \/ a = b.
Proof.
  unfold dt_le, dt_lt. rewrite <- dt_cmp_eq.
  destruct (dt_cmp a b); intuition congruence.
Qed.

Lemma dt_lt_le a b : (a < b)%dt -> (a <= b)%dt.
Proof. intros. apply dt_le_lteq. by left. Qed.

Lemma dt_not_lt a b : ~ (a < b)%dt <-> (b <= a)%dt.
Proof.
  unfold dt_le, dt_lt. rewrite (dt_cmp_antisym a b).
  destruct (dt_cmp a b); simpl; intuition congruence.
Qed.

Lemma dt_not_le a b : ~ (a <= b)%dt <-> (b < a)%dt.
Proof.
  unfold dt_le, dt_lt. rewrite (dt_cmp_antisym a b).
  destruct (dt_cmp a b); simpl; intuition congruence.
Qed.

Lemma dt_lt_le_trans a b c : (a < b)%dt -> (b <= c)%dt -> (a < c)%dt.
Proof.
  intros Hab [Hbc | ->]%dt_le_lteq; [by eapply dt_lt_trans | done].
Qed.

Lemma dt_le_lt_trans a b c : (a <= b)%dt -> (b < c)%dt -> (a < c)%dt.
Proof.
  intros [Hab | ->]%dt_le_lteq Hbc; [by eapply dt_lt_trans | done].
Qed.

Lemma dt_le_trans a b c : (a <= b)%dt -> (b <= c)%dt -> (a <= c)%dt.
Proof.
  intros Hab [Hbc | ->]%dt_le_lteq; [|done].
  apply dt_lt_le. by eapply dt_le_lt_trans.
Qed.

Lemma dt_le_antisym a b : (a <= b)%dt -> (b <= a)%dt -> a = b.
Proof.
  intros [Hab | ->]%dt_le_lteq Hba; [|done].
  apply dt_not_lt in Hba. done.
Qed.

Lemma dt_lt_neq a b : (a < b)%dt -> a <> b.
Proof. intros H ->. by apply dt_lt_irrefl in H. Qed.

(** ** Month arithmetic *)

Lemma dt_cmp_unfold a b :
  dt_cmp a b =
    match year a ?= year b with
    | Eq => match month a ?= month b with
            | Eq => lex_cmp [day a; hour a; minute a; second a; microsecond a]
                            [day b; hour b; minute b; second b; microsecond b]
            | c => c
            end
    | c => c
    end.
Proof. reflexivity. Qed.

Lemma dt_lt_year a b : (a < b)%dt -> year a <= year b.
Proof.
  unfold dt_lt. rewrite dt_cmp_unfold.
  destruct (Z.compare_spec (year a) (year b)); [lia | lia | done].
Qed.

Lemma dt_lt_year_month a b :
  (a < b)%dt ->
  year a < year b \/ (year a = year b /\ month a <= month b).
Proof.
  unfold dt_lt. rewrite dt_cmp_unfold.
  destruct (Z.compare_spec (year a) (year b)); [|lia|done].
  destruct (Z.compare_spec (month a) (month b)); [lia | lia | done].
Qed.

Lemma month_start_idemp d : month_start (month_start d) = month_start d.
Proof. reflexivity. Qed.

Lemma month_start_is_month_start d : is_month_start (month_start d).
Proof. apply month_start_idemp. Qed.

Lemma month_start_cmp a b :
  dt_cmp (month_start a) (month_start b) =
    match year a ?= year b with
    | Eq => month a ?= month b
    | c => c
    end.
Proof.
  rewrite dt_cmp_unfold. simpl.
  destruct (year a ?= year b); [|done..].
  by destruct (month a ?= month b).
Qed.

Lemma month_start_lt_index a b :
  is_month_start a -> is_month_start b ->
  1 <= month a <= 12 -> 1 <= month b <= 12 ->
  (a < b)%dt <-> month_index a < month_index b.
Proof.
  intros <- <- Ha Hb. unfold dt_lt. rewrite month_start_cmp.
  unfold month_index. simpl in *.
  destruct (Z.compare_spec (year a) (year b));
    [destruct (Z.compare_spec (month a) (month b))|..];
    split; try done; lia.
Qed.

Lemma month_start_le_index a b :
  is_month_start a -> is_month_start b ->
  1 <= month a <= 12 -> 1 <= month b <= 12 ->
  (a <= b)%dt <-> month_index a <= month_index b.
Proof.
  intros Ha Hb Hma Hmb.
  rewrite <- dt_not_lt, (month_start_lt_index b a) by done. lia.
Qed.

Lemma valid_month_start_iff y m :
  valid_datetime (mk_datetime y m 1 0 0 0 0) = true
  <-> 1 <= y <= 9999 /\ 1 <= m <= 12.
Proof.
  unfold valid_datetime, MINYEAR, MAXYEAR. simpl.
  rewrite !andb_true_r, !andb_true_iff, !Z.leb_le.
  assert (1 <= days_in_month y m).
  { unfold days_in_month.
    repeat match goal with |- context [if ?b then _ else _] => destruct b end;
      lia. }
  lia.
Qed.

Lemma valid_datetime_range d :
  valid_datetime d = true -> 1 <= year d <= 9999 /\ 1 <= month d <= 12.
Proof.
  unfold valid_datetime, MINYEAR, MAXYEAR.
  rewrite !andb_true_iff, !Z.leb_le. lia.
Qed.

Lemma month_start_valid d :
  valid_datetime d = true -> valid_datetime (month_start d) = true.
Proof.
  intros H%valid_datetime_range. by apply valid_month_start_iff.
Qed.

Lemma next_month_start_gt m n : next_month_start m = Ok n -> (m < n)%dt.
Proof.
  unfold next_month_start, checked.
  destruct (Z.eqb_spec (month m) 12) as [Hm|Hm];
    (destruct (valid_datetime _); [|done]); intros [= <-];
    unfold dt_lt; rewrite dt_cmp_unfold; simpl.
  - by assert (year m < year m + 1) as ->%Z.compare_lt_iff by lia.
  - rewrite Z.compare_refl.
    by assert (month m < month m + 1) as ->%Z.compare_lt_iff by lia.
Qed.

Lemma next_month_start_spec m n :
  next_month_start m = Ok n ->
  is_month_start n /\ valid_datetime n = true
  /\ month_index n = month_index m + 1.
Proof.
  unfold next_month_start, checked.
  destruct (Z.eqb_spec (month m) 12) as [Hm|Hm];
    (destruct (valid_datetime _) eqn:Hv; [|done]); intros [= <-];
    (split; [done|split; [done|]]); unfold month_index; simpl; lia.
Qed.

Lemma next_month_start_ok m :
  1 <= year m <= 9999 -> 1 <= month m <= 12 ->
  ~ (year m = 9999 /\ month m = 12) ->
  exists n, next_month_start m = Ok n.
Proof.
  intros Hy Hm Hne. unfold next_month_start, checked.
  destruct (Z.eqb_spec (month m) 12) as [Hm12|Hm12].
  - rewrite (proj2 (valid_month_start_iff _ _)) by lia. eauto.
  - rewrite (proj2 (valid_month_start_iff _ _)) by lia. eauto.
Qed.

(** ** Running computations *)

Lemma bind_Return {A B} (c : M A) (k : A -> M B) s b s' :
  bind c k s = Return b s' <->
  exists a s1, c s = Return a s1 /\ k a s1 = Return b s'.
Proof.
  unfold bind. split.
  - destruct (c s) as [a s1| |]; [eauto|done..].
  - by intros (a & s1 & -> & ?).
Qed.

Lemma bind_query {A B} (q : db -> A) (k : A -> M B) s :
  bind (query q) k s = k (q s) s.
Proof. reflexivity. Qed.

(** ** What the helpers do to the tables *)

Lemma extends_refl cat_id lo s : extends cat_id lo s s.
Proof.
  repeat split. exists []. by rewrite app_nil_r.
Qed.

Lemma extends_trans cat_id lo lo' s1 s2 s3 :
  (lo <= lo')%dt ->
  extends cat_id lo s1 s2 -> extends cat_id lo' s2 s3 ->
  extends cat_id lo s1 s3.
Proof.
  intros Hlo (Hc1 & Hp1 & e1 & He1 & Hf1) (Hc2 & Hp2 & e2 & He2 & Hf2).
  split; [congruence|]. split; [congruence|].
  exists (e1 ++ e2). split; [by rewrite He2, He1, app_assoc|].
  apply Forall_app. split; [done|].
  eapply Forall_impl; [done|]. simpl. intros mb [? ?].
  split; [done|]. by eapply dt_le_trans.
Qed.

Lemma extends_weaken cat_id lo lo' s s' :
  (lo <= lo')%dt -> extends cat_id lo' s s' -> extends cat_id lo s s'.
Proof.
  intros Hlo H. eapply extends_trans; [done| apply extends_refl | done].
Qed.

Lemma month_spend_extends cat_id lo s s' c a b :
  extends cat_id lo s s' ->
  month_spend_for_category c a b s' = month_spend_for_category c a b s.
Proof. intros (_ & Hp & _). unfold month_spend_for_category. by rewrite Hp. Qed.

Lemma first_purchase_extends cat_id lo s s' c :
  extends cat_id lo s s' -> first_purchase_ts c s' = first_purchase_ts c s.
Proof.
  intros (_ & Hp & _). unfold first_purchase_ts, purchases_of. by rewrite Hp.
Qed.

Lemma find_budget_extends cat_id lo s s' c m r :
  extends cat_id lo s s' ->
  find_budget c m s = Some r -> find_budget c m s' = Some r.
Proof.
  intros (_ & _ & e & He & _). unfold find_budget. rewrite He, filter_app.
  destruct (filter _ (monthly_budgets s)); [done|]. done.
Qed.

Lemma get_or_create_spec cat m d s :
  exists mb s',
    get_or_create_monthly_budget cat m d s = Return mb s'
    /\ find_budget (Category.id cat) m s' = Some mb
    /\ extends (Category.id cat) m s s'
    /\ (find_budget (Category.id cat) m s = None ->
        MonthlyBudget.base_budget mb = d)
    /\ (forall r, find_budget (Category.id cat) m s = Some r ->
        mb = r /\ s' = s).
Proof.
  unfold get_or_create_monthly_budget.
  destruct (find_budget (Category.id cat) m s) as [r|] eqn:Hf.
  - exists r, s. split; [done|]. split; [done|].
    split; [apply extends_refl|]. split; [done|].
    by intros r' [= ->].
  - eexists _, _. split; [done|]. split; [|split; [|split; [done|done]]].
    + unfold find_budget in *. simpl. rewrite filter_app.
      destruct (filter _ (monthly_budgets s)); [|done].
      simpl. rewrite filter_cons_True by done. done.
    + repeat split. eexists. split; [done|].
      apply Forall_singleton. split; [done|]. apply dt_le_refl.
Qed.

Lemma get_or_create_found cat m d s r :
  find_budget (Category.id cat) m s = Some r ->
  get_or_create_monthly_budget cat m d s = Return r s.
Proof. unfold get_or_create_monthly_budget. by intros ->. Qed.

Lemma resolve_budget_spec cfg cat cur s :
  exists mb s',
    resolve_budget cfg cat cur s = Return mb s'
    /\ find_budget (Category.id cat) cur s' = Some mb
    /\ extends (Category.id cat) cur s s'.
Proof.
  unfold resolve_budget. rewrite bind_query.
  destruct (prev_budget _ _ _) as [p|];
    (edestruct get_or_create_spec as (mb & s' & -> & ? & ? & _); eauto).
Qed.

Lemma resolve_budget_found cfg cat cur s r :
  find_budget (Category.id cat) cur s = Some r ->
  resolve_budget cfg cat cur s = Return r s.
Proof.
  intros Hf. unfold resolve_budget. rewrite bind_query.
  destruct (prev_budget _ _ _); by apply get_or_create_found.
Qed.

Lemma carry_step_spec cfg cat cur nxt carry s :
  exists mb s',
    resolve_budget cfg cat cur s = Return mb s'
    /\ find_budget (Category.id cat) cur s' = Some mb
    /\ extends (Category.id cat) cur s s'
    /\ carry_step cfg cat cur nxt carry s =
         Return (carry + (MonthlyBudget.base_budget mb
                          - month_spend_for_category (Category.id cat)
                              cur nxt s))%Qc s'.
Proof.
  destruct (resolve_budget_spec cfg cat cur s) as (mb & s' & Hr & Hf & He).
  exists mb, s'. repeat split; try done; try apply He.
  unfold carry_step, bind. rewrite Hr. unfold query, ret.
  by rewrite (month_spend_extends _ _ _ _ _ _ _ He).
Qed.

(** ** The walk *)

Lemma carry_loop_done fuel cfg cat T cur c s :
  ~ (cur < T)%dt -> carry_loop fuel cfg cat T cur c s = Return c s.
Proof. intros H. destruct fuel; simpl; by rewrite decide_False. Qed.

Lemma carry_loop_O cfg cat T cur c s :
  (cur < T)%dt -> carry_loop 0 cfg cat T cur c s = OutOfFuel.
Proof. intros H. simpl. by rewrite decide_True. Qed.

Lemma carry_loop_raise fuel cfg cat T cur c s e :
  (cur < T)%dt -> next_month_start cur = Raise e ->
  carry_loop (S fuel) cfg cat T cur c s = Throw e s.
Proof.
  intros H Hn. simpl. rewrite decide_True by done.
  unfold bind, lift. by rewrite Hn.
Qed.

Lemma carry_loop_step fuel cfg cat T cur nxt c s :
  (cur < T)%dt -> next_month_start cur = Ok nxt ->
  exists mb s',
    resolve_budget cfg cat cur s = Return mb s'
    /\ find_budget (Category.id cat) cur s' = Some mb
    /\ extends (Category.id cat) cur s s'
    /\ carry_loop (S fuel) cfg cat T cur c s =
         carry_loop fuel cfg cat T nxt
           (c + (MonthlyBudget.base_budget mb
                 - month_spend_for_category (Category.id cat) cur nxt s))%Qc
           s'.
Proof.
  intros H Hn.
  destruct (carry_step_spec cfg cat cur nxt c s)
    as (mb & s' & Hr & Hf & He & Hs).
  exists mb, s'. repeat (split; [done|]).
  simpl. rewrite decide_True by done.
  unfold bind at 1. unfold lift. rewrite Hn.
  unfold bind at 1. by rewrite Hs.
Qed.

(** More fuel never changes the result of a walk that had enough. *)
Lemma carry_loop_fuel_S fuel cfg cat T cur c s :
  carry_loop fuel cfg cat T cur c s <> OutOfFuel ->
  carry_loop (S fuel) cfg cat T cur c s = carry_loop fuel cfg cat T cur c s.
Proof.
  revert cur c s. induction fuel as [|fuel IH]; intros cur c s Hne.
  - destruct (decide (cur < T)%dt) as [Hlt|Hlt].
    + by rewrite carry_loop_O in Hne.
    + by rewrite !carry_loop_done.
  - destruct (decide (cur < T)%dt) as [Hlt|Hlt];
      [|by rewrite !carry_loop_done].
    destruct (next_month_start cur) as [nxt|e] eqn:Hn;
      [|by rewrite !(carry_loop_raise _ _ _ _ _ _ _ e)].
    destruct (carry_loop_step (S fuel) cfg cat T cur nxt c s Hlt Hn)
      as (mb & s' & Hr & _ & _ & ->).
    destruct (carry_loop_step fuel cfg cat T cur nxt c s Hlt Hn)
      as (mb' & s'' & Hr' & _ & _ & Heq).
    rewrite Hr in Hr'. injection Hr' as <- <-.
    rewrite Heq in Hne |- *. by apply IH.
Qed.

Lemma carry_loop_fuel_le fuel fuel' cfg cat T cur c s :
  (fuel <= fuel')%nat ->
  carry_loop fuel cfg cat T cur c s <> OutOfFuel ->
  carry_loop fuel' cfg cat T cur c s = carry_loop fuel cfg cat T cur c s.
Proof.
  induction 1 as [|fuel' Hle IH]; [done|]. intros Hne.
  rewrite carry_loop_fuel_S; rewrite IH; done.
Qed.

Lemma carry_loop_fuel_agree f1 f2 cfg cat T cur c s :
  carry_loop f1 cfg cat T cur c s <> OutOfFuel ->
  carry_loop f2 cfg cat T cur c s <> OutOfFuel ->
  carry_loop f1 cfg cat T cur c s = carry_loop f2 cfg cat T cur c s.
Proof.
  intros H1 H2. destruct (Nat.le_ge_cases f1 f2).
  - symmetry. by apply carry_loop_fuel_le.
  - by apply carry_loop_fuel_le.
Qed.

(** The cursor moves one month at a time and cannot pass December 9999:
    the distance to the year of the target bounds the passes. *)
Lemma carry_loop_enough fuel cfg cat T cur c s :
  1 <= month cur <= 12 ->
  (Z.to_nat (12 * year T + 13 - month_index cur) <= fuel)%nat ->
  carry_loop fuel cfg cat T cur c s <> OutOfFuel.
Proof.
  revert cur c s. induction fuel as [|fuel IH]; intros cur c s Hm Hf.
  - destruct (decide (cur < T)%dt) as [Hlt|Hlt];
      [|by rewrite carry_loop_done].
    apply dt_lt_year in Hlt. unfold month_index in Hf. lia.
  - destruct (decide (cur < T)%dt) as [Hlt|Hlt];
      [|by rewrite carry_loop_done].
    destruct (next_month_start cur) as [nxt|e] eqn:Hn;
      [|by rewrite (carry_loop_raise _ _ _ _ _ _ _ e)].
    destruct (carry_loop_step fuel cfg cat T cur nxt c s Hlt Hn)
      as (mb & s' & _ & _ & _ & ->).
    destruct (next_month_start_spec _ _ Hn) as (_ & Hv & Hi).
    apply IH; [apply valid_datetime_range in Hv; lia | lia].
Qed.

Lemma carry_loop_walk_fuel cfg cat T start c s :
  carry_loop (walk_fuel start T) cfg cat T start c s <> OutOfFuel.
Proof.
  unfold walk_fuel.
  destruct (decide (start < T)%dt) as [Hlt|Hlt];
    [|by rewrite carry_loop_done].
  destruct (next_month_start start) as [nxt|e] eqn:Hn;
    [|by rewrite (carry_loop_raise _ _ _ _ _ _ _ e)].
  destruct (carry_loop_step (Z.to_nat (12 * year T + 12 - month_index start))
              cfg cat T start nxt c s Hlt Hn)
    as (mb & s' & _ & _ & _ & ->).
  destruct (next_month_start_spec _ _ Hn) as (_ & Hv & Hi).
  apply carry_loop_enough; [apply valid_datetime_range in Hv; lia | lia].
Qed.

Lemma cumulative_carry_until_terminates cfg cat T s :
  cumulative_carry_until cfg cat T s <> OutOfFuel.
Proof.
  unfold cumulative_carry_until. rewrite bind_query.
  destruct (activity_start cat s); [|done].
  apply carry_loop_walk_fuel.
Qed.

(** With any sufficient fuel the walk is the call itself. *)
Lemma cumulative_carry_until_fuel fuel cfg cat T s start :
  activity_start cat s = Some start ->
  carry_loop fuel cfg cat T start 0%Qc s <> OutOfFuel ->
  cumulative_carry_until cfg cat T s = carry_loop fuel cfg cat T start 0%Qc s.
Proof.
  intros Hs Hne. unfold cumulative_carry_until. rewrite bind_query, Hs.
  apply carry_loop_fuel_agree; [apply carry_loop_walk_fuel | done].
Qed.

(** After a walk every month it visited has its row, and the walk over
    the stored rows gives the same carry. *)
Lemma carry_loop_materializes fuel cfg cat T cur c s v s' :
  carry_loop fuel cfg cat T cur c s = Return v s' ->
  read_loop fuel cat T cur c s' = Some v
  /\ extends (Category.id cat) cur s s'.
Proof.
  revert cur c s. induction fuel as [|fuel IH]; intros cur c s Hrun.
  - destruct (decide (cur < T)%dt) as [Hlt|Hlt].
    + by rewrite carry_loop_O in Hrun.
    + rewrite carry_loop_done in Hrun by done. injection Hrun as <- <-.
      split; [|apply extends_refl]. simpl. by rewrite decide_False.
  - destruct (decide (cur < T)%dt) as [Hlt|Hlt].
    2:{ rewrite carry_loop_done in Hrun by done. injection Hrun as <- <-.
        split; [|apply extends_refl]. simpl. by rewrite decide_False. }
    destruct (next_month_start cur) as [nxt|e] eqn:Hn;
      [|by rewrite (carry_loop_raise _ _ _ _ _ _ _ e) in Hrun].
    destruct (carry_loop_step fuel cfg cat T cur nxt c s Hlt Hn)
      as (mb & s1 & _ & Hf & He & Heq).
    rewrite Heq in Hrun. apply IH in Hrun as [Hread He'].
    assert (cur <= nxt)%dt by by apply dt_lt_le, next_month_start_gt.
    split; [|by eapply extends_trans].
    simpl. rewrite decide_True, Hn by done.
    rewrite (find_budget_extends _ _ _ _ _ _ _ He' Hf).
    rewrite (month_spend_extends _ _ _ _ _ _ _ He').
    by rewrite (month_spend_extends _ _ _ _ _ _ _ He).
Qed.

(** On rows that are all there the walk reads and writes nothing. *)
Lemma read_loop_carry_loop fuel cfg cat T cur c s v :
  read_loop fuel cat T cur c s = Some v ->
  carry_loop fuel cfg cat T cur c s = Return v s.
Proof.
  revert cur c. induction fuel as [|fuel IH]; intros cur c; simpl;
    destruct (decide (cur < T)%dt) as [Hlt|Hlt]; try done;
    try (by intros [= ->]).
  destruct (next_month_start cur) as [nxt|e] eqn:Hn; [|done].
  destruct (find_budget (Category.id cat) cur s) as [mb|] eqn:Hf; [|done].
  intros Hread. unfold bind at 1. simpl.
  unfold carry_step, bind.
  rewrite (resolve_budget_found _ _ _ _ _ Hf). simpl.
  by apply IH.
Qed.

(** Rows appended later are never read by it. *)
Lemma read_loop_extends fuel cat cat_id lo T cur c s s' v :
  extends cat_id lo s s' ->
  read_loop fuel cat T cur c s = Some v ->
  read_loop fuel cat T cur c s' = Some v.
Proof.
  intros He. revert cur c. induction fuel as [|fuel IH]; intros cur c; simpl;
    destruct (decide (cur < T)%dt) as [Hlt|Hlt]; try done.
  destruct (next_month_start cur) as [nxt|e] eqn:Hn; [|done].
  destruct (find_budget (Category.id cat) cur s) as [mb|] eqn:Hf; [|done].
  rewrite (find_budget_extends _ _ _ _ _ _ _ He Hf).
  rewrite (month_spend_extends _ _ _ _ _ _ _ He). apply IH.
Qed.

(** ** The start of the walk *)

Lemma min_dt_spec l m :
  min_dt l = Some m <-> m ∈ l /\ forall x, x ∈ l -> (m <= x)%dt.
Proof.
  revert m. induction l as [|d l IH]; intros m; simpl.
  - split; [done|]. by intros [?%elem_of_nil _].
  - destruct (min_dt l) as [d'|] eqn:Hmin.
    + destruct (IH d') as [[Hin Hle] _]; [done|].
      destruct (decide (d' < d)%dt) as [Hlt|Hge].
      * split.
        -- intros [= <-]. split; [by right|].
           intros x [->|Hx]%elem_of_cons; [by apply dt_lt_le | by apply Hle].
        -- intros [Hm Hall]. f_equal. apply dt_le_antisym.
           ++ apply elem_of_cons in Hm as [->|Hm]; [by apply dt_lt_le|].
              by apply Hle.
           ++ apply Hall. by right.
      * apply dt_not_lt in Hge. split.
        -- intros [= <-]. split; [by left|].
           intros x [->|Hx]%elem_of_cons; [apply dt_le_refl|].
           eapply dt_le_trans; [done | by apply Hle].
        -- intros [Hm Hall]. f_equal. apply dt_le_antisym.
           ++ apply elem_of_cons in Hm as [->|Hm]; [apply dt_le_refl|].
              eapply dt_le_trans; [done | by apply Hle].
           ++ apply Hall. by left.
    + assert (l = []) as -> by (by destruct l as [|? l']; [|
        simpl in Hmin; destruct (min_dt l'); [destruct (decide _)|]]).
      split.
      * intros [= <-]. split; [by left|].
        intros x [->|?%elem_of_nil]%elem_of_cons; [apply dt_le_refl | done].
      * by intros [[->|?%elem_of_nil]%elem_of_cons _].
Qed.

Lemma min_dt_is_Some l : l <> [] -> is_Some (min_dt l).
Proof.
  destruct l as [|d l]; [done|]. intros _. simpl.
  destruct (min_dt l); [destruct (decide _)|]; eauto.
Qed.

Lemma dt_le_year_month a b :
  (a <= b)%dt ->
  year a < year b \/ (year a = year b /\ month a <= month b).
Proof.
  intros [H | ->]%dt_le_lteq; [by apply dt_lt_year_month | lia].
Qed.

(** A datetime between the start of a month and a datetime of that
    month is of that month. *)
Lemma month_start_between x d :
  (month_start d <= x)%dt -> (x <= d)%dt -> month_start x = month_start d.
Proof.
  intros H1%dt_le_year_month H2%dt_le_year_month. simpl in H1.
  unfold month_start. f_equal; lia.
Qed.

Lemma filter_all {A} (P : A -> Prop) `{!forall x, Decision (P x)} l :
  Forall P l -> filter P l = l.
Proof.
  induction 1 as [|x l Hx _ IH]; [done|]. by rewrite filter_cons_True, IH.
Qed.

Lemma budgets_of_extends cat_id lo s s' :
  extends cat_id lo s s' ->
  exists extra,
    budgets_of cat_id s' = budgets_of cat_id s ++ extra
    /\ Forall (fun mb => (lo <= MonthlyBudget.month_start mb)%dt) extra.
Proof.
  intros (_ & _ & e & He & Hall). exists e. unfold budgets_of.
  rewrite He, filter_app. split.
  - f_equal. apply filter_all.
    eapply Forall_impl; [done|]. by intros mb [? _].
  - eapply Forall_impl; [done|]. by intros mb [_ ?].
Qed.

(** The walk itself never moves its own start. *)
Lemma activity_start_extends cat start s s' :
  activity_start cat s = Some start ->
  extends (Category.id cat) start s s' ->
  activity_start cat s' = Some start.
Proof.
  unfold activity_start. intros Hs He.
  rewrite (first_purchase_extends _ _ _ _ _ He).
  destruct (first_purchase_ts _ s) as [t|]; [done|]. simpl in *.
  destruct (budgets_of_extends _ _ _ _ He) as (e & Heq & Hall).
  unfold first_budget_ts in *. rewrite Heq, fmap_app.
  destruct (min_dt (MonthlyBudget.month_start <$> budgets_of _ s))
    as [F|] eqn:HF; [|done].
  injection Hs as <-.
  apply min_dt_spec in HF as [HFin HFle].
  destruct (min_dt_is_Some
    ((MonthlyBudget.month_start <$> budgets_of (Category.id cat) s)
       ++ (MonthlyBudget.month_start <$> e))) as [m Hm].
  { intros [Hnil _]%app_eq_nil. rewrite Hnil in HFin.
    by apply elem_of_nil in HFin. }
  rewrite Hm. simpl. f_equal.
  apply min_dt_spec in Hm as [Hmin Hmle].
  assert (m <= F)%dt as HmF.
  { apply Hmle, elem_of_app. by left. }
  apply elem_of_app in Hmin as [Hmin|Hmin].
  - f_equal. apply dt_le_antisym; [done | by apply HFle].
  - apply month_start_between; [|done].
    apply list_elem_of_fmap in Hmin as (mb & -> & Hmb).
    by eapply Forall_forall in Hall.
Qed.

(** ** The call as a whole *)

Lemma cumulative_carry_until_spec cfg cat T s v s' :
  cumulative_carry_until cfg cat T s = Return v s' ->
  match activity_start cat s with
  | None => v = 0%Qc /\ s' = s
  | Some start =>
      read_loop (walk_fuel start T) cat T start 0%Qc s' = Some v
      /\ extends (Category.id cat) start s s'
      /\ activity_start cat s' = Some start
  end.
Proof.
  unfold cumulative_carry_until. rewrite bind_query.
  destruct (activity_start cat s) as [start|] eqn:Hs.
  - intros [Hread He]%carry_loop_materializes.
    repeat (split; [done|]). by eapply activity_start_extends.
  - by intros [= <- <-].
Qed.

Lemma cumulative_carry_until_read cfg cat T s v start :
  activity_start cat s = Some start ->
  read_loop (walk_fuel start T) cat T start 0%Qc s = Some v ->
  cumulative_carry_until cfg cat T s = Return v s.
Proof.
  intros Hs Hread. unfold cumulative_carry_until. rewrite bind_query, Hs.
  by apply read_loop_carry_loop.
Qed.

Lemma cumulative_carry_until_idempotent cfg cat T s v s' :
  cumulative_carry_until cfg cat T s = Return v s' ->
  cumulative_carry_until cfg cat T s' = Return v s'.
Proof.
  intros Hrun. pose proof (cumulative_carry_until_spec _ _ _ _ _ _ Hrun) as H.
  destruct (activity_start cat s) as [start|] eqn:Hs.
  - destruct H as (Hread & _ & Hs'). by eapply cumulative_carry_until_read.
  - destruct H as [-> ->]. done.
Qed.

Lemma cumulative_carry_until_extends cfg cat T s v s' :
  cumulative_carry_until cfg cat T s = Return v s' ->
  activity_start cat s' = activity_start cat s
  /\ exists lo, extends (Category.id cat) lo s s'.
Proof.
  intros Hrun. pose proof (cumulative_carry_until_spec _ _ _ _ _ _ Hrun) as H.
  destruct (activity_start cat s) as [start|] eqn:Hs.
  - destruct H as (_ & He & Hs'). eauto.
  - destruct H as [-> ->]. split; [done|].
    exists T. apply extends_refl.
Qed.

(** A later call for any other target leaves the result of an earlier
    call as it was. *)
Lemma cumulative_carry_until_after cfg cat T T' s v s1 v' s2 :
  cumulative_carry_until cfg cat T s = Return v s1 ->
  cumulative_carry_until cfg cat T' s1 = Return v' s2 ->
  cumulative_carry_until cfg cat T s2 = Return v s2.
Proof.
  intros Hrun1 Hrun2.
  pose proof (cumulative_carry_until_spec _ _ _ _ _ _ Hrun1) as H1.
  pose proof (cumulative_carry_until_spec _ _ _ _ _ _ Hrun2) as H2.
  destruct (activity_start cat s) as [start|] eqn:Hs.
  - destruct H1 as (Hread & _ & Hs1). rewrite Hs1 in H2.
    destruct H2 as (_ & He2 & Hs2).
    eapply cumulative_carry_until_read; [done|].
    by eapply read_loop_extends.
  - destruct H1 as [-> ->]. rewrite Hs in H2. destruct H2 as [_ ->].
    unfold cumulative_carry_until. by rewrite bind_query, Hs.
Qed.

(** ** Walks between months of the calendar *)

Lemma carry_loop_no_throw fuel cfg cat T cur c s e s' :
  is_month_start cur -> valid_datetime cur = true ->
  is_month_start T -> valid_datetime T = true ->
  carry_loop fuel cfg cat T cur c s <> Throw e s'.
Proof.
  intros Hc Hvc HT HvT. revert cur c s Hc Hvc.
  induction fuel as [|fuel IH]; intros cur c s Hc Hvc;
    (destruct (decide (cur < T)%dt) as [Hlt|Hlt];
      [|by rewrite carry_loop_done]).
  - by rewrite carry_loop_O.
  - apply valid_datetime_range in Hvc as Hrc.
    apply valid_datetime_range in HvT as HrT.
    pose proof (proj1 (month_start_lt_index cur T Hc HT
      (proj2 Hrc) (proj2 HrT)) Hlt) as Hidx.
    destruct (next_month_start_ok cur) as [nxt Hn];
      [lia | lia | unfold month_index in Hidx; lia |].
    destruct (carry_loop_step fuel cfg cat T cur nxt c s Hlt Hn)
      as (mb & s1 & _ & _ & _ & ->).
    destruct (next_month_start_spec _ _ Hn) as (Hms & Hv & _).
    by apply IH.
Qed.

Lemma min_dt_elem l m : min_dt l = Some m -> m ∈ l.
Proof. by intros [? _]%min_dt_spec. Qed.

Lemma activity_start_valid cat s start :
  valid_db s -> activity_start cat s = Some start ->
  is_month_start start /\ valid_datetime start = true.
Proof.
  intros [Hp Hb]. unfold activity_start.
  destruct (py_or _ _) as [t|] eqn:Hor; [|done]. intros [= <-].
  split; [apply month_start_is_month_start|]. apply month_start_valid.
  unfold py_or in Hor.
  destruct (first_purchase_ts _ s) as [t'|] eqn:Hfp.
  - injection Hor as ->. apply min_dt_elem in Hfp.
    apply list_elem_of_fmap in Hfp as (p & -> & Hin).
    apply list_elem_of_filter in Hin as [_ Hin].
    by eapply Forall_forall in Hp.
  - apply min_dt_elem in Hor.
    apply list_elem_of_fmap in Hor as (mb & -> & Hin).
    apply list_elem_of_filter in Hin as [_ Hin].
    by eapply Forall_forall in Hb.
Qed.

(** On a database of datetimes, a call for a month of the calendar
    returns. *)
Lemma cumulative_carry_until_returns cfg cat T s :
  valid_db s -> is_month_start T -> valid_datetime T = true ->
  exists v s', cumulative_carry_until cfg cat T s = Return v s'.
Proof.
  intros Hdb HT HvT.
  destruct (cumulative_carry_until cfg cat T s) as [v s'|e s'|] eqn:Hrun.
  - eauto.
  - exfalso. revert Hrun. unfold cumulative_carry_until.
    rewrite bind_query.
    destruct (activity_start cat s) as [start|] eqn:Hs; [|done].
    destruct (activity_start_valid _ _ _ Hdb Hs).
    by apply carry_loop_no_throw.
  - by apply cumulative_carry_until_terminates in Hrun.
Qed.

(** The walk to the month after [M] is the walk to [M] and one more
    pass, for [M] itself. *)
Lemma carry_loop_split fuel cfg cat M M1 cur c s c' s' :
  is_month_start M -> valid_datetime M = true ->
  next_month_start M = Ok M1 ->
  is_month_start cur -> valid_datetime cur = true ->
  (cur <= M)%dt ->
  carry_loop fuel cfg cat M cur c s = Return c' s' ->
  carry_loop (S fuel) cfg cat M1 cur c s = carry_step cfg cat M M1 c' s'.
Proof.
  intros HM HvM HM1. revert cur c s.
  assert (M < M1)%dt as HMM1 by by apply next_month_start_gt.
  induction fuel as [|fuel IH]; intros cur c s Hc Hvc Hle Hrun.
  - destruct (decide (cur < M)%dt) as [Hlt|Hlt];
      [by rewrite carry_loop_O in Hrun|].
    rewrite carry_loop_done in Hrun by done. injection Hrun as <- <-.
    assert (cur = M) as ->.
    { apply dt_le_antisym; [done | by apply dt_not_lt]. }
    destruct (carry_loop_step 0 cfg cat M1 M M1 c s HMM1 HM1)
      as (mb & s1 & Hr & _ & _ & ->).
    rewrite carry_loop_done by apply dt_lt_irrefl.
    destruct (carry_step_spec cfg cat M M1 c s) as (mb' & s1' & Hr' & _ & _ & ->).
    rewrite Hr in Hr'. by injection Hr' as <- <-.
  - destruct (decide (cur < M)%dt) as [Hlt|Hlt].
    + destruct (next_month_start cur) as [nxt|e] eqn:Hn;
        [|by rewrite (carry_loop_raise _ _ _ _ _ _ _ e) in Hrun].
      destruct (carry_loop_step fuel cfg cat M cur nxt c s Hlt Hn)
        as (mb & s1 & Hr & _ & _ & Heq).
      rewrite Heq in Hrun.
      destruct (carry_loop_step (S fuel) cfg cat M1 cur nxt c s
                  (dt_lt_trans _ _ _ Hlt HMM1) Hn)
        as (mb' & s1' & Hr' & _ & _ & ->).
      rewrite Hr in Hr'. injection Hr' as <- <-.
      destruct (next_month_start_spec _ _ Hn) as (Hms & Hv & Hi).
      apply IH; try done.
      apply valid_datetime_range in Hvc as Hrc.
      apply valid_datetime_range in HvM as HrM.
      apply valid_datetime_range in Hv as Hrn.
      apply month_start_le_index; [done | done | lia | lia |].
      apply (month_start_lt_index cur M) in Hlt; [lia | done | done | lia | lia].
    + rewrite carry_loop_done in Hrun by done. injection Hrun as <- <-.
      assert (cur = M) as ->.
      { apply dt_le_antisym; [done | by apply dt_not_lt]. }
      destruct (carry_loop_step (S fuel) cfg cat M1 M M1 c s HMM1 HM1)
        as (mb & s1 & Hr & _ & _ & ->).
      rewrite carry_loop_done by apply dt_lt_irrefl.
      destruct (carry_step_spec cfg cat M M1 c s)
        as (mb' & s1' & Hr' & _ & _ & ->).
      rewrite Hr in Hr'. by injection Hr' as <- <-.
Qed.

(** * The claims *)

(** ** Termination of the walk (C10) *)

(** C10, as stated, fails at one month: the month after December 9999
    does not exist, and [next_month_start] raises [ValueError] there
    instead of returning a later datetime. *)
Lemma next_month_start_december_9999 :
  is_month_start Household.dec_9999
  /\ valid_datetime Household.dec_9999 = true
  /\ next_month_start Household.dec_9999 = Raise ValueError
  /\ ~ exists n, next_month_start Household.dec_9999 = Ok n
                 /\ (Household.dec_9999 < n)%dt.
Proof.
  repeat split. by intros (n & Hn & _).
Qed.

(** C10 (amended): for every datetime [m] other than one of December
    9999, in particular for every such month start, [next_month_start m]
    returns a datetime strictly greater than [m] (December rolls over to
    January of the next year); whenever it returns, the result is
    greater.  The cursor of the [while] loop of [cumulative_carry_until]
    therefore strictly increases, and the loop ends after at most
    [walk_fuel] passes for every target: the call never runs out of
    fuel, more fuel gives the same outcome, and on a database of
    datetimes a call for a month of the calendar returns a value. *)
Theorem next_month_start_increases_walk_terminates m cfg cat T s :
  valid_datetime m = true ->
  ~ (year m = MAXYEAR /\ month m = 12) ->
  (exists n, next_month_start m = Ok n /\ (m < n)%dt
             /\ (month m = 12 -> year n = year m + 1 /\ month n = 1))
  /\ (forall m' n', next_month_start m' = Ok n' -> (m' < n')%dt)
  /\ cumulative_carry_until cfg cat T s <> OutOfFuel
  /\ (forall fuel start,
        activity_start cat s = Some start ->
        (walk_fuel start T <= fuel)%nat ->
        carry_loop fuel cfg cat T start 0%Qc s
        = cumulative_carry_until cfg cat T s)
  /\ (valid_db s -> is_month_start T -> valid_datetime T = true ->
      exists v s', cumulative_carry_until cfg cat T s = Return v s').
Proof.
  intros Hv Hne. split; [|split; [|split; [|split]]].
  - apply valid_datetime_range in Hv.
    destruct (next_month_start_ok m) as [n Hn]; [lia | lia | done |].
    exists n. split; [done|]. split; [by apply next_month_start_gt|].
    intros H12. revert Hn. unfold next_month_start, checked.
    rewrite H12. simpl. destruct (valid_datetime _); [|done].
    by intros [= <-].
  - apply next_month_start_gt.
  - apply cumulative_carry_until_terminates.
  - intros fuel start Hs Hle. unfold cumulative_carry_until.
    rewrite bind_query, Hs.
    apply carry_loop_fuel_le; [done | apply carry_loop_walk_fuel].
  - apply cumulative_carry_until_returns.
Qed.

Lemma next_month_start_increases_walk_terminates_witness :
  (exists n, next_month_start (mk_datetime 2024 12 1 0 0 0 0) = Ok n
             /\ (mk_datetime 2024 12 1 0 0 0 0 < n)%dt
             /\ (12 = 12 -> year n = 2024 + 1 /\ month n = 1))
  /\ cumulative_carry_until Household.cfg Household.groceries Household.apr
       Household.fresh <> OutOfFuel.
Proof.
  destruct (next_month_start_increases_walk_terminates
              (mk_datetime 2024 12 1 0 0 0 0) Household.cfg
              Household.groceries Household.apr Household.fresh)
    as (H1 & _ & H3 & _).
  - reflexivity.
  - unfold MAXYEAR. simpl. lia.
  - split; [exact H1 | exact H3].
Defined.

(** ** Backfill never changes an earlier result (C3) *)

(** C3: if [cumulative_carry_until] for [M+1] returned [v], then after a
    later call for [M+3], which may have backfilled rows for the months
    in between, the call for [M+1] still returns [v] (and now writes
    nothing). *)
Theorem carry_unchanged_by_later_backfill cfg cat s M M1 M2 M3 v s1 v3 s2 :
  next_month_start M = Ok M1 ->
  next_month_start M1 = Ok M2 ->
  next_month_start M2 = Ok M3 ->
  cumulative_carry_until cfg cat M1 s = Return v s1 ->
  cumulative_carry_until cfg cat M3 s1 = Return v3 s2 ->
  cumulative_carry_until cfg cat M1 s2 = Return v s2.
Proof.
  intros _ _ _. apply cumulative_carry_until_after.
Qed.

Lemma carry_unchanged_by_later_backfill_witness :
  cumulative_carry_until Household.cfg Household.groceries Household.feb
    HouseholdRuns.after_apr
  = Return HouseholdRuns.carry_feb HouseholdRuns.after_apr
  /\ HouseholdRuns.carry_feb = Qc_of_Z 50.
Proof.
  split.
  - apply (carry_unchanged_by_later_backfill Household.cfg
             Household.groceries Household.fresh
             Household.jan Household.feb Household.mar Household.apr
             HouseholdRuns.carry_feb HouseholdRuns.after_feb
             HouseholdRuns.carry_apr HouseholdRuns.after_apr);
      vm_compute; reflexivity.
  - apply Qc_is_canon. vm_compute. reflexivity.
Defined.

(** ** One more month, one more term (C2) *)

(** C2, as stated, fails for a category whose first budget row is of a
    month before its first purchase: the walk starts at the month of the
    purchase, so with a row of January and a first purchase in March the
    calls for February and for March both return 0, although February
    is after the first activity and resolves to base 100 with nothing
    spent. *)
Lemma carry_decomposition_fails_before_first_purchase :
  let s := Household.budget_first in
  let run_feb := cumulative_carry_until Household.cfg Household.groceries
                   Household.feb s in
  let run_mar := cumulative_carry_until Household.cfg Household.groceries
                   Household.mar s in
  let base_feb :=
    match resolve_budget Household.cfg Household.groceries Household.feb
            (state_after s run_feb) with
    | Return mb _ => MonthlyBudget.base_budget mb
    | _ => 0%Qc
    end in
  spec_activity_start Household.groceries s = Some Household.jan
  /\ (Household.jan <= Household.feb)%dt
  /\ next_month_start Household.feb = Ok Household.mar
  /\ value_of 0%Qc run_feb = 0%Qc
  /\ value_of 0%Qc run_mar = 0%Qc
  /\ base_feb = Qc_of_Z 100
  /\ month_spend_for_category 1 Household.feb Household.mar s = 0%Qc
  /\ value_of 0%Qc run_mar
     <> (value_of 0%Qc run_feb
         + (base_feb
            - month_spend_for_category 1 Household.feb Household.mar s))%Qc.
Proof.
  repeat split; try (vm_compute; reflexivity); try (vm_compute; discriminate);
    by apply Qc_is_canon.
Qed.

(** C2 (amended): for a category whose walk starts at or before the
    month start [M] (the walk starts at the month of the first purchase,
    or of the first budget row when there is no purchase), the call for
    [M+1] returns the value of the call for [M] plus
    [base(M) - spend(M)], where [base(M)] is the base of the row that
    the walk resolves (and materializes) for [M] and [spend(M)] the
    ledger sum over [[M, M+1)].  This holds whichever call does the
    backfill: from the database as it was, after the call for [M], and
    after the call for [M+1], when both calls only read the rows now
    stored. *)
Theorem carry_next_month_adds_one_term cfg cat s start M M1 :
  valid_db s ->
  activity_start cat s = Some start ->
  (start <= M)%dt ->
  is_month_start M -> valid_datetime M = true ->
  next_month_start M = Ok M1 ->
  exists v s' mb s'',
    cumulative_carry_until cfg cat M s = Return v s'
    /\ resolve_budget cfg cat M s' = Return mb s''
    /\ let v1 := (v + (MonthlyBudget.base_budget mb
                       - month_spend_for_category (Category.id cat) M M1 s))%Qc
       in
       cumulative_carry_until cfg cat M1 s = Return v1 s''
       /\ cumulative_carry_until cfg cat M1 s' = Return v1 s''
       /\ cumulative_carry_until cfg cat M s'' = Return v s''
       /\ resolve_budget cfg cat M s'' = Return mb s''
       /\ cumulative_carry_until cfg cat M1 s'' = Return v1 s''.
Proof.
  intros Hdb Hs Hle HM HvM HM1.
  destruct (activity_start_valid _ _ _ Hdb Hs) as [Hst Hvst].
  destruct (cumulative_carry_until_returns cfg cat M s Hdb HM HvM)
    as (v & s' & Hrun).
  destruct (resolve_budget_spec cfg cat M s') as (mb & s'' & Hr & Hf & He).
  exists v, s', mb, s''. split; [done|]. split; [done|]. simpl.
  pose proof (cumulative_carry_until_spec _ _ _ _ _ _ Hrun) as Hspec.
  rewrite Hs in Hspec. destruct Hspec as (Hread & He0 & Hs').
  assert (activity_start cat s'' = Some start) as Hs''.
  { eapply activity_start_extends; [done|]. by eapply extends_weaken. }
  assert (forall t, extends (Category.id cat) start s t ->
            activity_start cat t = Some start ->
            carry_loop (walk_fuel start M) cfg cat M start 0%Qc t
              = Return v s' ->
            cumulative_carry_until cfg cat M1 t
            = Return (v + (MonthlyBudget.base_budget mb
                 - month_spend_for_category (Category.id cat) M M1 s))%Qc s'')
    as Hnext.
  { intros t Het Hst' Hloop.
    rewrite (cumulative_carry_until_fuel (S (walk_fuel start M))
               cfg cat M1 t start Hst').
    - rewrite (carry_loop_split _ _ _ _ _ _ _ _ _ _ HM HvM HM1 Hst Hvst
                 Hle Hloop).
      destruct (carry_step_spec cfg cat M M1 v s')
        as (mb' & t' & Hr' & _ & _ & ->).
      rewrite Hr in Hr'. injection Hr' as <- <-.
      by rewrite (month_spend_extends _ _ _ _ _ _ _ He0).
    - rewrite (carry_loop_split _ _ _ _ _ _ _ _ _ _ HM HvM HM1 Hst Hvst
                 Hle Hloop).
      by destruct (carry_step_spec cfg cat M M1 v s')
        as (mb' & t' & _ & _ & _ & ->). }
  assert (cumulative_carry_until cfg cat M1 s = Return
            (v + (MonthlyBudget.base_budget mb
                 - month_spend_for_category (Category.id cat) M M1 s))%Qc s'')
    as Hrun1.
  { apply Hnext; [apply extends_refl | done |].
    revert Hrun. unfold cumulative_carry_until. by rewrite bind_query, Hs. }
  split; [done|]. split.
  { apply Hnext; [done | done |]. by apply read_loop_carry_loop. }
  split.
  { eapply cumulative_carry_until_read; [done|]. by eapply read_loop_extends. }
  split; [by apply resolve_budget_found|].
  by eapply cumulative_carry_until_idempotent.
Qed.

Lemma carry_next_month_adds_one_term_witness :
  exists v s' mb s'',
    cumulative_carry_until Household.cfg Household.groceries Household.feb
      Household.fresh = Return v s'
    /\ resolve_budget Household.cfg Household.groceries Household.feb s'
       = Return mb s''
    /\ let v1 := (v + (MonthlyBudget.base_budget mb
                       - month_spend_for_category
                           (Category.id Household.groceries)
                           Household.feb Household.mar Household.fresh))%Qc
       in
       cumulative_carry_until Household.cfg Household.groceries Household.mar
         Household.fresh = Return v1 s''
       /\ cumulative_carry_until Household.cfg Household.groceries
            Household.mar s' = Return v1 s''
       /\ cumulative_carry_until Household.cfg Household.groceries
            Household.feb s'' = Return v s''
       /\ resolve_budget Household.cfg Household.groceries Household.feb s''
          = Return mb s''
       /\ cumulative_carry_until Household.cfg Household.groceries
            Household.mar s'' = Return v1 s''.
Proof.
  apply (carry_next_month_adds_one_term Household.cfg Household.groceries
           Household.fresh Household.jan Household.feb Household.mar).
  - split; repeat constructor.
  - vm_compute. reflexivity.
  - vm_compute. discriminate.
  - reflexivity.
  - reflexivity.
  - reflexivity.
Defined.

(** ** The monthly summary *)

Lemma latest_spec l p :
  latest l = Some p ->
  exists l1 l2,
    l = l1 ++ p :: l2
    /\ Forall (fun x => (MonthlyBudget.month_start x
                         < MonthlyBudget.month_start p)%dt) l1
    /\ Forall (fun x => (MonthlyBudget.month_start x
                         <= MonthlyBudget.month_start p)%dt) l2.
Proof.
  revert p. induction l as [|r l IH]; intros p; simpl; [done|].
  destruct (latest l) as [r'|] eqn:Hl.
  - destruct (IH r' eq_refl) as (l1 & l2 & -> & H1 & H2).
    destruct (decide (_ < _)%dt) as [Hlt|Hge]; intros [= <-].
    + exists (r :: l1), l2. split; [done|]. split; [|done].
      by constructor.
    + exists [], (l1 ++ r' :: l2). split; [done|]. split; [done|].
      apply dt_not_lt in Hge. apply Forall_app. split; [|constructor].
      * eapply Forall_impl; [done|]. simpl. intros x Hx.
        eapply dt_le_trans; [by apply dt_lt_le | done].
      * done.
      * eapply Forall_impl; [done|]. simpl. intros x Hx.
        by eapply dt_le_trans.
  - intros [= <-]. exists [], l. split; [done|]. split; [done|].
    destruct l as [|r' l']; [done|]. simpl in Hl.
    by destruct (latest l'); [destruct (decide _)|].
Qed.

Lemma find_budget_prev cat_id cur s :
  find_budget cat_id cur s =
  head (filter (fun mb => MonthlyBudget.month_start mb = cur)
          (filter (fun mb => MonthlyBudget.category_id mb = cat_id
                             /\ (MonthlyBudget.month_start mb <= cur)%dt)
                  (monthly_budgets s))).
Proof.
  unfold find_budget. rewrite list_filter_filter. f_equal.
  apply list_filter_iff. intros mb. split.
  - intros [Hc ->]. repeat split; try done. apply dt_le_refl.
  - by intros (-> & Hc & _).
Qed.

(** The latest row at or before [cur], when it is of [cur], is the row
    that a lookup of [cur] finds. *)
Lemma prev_budget_current cat_id cur s p :
  prev_budget cat_id cur s = Some p ->
  MonthlyBudget.month_start p = cur ->
  find_budget cat_id cur s = Some p.
Proof.
  unfold prev_budget. intros (l1 & l2 & Hl & H1 & _)%latest_spec Hp.
  rewrite find_budget_prev, Hl, filter_app.
  assert (filter (fun mb => MonthlyBudget.month_start mb = cur) l1 = [])
    as ->.
  { clear Hl. induction H1 as [|x l1 Hx _ IH]; [done|].
    rewrite filter_cons_False; [done|].
    intros Heq. rewrite Hp, Heq in Hx. by apply dt_lt_irrefl in Hx. }
  simpl. by rewrite filter_cons_True.
Qed.

Lemma base_this_month_found cfg cat cur s r :
  find_budget (Category.id cat) cur s = Some r ->
  base_this_month cfg cat cur s = Return (MonthlyBudget.base_budget r) s.
Proof.
  intros Hf. unfold base_this_month. rewrite bind_query.
  destruct (prev_budget _ _ _) as [p|] eqn:Hp.
  - destruct (decide _) as [Heq|Hne].
    + pose proof (prev_budget_current _ _ _ _ Hp Heq) as Hf'.
      rewrite Hf in Hf'. by injection Hf' as ->.
    + unfold bind. by rewrite (get_or_create_found _ _ _ _ _ Hf).
  - unfold bind. by rewrite (get_or_create_found _ _ _ _ _ Hf).
Qed.

(** The base of the current month is the base that the walk would
    resolve for that month: whether or not the comparison
    [prev_mb.month_start == cur_start] succeeds, the row of the month is
    the one that is read. *)
Lemma base_this_month_resolve cfg cat cur s :
  base_this_month cfg cat cur s =
  (mb <- resolve_budget cfg cat cur ;; ret (MonthlyBudget.base_budget mb)) s.
Proof.
  unfold base_this_month, resolve_budget. rewrite !bind_query.
  unfold bind at 3. rewrite bind_query.
  destruct (prev_budget _ _ _) as [p|] eqn:Hp; [|done].
  destruct (decide _) as [Heq|Hne]; [|done].
  pose proof (prev_budget_current _ _ _ _ Hp Heq) as Hf.
  unfold bind. by rewrite (get_or_create_found _ _ _ _ _ Hf).
Qed.

Lemma base_this_month_spec cfg cat cur s :
  exists mb s',
    base_this_month cfg cat cur s
    = Return (MonthlyBudget.base_budget mb) s'
    /\ find_budget (Category.id cat) cur s' = Some mb
    /\ extends (Category.id cat) cur s s'.
Proof.
  rewrite base_this_month_resolve.
  destruct (resolve_budget_spec cfg cat cur s) as (mb & s' & Hr & Hf & He).
  exists mb, s'. unfold bind. by rewrite Hr.
Qed.

Lemma py_max_nonneg x : (0 <= py_max 0 x)%Qc.
Proof.
  unfold py_max. destruct (decide (0 < x)%Qc); [by apply Qclt_le_weak|done].
Qed.

Lemma py_max_cases x :
  ((x <= 0)%Qc /\ py_max 0 x = 0%Qc) \/ ((0 < x)%Qc /\ py_max 0 x = x).
Proof.
  unfold py_max. destruct (decide (0 < x)%Qc) as [H|H]; [by right|left].
  split; [|done]. by apply Qcnot_lt_le.
Qed.

(** The division is reached only with a positive divisor. *)
Lemma pct_guarded spent effective_budget s :
  (if decide (effective_budget <= 0)%Qc then ret 0%Qc
   else q <- lift (py_div spent effective_budget) ;; ret (q * hundred)%Qc) s
  = Return (if decide (effective_budget <= 0)%Qc then 0%Qc
            else (spent / effective_budget * hundred)%Qc) s.
Proof.
  destruct (decide (effective_budget <= 0)%Qc) as [Hle|Hgt]; [done|].
  unfold py_div. destruct (decide (effective_budget = 0%Qc)) as [->|Hne].
  - by destruct Hgt.
  - done.
Qed.

Lemma current_month_summary_unfold cfg cat now_utc s nxt b s_a :
  next_month_start (month_start now_utc) = Ok nxt ->
  base_this_month cfg cat (month_start now_utc) s = Return b s_a ->
  current_month_summary cfg cat now_utc s =
  match cumulative_carry_until cfg cat (month_start now_utc) s_a with
  | Return v s1 =>
      Return (summary_of b v
                (month_spend_for_category (Category.id cat)
                   (month_start now_utc) nxt s1)) s1
  | Throw e s1 => Throw e s1
  | OutOfFuel => OutOfFuel
  end.
Proof.
  intros Hn Hb. unfold current_month_summary. rewrite Hn.
  unfold bind at 1. simpl. unfold bind at 1. rewrite Hb.
  unfold bind at 1.
  destruct (cumulative_carry_until cfg cat (month_start now_utc) s_a)
    as [v s1|e s1|] eqn:Hrun; [|done..].
  rewrite bind_query. unfold bind at 1. by rewrite pct_guarded.
Qed.

Lemma current_month_summary_cases cfg cat now_utc s :
  match next_month_start (month_start now_utc) with
  | Raise e => current_month_summary cfg cat now_utc s = Throw e s
  | Ok nxt =>
      exists mb s_a,
        base_this_month cfg cat (month_start now_utc) s
        = Return (MonthlyBudget.base_budget mb) s_a
        /\ find_budget (Category.id cat) (month_start now_utc) s_a = Some mb
        /\ extends (Category.id cat) (month_start now_utc) s s_a
        /\ match cumulative_carry_until cfg cat (month_start now_utc) s_a with
           | Return v s1 =>
               current_month_summary cfg cat now_utc s
               = Return (summary_of (MonthlyBudget.base_budget mb) v
                           (month_spend_for_category (Category.id cat)
                              (month_start now_utc) nxt s)) s1
           | Throw e s1 => current_month_summary cfg cat now_utc s = Throw e s1
           | OutOfFuel => False
           end
  end.
Proof.
  destruct (next_month_start (month_start now_utc)) as [nxt|e] eqn:Hn.
  2:{ unfold current_month_summary. by rewrite Hn. }
  destruct (base_this_month_spec cfg cat (month_start now_utc) s)
    as (mb & s_a & Hb & Hf & He).
  exists mb, s_a. repeat (split; [done|]).
  rewrite (current_month_summary_unfold _ _ _ _ _ _ _ Hn Hb).
  destruct (cumulative_carry_until cfg cat (month_start now_utc) s_a)
    as [v s1|e s1|] eqn:Hrun; [|done|].
  - destruct (cumulative_carry_until_extends _ _ _ _ _ _ Hrun)
      as (_ & lo & He1).
    rewrite (month_spend_extends _ _ _ _ _ _ _ He1).
    by rewrite (month_spend_extends _ _ _ _ _ _ _ He).
  - by apply cumulative_carry_until_terminates in Hrun.
Qed.

Lemma next_month_start_raise m e : next_month_start m = Raise e -> e = ValueError.
Proof.
  unfold next_month_start, checked.
  destruct (month m =? 12); destruct (valid_datetime _); congruence.
Qed.

Lemma carry_loop_throw fuel cfg cat T cur c s e s' :
  carry_loop fuel cfg cat T cur c s = Throw e s' -> e = ValueError.
Proof.
  revert cur c s. induction fuel as [|fuel IH]; intros cur c s;
    (destruct (decide (cur < T)%dt) as [Hlt|Hlt];
      [|by rewrite carry_loop_done]).
  - by rewrite carry_loop_O.
  - destruct (next_month_start cur) as [nxt|e'] eqn:Hn.
    + destruct (carry_loop_step fuel cfg cat T cur nxt c s Hlt Hn)
        as (mb & s1 & _ & _ & _ & ->). apply IH.
    + rewrite (carry_loop_raise _ _ _ _ _ _ _ e') by done.
      intros [= <- _]. by eapply next_month_start_raise.
Qed.

Lemma cumulative_carry_until_throw cfg cat T s e s' :
  cumulative_carry_until cfg cat T s = Throw e s' -> e = ValueError.
Proof.
  unfold cumulative_carry_until. rewrite bind_query.
  destruct (activity_start cat s); [apply carry_loop_throw | done].
Qed.

(** ** The uniqueness constraint *)

Lemma find_budget_None_key cat_id m s :
  find_budget cat_id m s = None -> (cat_id, m) ∉ mb_key <$> monthly_budgets s.
Proof.
  unfold find_budget. intros Hf (mb & Hk & Hin)%list_elem_of_fmap.
  assert (mb ∈ filter (fun mb => MonthlyBudget.category_id mb = cat_id
                         /\ MonthlyBudget.month_start mb = m)
                 (monthly_budgets s)) as Hmb.
  { apply list_elem_of_filter. split; [|done]. by injection Hk as -> ->. }
  destruct (filter _ _); [by apply elem_of_nil in Hmb | done].
Qed.

Lemma get_or_create_uniq cat m d s mb s' :
  get_or_create_monthly_budget cat m d s = Return mb s' ->
  uniq_cat_month s -> uniq_cat_month s'.
Proof.
  unfold get_or_create_monthly_budget, uniq_cat_month.
  destruct (find_budget _ _ _) eqn:Hf; intros [= <- <-]; [done|].
  intros Hnd. simpl. rewrite fmap_app. apply NoDup_app.
  split; [done|]. split; [|apply NoDup_singleton].
  intros k Hk ->%list_elem_of_singleton.
  by apply find_budget_None_key in Hf.
Qed.

Lemma resolve_budget_uniq cfg cat cur s mb s' :
  resolve_budget cfg cat cur s = Return mb s' ->
  uniq_cat_month s -> uniq_cat_month s'.
Proof.
  unfold resolve_budget. rewrite bind_query.
  destruct (prev_budget _ _ _); apply get_or_create_uniq.
Qed.

Lemma carry_loop_uniq fuel cfg cat T cur c s v s' :
  carry_loop fuel cfg cat T cur c s = Return v s' ->
  uniq_cat_month s -> uniq_cat_month s'.
Proof.
  revert cur c s. induction fuel as [|fuel IH]; intros cur c s;
    (destruct (decide (cur < T)%dt) as [Hlt|Hlt];
      [|rewrite carry_loop_done by done; by intros [= _ <-]]).
  - by rewrite carry_loop_O.
  - destruct (next_month_start cur) as [nxt|e] eqn:Hn;
      [|by rewrite (carry_loop_raise _ _ _ _ _ _ _ e)].
    destruct (carry_loop_step fuel cfg cat T cur nxt c s Hlt Hn)
      as (mb & s1 & Hr & _ & _ & ->).
    intros Hrun Hu. eapply IH; [done|]. by eapply resolve_budget_uniq.
Qed.

Lemma cumulative_carry_until_uniq cfg cat T s v s' :
  cumulative_carry_until cfg cat T s = Return v s' ->
  uniq_cat_month s -> uniq_cat_month s'.
Proof.
  unfold cumulative_carry_until. rewrite bind_query.
  destruct (activity_start cat s); [apply carry_loop_uniq|].
  by intros [= _ <-].
Qed.

Lemma base_this_month_uniq cfg cat cur s b s' :
  base_this_month cfg cat cur s = Return b s' ->
  uniq_cat_month s -> uniq_cat_month s'.
Proof.
  rewrite base_this_month_resolve.
  intros (mb & s1 & Hr & [= _ <-])%bind_Return. by eapply resolve_budget_uniq.
Qed.

(** Under the constraint the row that a lookup finds is the only row of
    its category and month. *)
Lemma uniq_one_row cat_id m s r :
  uniq_cat_month s ->
  find_budget cat_id m s = Some r ->
  filter (fun mb => MonthlyBudget.category_id mb = cat_id
                    /\ MonthlyBudget.month_start mb = m)
         (monthly_budgets s) = [r].
Proof.
  unfold uniq_cat_month, find_budget.
  induction (monthly_budgets s) as [|a l IH]; [done|].
  rewrite fmap_cons. intros [Hnotin Hnd]%NoDup_cons.
  rewrite filter_cons. destruct (decide _) as [[Hc Hm]|Hne]; [|by apply IH].
  simpl. intros [= ->]. f_equal.
  destruct (filter _ l) as [|b l'] eqn:Hfl; [done|].
  exfalso. apply Hnotin. apply list_elem_of_fmap. exists b.
  assert (b ∈ filter (fun mb => MonthlyBudget.category_id mb = cat_id
                        /\ MonthlyBudget.month_start mb = m) l) as Hb.
  { rewrite Hfl. by left. }
  apply list_elem_of_filter in Hb as [[Hcb Hmb] Hin].
  split; [|done]. unfold mb_key. by rewrite Hc, Hm, Hcb, Hmb.
Qed.

(** ** The effective budget is floored at zero (C5) *)

(** C5: whatever the category, the instant and the carry, the effective
    budget of the summary is [max(0, base + carry_in)]: it is zero when
    [base + carry_in] is not positive and [base + carry_in] otherwise,
    hence never negative. *)
Theorem effective_budget_floored cfg cat now_utc s sm s1 :
  current_month_summary cfg cat now_utc s = Return sm s1 ->
  effective sm = py_max 0%Qc (base sm + carry_in sm)%Qc
  /\ (0 <= effective sm)%Qc
  /\ (((base sm + carry_in sm <= 0)%Qc /\ effective sm = 0%Qc)
      \/ ((0 < base sm + carry_in sm)%Qc
          /\ effective sm = (base sm + carry_in sm)%Qc))
  /\ cumulative_carry_until cfg cat (month_start now_utc) s1
     = Return (carry_in sm) s1.
Proof.
  intros Hsum.
  pose proof (current_month_summary_cases cfg cat now_utc s) as Hc.
  destruct (next_month_start (month_start now_utc)) as [nxt|e];
    [|by rewrite Hc in Hsum].
  destruct Hc as (mb & s_a & _ & _ & _ & Hc).
  destruct (cumulative_carry_until cfg cat (month_start now_utc) s_a)
    as [v s1'|e s1'|] eqn:Hrun; [|by rewrite Hc in Hsum|done].
  rewrite Hc in Hsum. injection Hsum as <- <-. simpl.
  split; [done|]. split; [apply py_max_nonneg|].
  split; [apply py_max_cases|].
  by eapply cumulative_carry_until_idempotent.
Qed.

Lemma effective_budget_floored_witness :
  effective Overspent.feb_summary
  = py_max 0%Qc (base Overspent.feb_summary
                 + carry_in Overspent.feb_summary)%Qc
  /\ (0 <= effective Overspent.feb_summary)%Qc
  /\ (((base Overspent.feb_summary + carry_in Overspent.feb_summary <= 0)%Qc
       /\ effective Overspent.feb_summary = 0%Qc)
      \/ ((0 < base Overspent.feb_summary
               + carry_in Overspent.feb_summary)%Qc
          /\ effective Overspent.feb_summary
             = (base Overspent.feb_summary
                + carry_in Overspent.feb_summary)%Qc))
  /\ cumulative_carry_until Household.cfg Household.groceries
       (month_start Overspent.now_feb) Overspent.after
     = Return (carry_in Overspent.feb_summary) Overspent.after.
Proof.
  apply (effective_budget_floored Household.cfg Household.groceries
           Overspent.now_feb Overspent.overspent).
  vm_compute. reflexivity.
Defined.

Lemma overspent_carry_in :
  carry_in Overspent.feb_summary = Qc_of_Z (-600)
  /\ effective Overspent.feb_summary = 0%Qc
  /\ pct Overspent.feb_summary = 0%Qc.
Proof.
  repeat split; apply Qc_is_canon; vm_compute; reflexivity.
Qed.

(** ** The percentage never divides by zero (C8) *)

Lemma py_div_zero x : py_div x 0%Qc = Raise ZeroDivisionError.
Proof. unfold py_div. by rewrite decide_True. Qed.

(** C8: on every input [current_month_summary] either returns a summary
    whose [pct] is 0 when the effective budget is at most 0 and
    [spent / effective * 100] when it is positive, or raises an
    exception that is not [ZeroDivisionError]: the division, which
    raises on a zero divisor, is reached only with a positive one. *)
Theorem pct_never_divides_by_zero cfg cat now_utc s :
  match current_month_summary cfg cat now_utc s with
  | Return sm _ =>
      ((effective sm <= 0)%Qc -> pct sm = 0%Qc)
      /\ ((0 < effective sm)%Qc ->
          py_div (spent sm) (effective sm)
          = Ok (spent sm / effective sm)%Qc
          /\ pct sm = (spent sm / effective sm * hundred)%Qc)
  | Throw e _ => e <> ZeroDivisionError
  | OutOfFuel => False
  end.
Proof.
  pose proof (current_month_summary_cases cfg cat now_utc s) as Hc.
  destruct (next_month_start (month_start now_utc)) as [nxt|e] eqn:Hn.
  - destruct Hc as (mb & s_a & _ & _ & _ & Hc).
    destruct (cumulative_carry_until cfg cat (month_start now_utc) s_a)
      as [v s1|e s1|] eqn:Hrun; [| |done]; rewrite Hc.
    + simpl. split.
      * intros Hle. by rewrite decide_True.
      * intros Hlt. split.
        -- unfold py_div. rewrite decide_False; [done|].
           intros Heq. rewrite Heq in Hlt. by apply Qclt_not_eq in Hlt.
        -- rewrite decide_False; [done|]. by apply Qclt_not_le.
    + by apply cumulative_carry_until_throw in Hrun as ->.
  - rewrite Hc. by apply next_month_start_raise in Hn as ->.
Qed.

Lemma pct_never_divides_by_zero_witness :
  (effective Overspent.feb_summary <= 0)%Qc
  /\ pct Overspent.feb_summary = 0%Qc.
Proof.
  assert (effective Overspent.feb_summary <= 0)%Qc as Hle.
  { vm_compute. discriminate. }
  split; [exact Hle|].
  pose proof (pct_never_divides_by_zero Household.cfg Household.groceries
                Overspent.now_feb Overspent.overspent) as H.
  assert (current_month_summary Household.cfg Household.groceries
            Overspent.now_feb Overspent.overspent
          = Return Overspent.feb_summary Overspent.after) as Hrun.
  { vm_compute. reflexivity. }
  rewrite Hrun in H. destruct H as [H0 _]. exact (H0 Hle).
Defined.

(** ** Asking twice (C6) *)

Lemma get_or_create_again cat m d d' s mb s' :
  get_or_create_monthly_budget cat m d s = Return mb s' ->
  get_or_create_monthly_budget cat m d' s' = Return mb s'.
Proof.
  intros Hrun. destruct (get_or_create_spec cat m d s)
    as (mb' & s'' & Hrun' & Hf & _).
  rewrite Hrun in Hrun'. injection Hrun' as <- <-.
  by apply get_or_create_found.
Qed.

(** C6: a second [current_month_summary] for the same category in the
    same month, with nothing changed in between, returns the same
    summary and leaves the database as the first call left it, so no
    second budget row of that category and month is created: the month
    has its row, and under the uniqueness constraint exactly that one.
    Underneath, [get_or_create_monthly_budget] called again with the
    same category and month returns the row of the first call, whatever
    default it is given. *)
Theorem summary_twice_same cfg cat now_utc now_utc' s sm s1 :
  current_month_summary cfg cat now_utc s = Return sm s1 ->
  month_start now_utc' = month_start now_utc ->
  current_month_summary cfg cat now_utc' s1 = Return sm s1
  /\ (exists r,
        find_budget (Category.id cat) (month_start now_utc) s1 = Some r
        /\ MonthlyBudget.base_budget r = base sm
        /\ (uniq_cat_month s ->
            uniq_cat_month s1
            /\ filter (fun mb => MonthlyBudget.category_id mb = Category.id cat
                         /\ MonthlyBudget.month_start mb
                            = month_start now_utc)
                 (monthly_budgets s1) = [r]))
  /\ (forall m d d' t mb t',
        get_or_create_monthly_budget cat m d t = Return mb t' ->
        get_or_create_monthly_budget cat m d' t' = Return mb t'
        /\ (find_budget (Category.id cat) m t = None ->
            MonthlyBudget.base_budget mb = d)).
Proof.
  intros Hsum Hms.
  pose proof (current_month_summary_cases cfg cat now_utc s) as Hc.
  destruct (next_month_start (month_start now_utc)) as [nxt|e] eqn:Hn;
    [|by rewrite Hc in Hsum].
  destruct Hc as (mb & s_a & Hb & Hf & He & Hc).
  destruct (cumulative_carry_until cfg cat (month_start now_utc) s_a)
    as [v s1'|e s1'|] eqn:Hrun; [|by rewrite Hc in Hsum|done].
  rewrite Hc in Hsum. injection Hsum as <- <-.
  destruct (cumulative_carry_until_extends _ _ _ _ _ _ Hrun)
    as (_ & lo & He1).
  pose proof (find_budget_extends _ _ _ _ _ _ _ He1 Hf) as Hf1.
  split; [|split].
  - rewrite <- Hms in Hn.
    rewrite (current_month_summary_unfold cfg cat now_utc' s1' nxt
               (MonthlyBudget.base_budget mb) s1' Hn).
    2:{ rewrite Hms. by apply base_this_month_found. }
    rewrite Hms.
    rewrite (cumulative_carry_until_idempotent _ _ _ _ _ _ Hrun).
    rewrite (month_spend_extends _ _ _ _ _ _ _ He1).
    by rewrite (month_spend_extends _ _ _ _ _ _ _ He).
  - exists mb. split; [done|]. split; [done|]. intros Hu.
    assert (uniq_cat_month s1') as Hu1.
    { eapply cumulative_carry_until_uniq; [done|].
      by eapply base_this_month_uniq. }
    split; [done|]. by apply uniq_one_row.
  - intros m d d' t mb' t' Hg. split; [by eapply get_or_create_again|].
    intros Hnone. destruct (get_or_create_spec cat m d t)
      as (mb'' & t'' & Hg' & _ & _ & Hd & _).
    rewrite Hg in Hg'. injection Hg' as <- <-. by apply Hd.
Qed.

Lemma summary_twice_same_witness :
  current_month_summary Household.cfg Household.groceries
    (mk_datetime 2024 2 27 7 0 0 0) Overspent.after
  = Return Overspent.feb_summary Overspent.after
  /\ length (monthly_budgets Overspent.after) = 2%nat.
Proof.
  split; [|reflexivity].
  apply (summary_twice_same Household.cfg Household.groceries
           Overspent.now_feb (mk_datetime 2024 2 27 7 0 0 0)
           Overspent.overspent Overspent.feb_summary Overspent.after).
  - vm_compute. reflexivity.
  - reflexivity.
Defined.

(** ** Where the walk starts (C1) *)

(** C1, as stated, fails: with a budget row of January and a first
    purchase in March the earlier month is January, but the walk starts
    in March; February never gets a row and the carry into April is the
    70 of March alone. *)
Lemma activity_start_not_the_earlier :
  first_budget_ts 1 Household.budget_first = Some Household.jan
  /\ month_start <$> first_purchase_ts 1 Household.budget_first
     = Some Household.mar
  /\ spec_activity_start Household.groceries Household.budget_first
     = Some Household.jan
  /\ activity_start Household.groceries Household.budget_first
     = Some Household.mar
  /\ activity_start Household.groceries Household.budget_first
     <> spec_activity_start Household.groceries Household.budget_first
  /\ value_of 0%Qc (cumulative_carry_until Household.cfg Household.groceries
                      Household.apr Household.budget_first) = Qc_of_Z 70
  /\ find_budget 1 Household.feb
       (state_after Household.budget_first
          (cumulative_carry_until Household.cfg Household.groceries
             Household.apr Household.budget_first)) = None.
Proof.
  repeat split; try (vm_compute; reflexivity); try (vm_compute; discriminate).
  apply Qc_is_canon. vm_compute. reflexivity.
Qed.

(** C1 (amended): the walk of [cumulative_carry_until] starts at the
    month of the category's first purchase when it has a purchase, and
    at the month of its first budget row only when it has none, in both
    cases normalized to the start of the month.  This is the earlier of
    the two months whenever one of them is missing or the first budget
    row is not before the month of the first purchase.  The rows that
    the call adds are of months from that start on; the start gets its
    row when it is before the target, and otherwise the call returns 0
    and writes nothing. *)
Theorem activity_start_prefers_first_purchase cat s :
  activity_start cat s
  = match first_purchase_ts (Category.id cat) s with
    | Some t => Some (month_start t)
    | None => month_start <$> first_budget_ts (Category.id cat) s
    end
  /\ (first_purchase_ts (Category.id cat) s = None
      \/ first_budget_ts (Category.id cat) s = None
      \/ (exists t b,
            first_purchase_ts (Category.id cat) s = Some t
            /\ first_budget_ts (Category.id cat) s = Some b
            /\ ~ (b < month_start t)%dt) ->
      activity_start cat s = spec_activity_start cat s)
  /\ (forall cfg T v s' start,
        activity_start cat s = Some start ->
        cumulative_carry_until cfg cat T s = Return v s' ->
        extends (Category.id cat) start s s'
        /\ ((start < T)%dt ->
            is_Some (find_budget (Category.id cat) start s'))
        /\ (~ (start < T)%dt -> v = 0%Qc /\ s' = s)).
Proof.
  split; [|split].
  - unfold activity_start, py_or.
    by destruct (first_purchase_ts _ _).
  - unfold activity_start, spec_activity_start, py_or, earlier.
    intros [Hp | [Hb | (t & b & Hp & Hb & Hnlt)]].
    + rewrite Hp. simpl. by destruct (first_budget_ts _ _).
    + rewrite Hb. by destruct (first_purchase_ts _ _).
    + rewrite Hp, Hb. simpl. by rewrite decide_False.
  - intros cfg T v s' start Hs Hrun.
    pose proof (cumulative_carry_until_spec _ _ _ _ _ _ Hrun) as Hspec.
    rewrite Hs in Hspec. destruct Hspec as (Hread & He & _).
    split; [done|]. split.
    + intros Hlt. revert Hread. unfold walk_fuel. simpl.
      rewrite decide_True by done.
      destruct (next_month_start start); [|done].
      by destruct (find_budget _ _ _).
    + intros Hnlt. revert Hrun. unfold cumulative_carry_until.
      rewrite bind_query, Hs, carry_loop_done by done.
      by intros [= <- <-].
Qed.

Lemma activity_start_prefers_first_purchase_witness :
  activity_start Household.groceries Household.budget_first
  = Some Household.mar
  /\ is_Some (find_budget 1 Household.mar
                (state_after Household.budget_first
                   (cumulative_carry_until Household.cfg Household.groceries
                      Household.apr Household.budget_first))).
Proof.
  destruct (activity_start_prefers_first_purchase Household.groceries
              Household.budget_first) as (H1 & _ & H3).
  split.
  - rewrite H1. reflexivity.
  - apply (H3 Household.cfg Household.apr
             (value_of 0%Qc
                (cumulative_carry_until Household.cfg Household.groceries
                   Household.apr Household.budget_first))
             (state_after Household.budget_first
                (cumulative_carry_until Household.cfg Household.groceries
                   Household.apr Household.budget_first))
             Household.mar).
    + vm_compute. reflexivity.
    + vm_compute. reflexivity.
    + vm_compute. reflexivity.
Defined.

(** ** Running the walk by hand *)

Lemma find_budget_budgets_of cat_id m s :
  find_budget cat_id m s
  = head (filter (fun mb => MonthlyBudget.month_start mb = m)
            (budgets_of cat_id s)).
Proof.
  unfold find_budget, budgets_of. rewrite list_filter_filter. f_equal.
  apply list_filter_iff. intros mb. tauto.
Qed.

Lemma prev_budget_budgets_of cat_id m s :
  prev_budget cat_id m s
  = latest (filter (fun mb => (MonthlyBudget.month_start mb <= m)%dt)
              (budgets_of cat_id s)).
Proof.
  unfold prev_budget, budgets_of. rewrite list_filter_filter. f_equal.
  apply list_filter_iff. intros mb. tauto.
Qed.

Lemma month_spend_purchases_of cat_id a b s :
  month_spend_for_category cat_id a b s
  = sum_amounts (filter (fun p => (a <= Purchase.ts p)%dt
                                  /\ (Purchase.ts p < b)%dt)
                   (purchases_of cat_id s)).
Proof.
  unfold month_spend_for_category, purchases_of.
  rewrite list_filter_filter. f_equal.
  apply list_filter_iff. intros p. tauto.
Qed.

Lemma budgets_of_add mb s :
  budgets_of (MonthlyBudget.category_id mb) (add_budget mb s)
  = budgets_of (MonthlyBudget.category_id mb) s ++ [mb].
Proof.
  unfold budgets_of, add_budget. simpl.
  by rewrite filter_app, filter_cons_True.
Qed.

Lemma resolve_budget_new cfg cat cur s :
  find_budget (Category.id cat) cur s = None ->
  resolve_budget cfg cat cur s
  = Return (seeded_row cfg cat cur s)
           (add_budget (seeded_row cfg cat cur s) s).
Proof.
  intros Hf. unfold resolve_budget, seeded_row, seed_base.
  rewrite bind_query. unfold get_or_create_monthly_budget.
  destruct (prev_budget _ _ _); by rewrite Hf.
Qed.

Lemma carry_loop_found fuel cfg cat T cur nxt c s r :
  (cur < T)%dt -> next_month_start cur = Ok nxt ->
  find_budget (Category.id cat) cur s = Some r ->
  carry_loop (S fuel) cfg cat T cur c s
  = carry_loop fuel cfg cat T nxt
      (c + (MonthlyBudget.base_budget r
            - month_spend_for_category (Category.id cat) cur nxt s))%Qc s.
Proof.
  intros Hlt Hn Hf.
  destruct (carry_loop_step fuel cfg cat T cur nxt c s Hlt Hn)
    as (mb & s' & Hr & _ & _ & ->).
  rewrite (resolve_budget_found _ _ _ _ _ Hf) in Hr.
  by injection Hr as <- <-.
Qed.

Lemma carry_loop_new fuel cfg cat T cur nxt c s :
  (cur < T)%dt -> next_month_start cur = Ok nxt ->
  find_budget (Category.id cat) cur s = None ->
  carry_loop (S fuel) cfg cat T cur c s
  = carry_loop fuel cfg cat T nxt
      (c + (seed_base cfg cat cur s
            - month_spend_for_category (Category.id cat) cur nxt s))%Qc
      (add_budget (seeded_row cfg cat cur s) s).
Proof.
  intros Hlt Hn Hf.
  destruct (carry_loop_step fuel cfg cat T cur nxt c s Hlt Hn)
    as (mb & s' & Hr & _ & _ & ->).
  rewrite (resolve_budget_new _ _ _ _ Hf) in Hr.
  by injection Hr as <- <-.
Qed.

Lemma month_spend_none cat_id a b s :
  purchases_of cat_id s = [] -> month_spend_for_category cat_id a b s = 0%Qc.
Proof. intros H. by rewrite month_spend_purchases_of, H. Qed.

Lemma resolve_budget_valid cfg cat cur s mb s' :
  resolve_budget cfg cat cur s = Return mb s' ->
  valid_datetime cur = true -> valid_db s -> valid_db s'.
Proof.
  intros Hr Hv [Hp Hb].
  destruct (find_budget (Category.id cat) cur s) as [r|] eqn:Hf.
  - rewrite (resolve_budget_found _ _ _ _ _ Hf) in Hr.
    by injection Hr as _ <-.
  - rewrite (resolve_budget_new _ _ _ _ Hf) in Hr. injection Hr as _ <-.
    split; [done|]. simpl. apply Forall_app. split; [done|].
    by apply Forall_singleton.
Qed.

(** On a database of datetimes the summary is returned at every instant
    but those of December 9999. *)
Lemma current_month_summary_returns cfg cat now_utc s :
  valid_db s -> valid_datetime now_utc = true ->
  ~ (year now_utc = MAXYEAR /\ month now_utc = 12) ->
  exists sm s1, current_month_summary cfg cat now_utc s = Return sm s1.
Proof.
  intros Hdb Hv Hne.
  apply month_start_valid in Hv as Hvm.
  apply valid_datetime_range in Hv.
  destruct (next_month_start_ok (month_start now_utc)) as [nxt Hn];
    [simpl; lia | simpl; lia | done |].
  destruct (resolve_budget_spec cfg cat (month_start now_utc) s)
    as (mb & s_a & Hr & _ & _).
  assert (base_this_month cfg cat (month_start now_utc) s
          = Return (MonthlyBudget.base_budget mb) s_a) as Hb.
  { rewrite base_this_month_resolve. unfold bind. by rewrite Hr. }
  destruct (cumulative_carry_until_returns cfg cat (month_start now_utc) s_a)
    as (v & s1 & Hrun);
    [by eapply resolve_budget_valid | apply month_start_is_month_start
     | done |].
  rewrite (current_month_summary_unfold _ _ _ _ _ _ _ Hn Hb), Hrun. eauto.
Qed.

(** ** A single budget row and no purchase (C7) *)

(** C7: when the only budget row of a category has base [B] at the
    month start [M] and the category has no purchase, the call for
    [M+1] returns [B] and the call for [M+2] returns [2B]. *)
Theorem single_budget_propagates cfg cat s r M M1 M2 :
  budgets_of (Category.id cat) s = [r] ->
  MonthlyBudget.month_start r = M ->
  is_month_start M ->
  purchases_of (Category.id cat) s = [] ->
  next_month_start M = Ok M1 ->
  next_month_start M1 = Ok M2 ->
  cumulative_carry_until cfg cat M1 s
  = Return (MonthlyBudget.base_budget r) s
  /\ exists s',
       cumulative_carry_until cfg cat M2 s
       = Return (MonthlyBudget.base_budget r + MonthlyBudget.base_budget r)%Qc
                s'
       /\ (MonthlyBudget.base_budget r + MonthlyBudget.base_budget r
           = 2 * MonthlyBudget.base_budget r)%Qc.
Proof.
  intros Hb Hr HM Hp HM1 HM2.
  assert (M < M1)%dt as H01 by by apply next_month_start_gt.
  assert (M1 < M2)%dt as H12 by by apply next_month_start_gt.
  assert (M < M2)%dt as H02 by by eapply dt_lt_trans.
  assert (activity_start cat s = Some M) as Hs.
  { unfold activity_start, first_purchase_ts, first_budget_ts.
    rewrite Hp, Hb. simpl. by rewrite Hr, HM. }
  assert (find_budget (Category.id cat) M s = Some r) as Hf.
  { rewrite find_budget_budgets_of, Hb. by rewrite filter_cons_True. }
  split.
  - rewrite (cumulative_carry_until_fuel 1 cfg cat M1 s M Hs);
      rewrite (carry_loop_found _ _ _ _ _ _ _ _ _ H01 HM1 Hf);
      rewrite carry_loop_done by apply dt_lt_irrefl; [|done].
    rewrite month_spend_none by done. f_equal. ring.
  - assert (find_budget (Category.id cat) M1 s = None) as Hf1.
    { rewrite find_budget_budgets_of, Hb.
      rewrite filter_cons_False; [done|]. rewrite Hr.
      by apply dt_lt_neq. }
    assert (seed_base cfg cat M1 s = MonthlyBudget.base_budget r) as Hseed.
    { unfold seed_base. rewrite prev_budget_budgets_of, Hb.
      rewrite filter_cons_True; [done|]. rewrite Hr. by apply dt_lt_le. }
    eexists. split; [|ring].
    rewrite (cumulative_carry_until_fuel 2 cfg cat M2 s M Hs);
      rewrite (carry_loop_found _ _ _ _ _ _ _ _ _ H02 HM1 Hf);
      rewrite (carry_loop_new _ _ _ _ _ _ _ _ H12 HM2 Hf1);
      rewrite carry_loop_done by apply dt_lt_irrefl; [|done].
    rewrite Hseed, !month_spend_none by done. f_equal. ring.
Qed.

Lemma single_budget_propagates_witness :
  cumulative_carry_until Household.cfg Household.groceries Household.feb
    Household.budget_only
  = Return (Qc_of_Z 100) Household.budget_only
  /\ exists s',
       cumulative_carry_until Household.cfg Household.groceries Household.mar
         Household.budget_only
       = Return (Qc_of_Z 100 + Qc_of_Z 100)%Qc s'
       /\ (Qc_of_Z 100 + Qc_of_Z 100 = 2 * Qc_of_Z 100)%Qc.
Proof.
  apply (single_budget_propagates Household.cfg Household.groceries
           Household.budget_only
           (MonthlyBudget.mk 1 1 Household.jan (Qc_of_Z 100))
           Household.jan Household.feb Household.mar); reflexivity.
Defined.

(** ** The scenario of the specification (C4) *)

Ltac dt_solve :=
  first
    [ assumption
    | apply dt_le_refl
    | apply dt_lt_irrefl
    | apply dt_lt_le; assumption
    | apply dt_lt_neq; assumption
    | apply not_eq_sym, dt_lt_neq; assumption
    | apply dt_not_le; assumption
    | apply dt_not_lt, dt_lt_le; assumption
    | reflexivity ].

(** Evaluates the queries on a table given row by row. *)
Ltac run_filter :=
  rewrite ?filter_cons, ?filter_nil; simpl;
  repeat (first [ rewrite decide_True by dt_solve
                | rewrite decide_False by dt_solve ];
          simpl).

Lemma budgets_of_seeded cfg cat cur t s :
  budgets_of (Category.id cat) (add_budget (seeded_row cfg cat cur t) s)
  = budgets_of (Category.id cat) s ++ [seeded_row cfg cat cur t].
Proof. exact (budgets_of_add (seeded_row cfg cat cur t) s). Qed.

(** C4: a category with configured default base 400 and no budget row,
    whose purchases start in month 1 and sum to 350 in month 1 and to
    500 in month 2.  The carry into month 2 is 50; the summary of month
    2 has base 400 (propagated), carry 50, effective budget 450, spent
    500, remaining -50 and over_by 50; and the summary of month 3 then
    has effective budget max(0, 400 + (50 + (400 - 500))) = 350. *)
Theorem scenario_groceries cfg cat s t1 M1 M2 M3 M4 now2 now3 :
  cfg !! Category.name cat = Some (Qc_of_Z 400) ->
  budgets_of (Category.id cat) s = [] ->
  first_purchase_ts (Category.id cat) s = Some t1 ->
  month_start t1 = M1 ->
  next_month_start M1 = Ok M2 ->
  next_month_start M2 = Ok M3 ->
  next_month_start M3 = Ok M4 ->
  month_spend_for_category (Category.id cat) M1 M2 s = Qc_of_Z 350 ->
  month_spend_for_category (Category.id cat) M2 M3 s = Qc_of_Z 500 ->
  month_start now2 = M2 ->
  month_start now3 = M3 ->
  (exists s1, cumulative_carry_until cfg cat M2 s = Return (Qc_of_Z 50) s1)
  /\ exists sm2 s2,
       current_month_summary cfg cat now2 s = Return sm2 s2
       /\ base sm2 = Qc_of_Z 400 /\ carry_in sm2 = Qc_of_Z 50
       /\ effective sm2 = Qc_of_Z 450 /\ spent sm2 = Qc_of_Z 500
       /\ remaining sm2 = Qc_of_Z (-50) /\ over_by sm2 = Qc_of_Z 50
       /\ exists sm3 s3,
            current_month_summary cfg cat now3 s2 = Return sm3 s3
            /\ base sm3 = Qc_of_Z 400
            /\ carry_in sm3 = (Qc_of_Z 50 + (Qc_of_Z 400 - Qc_of_Z 500))%Qc
            /\ effective sm3
               = py_max 0%Qc (Qc_of_Z 400
                              + (Qc_of_Z 50 + (Qc_of_Z 400 - Qc_of_Z 500)))%Qc
            /\ effective sm3 = Qc_of_Z 350.
Proof.
  intros Hcfg Hb Hp Ht1 HM1 HM2 HM3 Hs1 Hs2 Hn2 Hn3.
  assert (M1 < M2)%dt as H12 by by apply next_month_start_gt.
  assert (M2 < M3)%dt as H23 by by apply next_month_start_gt.
  assert (M1 < M3)%dt as H13 by by eapply dt_lt_trans.
  assert (default_base cfg cat = Qc_of_Z 400) as Hdef.
  { unfold default_base. by rewrite Hcfg. }
  assert (forall t, purchases t = purchases s ->
            activity_start cat t = Some M1) as Hstart.
  { intros t Ht. unfold activity_start.
    replace (first_purchase_ts (Category.id cat) t) with (Some t1).
    - simpl. by rewrite Ht1.
    - rewrite <- Hp. unfold first_purchase_ts, purchases_of. by rewrite Ht. }
  assert (forall a b t, purchases t = purchases s ->
            month_spend_for_category (Category.id cat) a b t
            = month_spend_for_category (Category.id cat) a b s) as Hspend.
  { intros a b t Ht. unfold month_spend_for_category. by rewrite Ht. }
  split.
  - eexists.
    rewrite (cumulative_carry_until_fuel 1 cfg cat M2 s M1 (Hstart s eq_refl)).
    all: rewrite (carry_loop_new _ _ _ _ _ _ _ _ H12 HM1)
      by (by rewrite find_budget_budgets_of, Hb).
    all: rewrite carry_loop_done by apply dt_lt_irrefl.
    2: done.
    f_equal. unfold seed_base. rewrite prev_budget_budgets_of, Hb. simpl.
    rewrite Hdef, Hs1. apply Qc_is_canon. vm_compute. reflexivity.
  - set (row2 := seeded_row cfg cat M2 s).
    set (sa := add_budget row2 s).
    set (row1 := seeded_row cfg cat M1 sa).
    set (sb := add_budget row1 sa).
    set (row3 := seeded_row cfg cat M3 sb).
    set (sc := add_budget row3 sb).
    assert (budgets_of (Category.id cat) sa = [row2]) as Hba.
    { unfold sa, row2. rewrite budgets_of_seeded. by rewrite Hb. }
    assert (budgets_of (Category.id cat) sb = [row2; row1]) as Hbb.
    { unfold sb, row1. rewrite budgets_of_seeded. by rewrite Hba. }
    assert (budgets_of (Category.id cat) sc = [row2; row1; row3]) as Hbc.
    { unfold sc, row3. rewrite budgets_of_seeded. by rewrite Hbb. }
    assert (seed_base cfg cat M2 s = Qc_of_Z 400) as Hseed2.
    { unfold seed_base. by rewrite prev_budget_budgets_of, Hb. }
    assert (seed_base cfg cat M1 sa = Qc_of_Z 400) as Hseed1.
    { unfold seed_base. rewrite prev_budget_budgets_of, Hba. by run_filter. }
    assert (seed_base cfg cat M3 sb = Qc_of_Z 400) as Hseed3.
    { unfold seed_base. rewrite prev_budget_budgets_of, Hbb. run_filter.
      exact Hseed2. }
    assert (cumulative_carry_until cfg cat M2 sa = Return (Qc_of_Z 50) sb)
      as Hcarry2.
    { rewrite (cumulative_carry_until_fuel 1 cfg cat M2 sa M1 (Hstart sa eq_refl)).
      all: rewrite (carry_loop_new _ _ _ _ _ _ _ _ H12 HM1)
        by (rewrite find_budget_budgets_of, Hba; by run_filter).
      all: rewrite carry_loop_done by apply dt_lt_irrefl.
      2: done.
      f_equal. rewrite Hseed1, (Hspend _ _ sa eq_refl), Hs1.
      apply Qc_is_canon. vm_compute. reflexivity. }
    assert (current_month_summary cfg cat now2 s
            = Return (summary_of (Qc_of_Z 400) (Qc_of_Z 50) (Qc_of_Z 500)) sb)
      as Hsum2.
    { rewrite (current_month_summary_unfold cfg cat now2 s M3
                 (Qc_of_Z 400) sa).
      - rewrite Hn2, Hcarry2. by rewrite (Hspend _ _ sb eq_refl), Hs2.
      - by rewrite Hn2.
      - rewrite Hn2, base_this_month_resolve. unfold bind.
        rewrite resolve_budget_new
          by (by rewrite find_budget_budgets_of, Hb).
        unfold ret. simpl. by rewrite Hseed2. }
    assert (cumulative_carry_until cfg cat M3 sc
            = Return (Qc_of_Z 50 + (Qc_of_Z 400 - Qc_of_Z 500))%Qc sc)
      as Hcarry3.
    { rewrite (cumulative_carry_until_fuel 2 cfg cat M3 sc M1 (Hstart sc eq_refl)).
      all: rewrite (carry_loop_found _ _ _ _ _ _ _ _ row1 H13 HM1)
        by (rewrite find_budget_budgets_of, Hbc; by run_filter).
      all: rewrite (carry_loop_found _ _ _ _ _ _ _ _ row2 H23 HM2)
        by (rewrite find_budget_budgets_of, Hbc; by run_filter).
      all: rewrite carry_loop_done by apply dt_lt_irrefl.
      2: done.
      f_equal. simpl. rewrite Hseed1, Hseed2.
      rewrite !(Hspend _ _ sc eq_refl), Hs1, Hs2.
      apply Qc_is_canon. vm_compute. reflexivity. }
    exists (summary_of (Qc_of_Z 400) (Qc_of_Z 50) (Qc_of_Z 500)), sb.
    split; [done|].
    do 6 (split; [by (try reflexivity); apply Qc_is_canon; vm_compute|]).
    exists (summary_of (Qc_of_Z 400)
              (Qc_of_Z 50 + (Qc_of_Z 400 - Qc_of_Z 500))%Qc
              (month_spend_for_category (Category.id cat) M3 M4 s)), sc.
    split.
    { rewrite (current_month_summary_unfold cfg cat now3 sb M4
                 (Qc_of_Z 400) sc).
      - rewrite Hn3, Hcarry3. by rewrite (Hspend _ _ sc eq_refl).
      - by rewrite Hn3.
      - rewrite Hn3, base_this_month_resolve. unfold bind.
        rewrite resolve_budget_new
          by (rewrite find_budget_budgets_of, Hbb; by run_filter).
        unfold ret. simpl. by rewrite Hseed3. }
    split; [done|]. split; [done|]. split; [done|].
    simpl. apply Qc_is_canon. vm_compute. reflexivity.
Qed.

Lemma scenario_groceries_witness :
  (exists s1,
     cumulative_carry_until Household.cfg Household.groceries Household.feb
       Household.fresh = Return (Qc_of_Z 50) s1)
  /\ exists sm2 s2,
       current_month_summary Household.cfg Household.groceries
         (mk_datetime 2024 2 20 18 0 0 0) Household.fresh = Return sm2 s2
       /\ base sm2 = Qc_of_Z 400 /\ carry_in sm2 = Qc_of_Z 50
       /\ effective sm2 = Qc_of_Z 450 /\ spent sm2 = Qc_of_Z 500
       /\ remaining sm2 = Qc_of_Z (-50) /\ over_by sm2 = Qc_of_Z 50
       /\ exists sm3 s3,
            current_month_summary Household.cfg Household.groceries
              (mk_datetime 2024 3 2 8 15 0 0) s2 = Return sm3 s3
            /\ base sm3 = Qc_of_Z 400
            /\ carry_in sm3 = (Qc_of_Z 50 + (Qc_of_Z 400 - Qc_of_Z 500))%Qc
            /\ effective sm3
               = py_max 0%Qc (Qc_of_Z 400
                              + (Qc_of_Z 50 + (Qc_of_Z 400 - Qc_of_Z 500)))%Qc
            /\ effective sm3 = Qc_of_Z 350.
Proof.
  apply (scenario_groceries Household.cfg Household.groceries Household.fresh
           (mk_datetime 2024 1 10 9 30 0 0)
           Household.jan Household.feb Household.mar Household.apr).
  - vm_compute. reflexivity.
  - reflexivity.
  - vm_compute. reflexivity.
  - reflexivity.
  - reflexivity.
  - reflexivity.
  - reflexivity.
  - apply Qc_is_canon. vm_compute. reflexivity.
  - apply Qc_is_canon. vm_compute. reflexivity.
  - reflexivity.
  - reflexivity.
Defined.

(** ** Year-to-date totals (C9) *)

Lemma insert_sorted_perm c l : insert_sorted c l ≡ₚ c :: l.
Proof.
  induction l as [|d l IH]; simpl; [done|].
  destruct (key_ltb _ _); [|done].
  rewrite IH. apply Permutation_swap.
Qed.

Lemma sort_categories_perm cats : sort_categories cats ≡ₚ cats.
Proof.
  unfold sort_categories. induction cats as [|c cats IH]; simpl; [done|].
  by rewrite insert_sorted_perm, IH.
Qed.

Lemma NoDup_fmap_same {A B} (f : A -> B) l x y :
  NoDup (f <$> l) -> x ∈ l -> y ∈ l -> f x = f y -> x = y.
Proof.
  induction l as [|z l IH]; simpl; [by intros _ ?%elem_of_nil|].
  intros [Hz Hl]%NoDup_cons [->|Hx]%elem_of_cons [->|Hy]%elem_of_cons Heq;
    [done| | |by apply IH].
  - exfalso. apply Hz. rewrite Heq. by apply list_elem_of_fmap_2.
  - exfalso. apply Hz. rewrite <- Heq. by apply list_elem_of_fmap_2.
Qed.

Lemma str_compare_refl s : String.compare s s = Eq.
Proof.
  induction s as [|a s IH]; simpl; [done|].
  unfold Ascii.compare. by rewrite N.compare_refl.
Qed.

Lemma str_compare_trans s1 s2 s3 :
  String.compare s1 s2 = Lt -> String.compare s2 s3 = Lt ->
  String.compare s1 s3 = Lt.
Proof.
  revert s2 s3. induction s1 as [|a s1 IH]; intros [|b s2] [|c s3];
    simpl; try done.
  unfold Ascii.compare.
  destruct (N.compare_spec (Ascii.N_of_ascii a) (Ascii.N_of_ascii b))
    as [Hab|Hab|Hab],
      (N.compare_spec (Ascii.N_of_ascii b) (Ascii.N_of_ascii c))
    as [Hbc|Hbc|Hbc]; try done.
  - rewrite Hab, Hbc, N.compare_refl. apply IH.
  - intros _ _. rewrite Hab. by apply N.compare_lt_iff in Hbc as ->.
  - intros _ _. rewrite <- Hbc. by apply N.compare_lt_iff in Hab as ->.
  - intros _ _.
    assert (Ascii.N_of_ascii a < Ascii.N_of_ascii c)%N
      as ->%N.compare_lt_iff by lia. done.
Qed.

Lemma key_ltb_cmp k1 k2 : key_ltb k1 k2 = true <-> key_cmp k1 k2 = Lt.
Proof.
  unfold key_ltb, key_cmp, String.ltb.
  destruct (Z.compare_spec k1.1 k2.1) as [Heq|Hlt|Hgt].
  - rewrite (proj2 (Z.ltb_ge _ _)), (proj2 (Z.eqb_eq _ _)) by lia. simpl.
    by destruct (String.compare k1.2 k2.2).
  - rewrite (proj2 (Z.ltb_lt _ _)) by lia. done.
  - rewrite (proj2 (Z.ltb_ge _ _)), (proj2 (Z.eqb_neq _ _)) by lia. done.
Qed.

Lemma key_cmp_antisym k1 k2 : key_cmp k2 k1 = CompOpp (key_cmp k1 k2).
Proof.
  unfold key_cmp. rewrite (Z.compare_antisym k1.1 k2.1).
  destruct (k1.1 ?= k2.1); simpl; [|done..].
  apply String.compare_antisym.
Qed.

Lemma key_cmp_eq k1 k2 : key_cmp k1 k2 = Eq -> k1 = k2.
Proof.
  unfold key_cmp. destruct k1 as [i1 s1], k2 as [i2 s2]. simpl.
  destruct (Z.compare_spec i1 i2); [|done..].
  intros ->%String.compare_eq_iff. by subst.
Qed.

Lemma key_cmp_trans k1 k2 k3 :
  key_cmp k1 k2 = Lt -> key_cmp k2 k3 = Lt -> key_cmp k1 k3 = Lt.
Proof.
  unfold key_cmp.
  destruct (Z.compare_spec k1.1 k2.1) as [H12|H12|H12],
           (Z.compare_spec k2.1 k3.1) as [H23|H23|H23]; try done.
  - rewrite H12, H23, Z.compare_refl. apply str_compare_trans.
  - intros _ _. rewrite H12. by apply Z.compare_lt_iff in H23 as ->.
  - intros _ _. rewrite <- H23. by apply Z.compare_lt_iff in H12 as ->.
  - intros _ _. assert (k1.1 < k3.1) as ->%Z.compare_lt_iff by lia. done.
Qed.

Lemma key_le_cmp c d : key_le c d <-> key_cmp (sort_key c) (sort_key d) <> Gt.
Proof.
  unfold key_le. rewrite <- not_true_iff_false, key_ltb_cmp.
  rewrite (key_cmp_antisym (sort_key c) (sort_key d)).
  destruct (key_cmp (sort_key c) (sort_key d)); simpl; intuition congruence.
Qed.

Lemma key_lt_le c d :
  key_ltb (sort_key c) (sort_key d) = true -> key_le c d.
Proof.
  rewrite key_ltb_cmp, key_le_cmp. by intros ->.
Qed.

Lemma key_le_trans c d e : key_le c d -> key_le d e -> key_le c e.
Proof.
  rewrite !key_le_cmp. intros Hcd Hde.
  destruct (key_cmp (sort_key c) (sort_key d)) eqn:H1; [| |done].
  - apply key_cmp_eq in H1. by rewrite H1.
  - destruct (key_cmp (sort_key d) (sort_key e)) eqn:H2; [| |done].
    + apply key_cmp_eq in H2. by rewrite <- H2, H1.
    + by rewrite (key_cmp_trans _ _ _ H1 H2).
Qed.

Lemma insert_sorted_sorted c l :
  StronglySorted key_le l -> StronglySorted key_le (insert_sorted c l).
Proof.
  induction 1 as [|d l Hl IH Hall]; simpl.
  - repeat constructor.
  - destruct (key_ltb (sort_key d) (sort_key c)) eqn:Hlt.
    + constructor; [done|]. rewrite insert_sorted_perm.
      constructor; [by apply key_lt_le | done].
    + constructor; [by constructor|].
      constructor; [done|].
      eapply Forall_impl; [done|]. intros x Hx.
      by eapply key_le_trans.
Qed.

Lemma strongly_sorted_impl {A} (R1 R2 : A -> A -> Prop) l :
  (forall x y, R1 x y -> R2 x y) ->
  StronglySorted R1 l -> StronglySorted R2 l.
Proof.
  intros HR. induction 1 as [|a l Hl IH Hall]; constructor; [done|].
  eapply Forall_impl; [done|]. intros x. apply HR.
Qed.

Lemma sort_categories_strongly_sorted cats :
  StronglySorted key_le (sort_categories cats).
Proof.
  unfold sort_categories. induction cats as [|c cats IH]; simpl;
    [constructor | by apply insert_sorted_sorted].
Qed.

Lemma sort_categories_fixed l :
  StronglySorted key_le l -> sort_categories l = l.
Proof.
  unfold sort_categories. induction 1 as [|d l Hl IH Hall]; simpl; [done|].
  rewrite IH. destruct Hall as [|x l' Hx _]; simpl; [done|].
  unfold key_le in Hx. by rewrite Hx.
Qed.

Lemma insert_sorted_filter k c l :
  filter (fun x => sort_key x = k) (insert_sorted c l)
  = filter (fun x => sort_key x = k) (c :: l).
Proof.
  induction l as [|d l IH]; simpl; [done|].
  destruct (key_ltb (sort_key d) (sort_key c)) eqn:Hlt; [|done].
  rewrite (filter_cons _ d), IH, (filter_cons _ c), (filter_cons _ c),
    (filter_cons _ d).
  destruct (decide (sort_key d = k)) as [Hd|Hd],
           (decide (sort_key c = k)) as [Hc|Hc]; try done.
  exfalso. apply key_ltb_cmp in Hlt. rewrite Hd, Hc in Hlt.
  unfold key_cmp in Hlt. rewrite Z.compare_refl, str_compare_refl in Hlt.
  done.
Qed.

Lemma ytd_fold now_utc ps cats rows acc :
  fold_left
    (fun '(rows, overall) c =>
       let spent := Float64.month_spend_for_category (Category.id c)
                      (mk_datetime (year now_utc) 1 1 0 0 0 0) now_utc ps in
       (rows ++ [Float64.mk_row c spent], PrimFloat.add overall spent))
    cats (rows, acc)
  = (rows ++ ((fun c => Float64.mk_row c
                          (Float64.month_spend_for_category (Category.id c)
                             (mk_datetime (year now_utc) 1 1 0 0 0 0)
                             now_utc ps)) <$> cats),
     fold_left PrimFloat.add
       ((fun c => Float64.month_spend_for_category (Category.id c)
                    (mk_datetime (year now_utc) 1 1 0 0 0 0) now_utc ps)
        <$> cats) acc).
Proof.
  revert rows acc. induction cats as [|c cats IH]; intros rows acc; simpl.
  - by rewrite app_nil_r.
  - by rewrite IH, <- app_assoc.
Qed.

Lemma ytd_totals_eq now_utc active_only cats ps :
  Float64.ytd_totals now_utc active_only cats ps
  = ((fun c => Float64.mk_row c
                 (Float64.month_spend_for_category (Category.id c)
                    (mk_datetime (year now_utc) 1 1 0 0 0 0) now_utc ps))
     <$> sort_categories (selected active_only cats),
     fold_left PrimFloat.add
       ((fun c => Float64.month_spend_for_category (Category.id c)
                    (mk_datetime (year now_utc) 1 1 0 0 0 0) now_utc ps)
        <$> sort_categories (selected active_only cats)) Float64.zero).
Proof.
  unfold Float64.ytd_totals. fold (selected active_only cats).
  by rewrite ytd_fold.
Qed.

Lemma selected_perm active_only cats cats' :
  cats' ≡ₚ cats -> selected active_only cats' ≡ₚ selected active_only cats.
Proof. intros Hp. unfold selected. destruct active_only; by rewrite Hp. Qed.

(** A table without two equal sort keys is listed in one order only,
    however its rows are arranged. *)
Lemma sort_categories_canonical l l' :
  l' ≡ₚ l -> NoDup (sort_key <$> l) ->
  sort_categories l' = sort_categories l.
Proof.
  intros Hp Hnd.
  apply (StronglySorted_unique_strong key_le);
    [|apply sort_categories_strongly_sorted..|].
  - intros x1 x2 H1 H2 Hle%key_le_cmp Hle'%key_le_cmp.
    rewrite sort_categories_perm, Hp in H1.
    rewrite sort_categories_perm in H2.
    apply (NoDup_fmap_same sort_key l); [done..|].
    apply key_cmp_eq. rewrite key_cmp_antisym in Hle'.
    by destruct (key_cmp (sort_key x1) (sort_key x2)).
  - by rewrite !sort_categories_perm.
Qed.

(** The table of [Rounding] in its two arrangements: the same rows, the
    same purchases, and two different overall values, 0.3 + 0.2 + 0.1
    against 0.3 + 0.1 + 0.2 in binary64. *)
Lemma ytd_overall_depends_on_table_order :
  Rounding.retabled ≡ₚ Rounding.table
  /\ (Float64.ytd_totals Rounding.now false Rounding.retabled
        Rounding.ledger).1
     ≡ₚ (Float64.ytd_totals Rounding.now false Rounding.table
           Rounding.ledger).1
  /\ (Float64.ytd_totals Rounding.now false Rounding.table
        Rounding.ledger).2
     <> (Float64.ytd_totals Rounding.now false Rounding.retabled
           Rounding.ledger).2.
Proof.
  split; [apply perm_skip, Permutation_swap|]. split.
  - vm_compute. apply perm_skip, Permutation_swap.
  - intros H.
    apply (f_equal (fun x => PrimFloat.eqb x
                     (Float64.ytd_totals Rounding.now false Rounding.retabled
                        Rounding.ledger).2)) in H.
    vm_compute in H. discriminate.
Qed.

(** C9: the overall value of [ytd_totals] is the sum of the [spent] of
    the returned rows, added in binary64 from 0.0 in the order of the
    rows; each row's [spent] is the purchase total of its category from
    January 1st 00:00 of the year of [now] up to [now]; the rows are
    those of the selected categories.  Rearranging the category table
    gives the same rows up to their order; it gives the same rows in the
    same order, and so the same overall value, when the names are
    written in ASCII and no two selected categories have the same sort
    key. *)
Theorem ytd_overall_adds_rows_in_order now_utc active_only cats ps :
  let rows := (Float64.ytd_totals now_utc active_only cats ps).1 in
  let overall := (Float64.ytd_totals now_utc active_only cats ps).2 in
  overall
  = fold_left PrimFloat.add (Float64.row_spent <$> rows) Float64.zero
  /\ Forall (fun r =>
       Float64.row_spent r
       = Float64.month_spend_for_category
           (Category.id (Float64.row_cat r))
           (mk_datetime (year now_utc) 1 1 0 0 0 0) now_utc ps) rows
  /\ Float64.row_cat <$> rows ≡ₚ selected active_only cats
  /\ (forall cats',
        cats' ≡ₚ cats ->
        (Float64.ytd_totals now_utc active_only cats' ps).1 ≡ₚ rows)
  /\ (forall cats',
        cats' ≡ₚ cats ->
        Forall (fun c => ascii_name (Category.name c) = true) cats ->
        NoDup (sort_key <$> selected active_only cats) ->
        Float64.ytd_totals now_utc active_only cats' ps
        = Float64.ytd_totals now_utc active_only cats ps).
Proof.
  simpl. rewrite ytd_totals_eq. simpl.
  split; [|split; [|split; [|split]]].
  - by rewrite <- list_fmap_compose.
  - apply Forall_fmap, Forall_forall. by intros c _.
  - rewrite <- list_fmap_compose. simpl. rewrite list_fmap_id.
    apply sort_categories_perm.
  - intros cats' Hp. rewrite ytd_totals_eq. simpl.
    apply fmap_Permutation.
    by rewrite !sort_categories_perm, (selected_perm _ _ _ Hp).
  - intros cats' Hp _ Hnd. rewrite ytd_totals_eq.
    by rewrite (sort_categories_canonical _ _
                  (selected_perm active_only _ _ Hp) Hnd).
Qed.

Lemma ytd_overall_adds_rows_in_order_witness :
  Float64.ytd_totals Rounding.now false Rounding.two Rounding.ledger
  = Float64.ytd_totals Rounding.now false Rounding.two_retabled
      Rounding.ledger.
Proof.
  destruct (ytd_overall_adds_rows_in_order Rounding.now false
              Rounding.two_retabled Rounding.ledger)
    as (_ & _ & _ & _ & H).
  apply H.
  - apply Permutation_swap.
  - repeat constructor.
  - vm_compute. repeat constructor; intros Hin;
      repeat (apply elem_of_cons in Hin as [Hin|Hin]; [discriminate|]);
      by apply elem_of_nil in Hin.
Defined.


(** * Further properties of the code *)

(** ** Month windows *)

Lemma month_start_le_self d :
  valid_datetime d = true -> (month_start d <= d)%dt.
Proof.
  unfold valid_datetime. rewrite !andb_true_iff, !Z.leb_le.
  intros Hv. unfold dt_le. rewrite dt_cmp_unfold.
  unfold month_start.
  cbn [year month day hour minute second microsecond lex_cmp].
  rewrite !Z.compare_refl.
  repeat (match goal with
          | |- context [?x ?= ?y] => destruct (Z.compare_spec x y)
          end; try done; try lia).
Qed.

(** Every instant lies in the window of its month: at or after the start of
    the month and before the start of the next one, which is one month
    further on the calendar and depends on the year and month alone. *)
Theorem instant_in_month_window d :
  valid_datetime d = true ->
  ~ (year d = MAXYEAR /\ month d = 12) ->
  exists nxt,
    next_month_start (month_start d) = Ok nxt
    /\ next_month_start d = Ok nxt
    /\ (month_start d <= d)%dt /\ (d < nxt)%dt
    /\ is_month_start nxt /\ valid_datetime nxt = true
    /\ month_index nxt = month_index d + 1.
Proof.
  intros Hv Hne. apply valid_datetime_range in Hv as Hr.
  destruct (next_month_start_ok d) as [nxt Hn]; [lia | lia | done |].
  exists nxt. split; [exact Hn|]. split; [done|].
  split; [by apply month_start_le_self|].
  split; [by apply next_month_start_gt|].
  by apply next_month_start_spec.
Qed.

Lemma instant_in_month_window_witness :
  exists nxt,
    next_month_start (month_start Overspent.now_feb) = Ok nxt
    /\ next_month_start Overspent.now_feb = Ok nxt
    /\ (month_start Overspent.now_feb <= Overspent.now_feb)%dt
    /\ (Overspent.now_feb < nxt)%dt
    /\ is_month_start nxt /\ valid_datetime nxt = true
    /\ month_index nxt = month_index Overspent.now_feb + 1.
Proof.
  apply (instant_in_month_window Overspent.now_feb).
  - reflexivity.
  - unfold MAXYEAR. simpl. lia.
Defined.

Lemma valid_lt_month_start_index d m :
  valid_datetime d = true ->
  is_month_start m -> valid_datetime m = true ->
  (d < m)%dt -> month_index d < month_index m.
Proof.
  intros Hv Hm Hvm Hlt.
  assert (month_start d < m)%dt as Hlt'.
  { eapply dt_le_lt_trans; [by apply month_start_le_self | done]. }
  apply valid_datetime_range in Hv. apply valid_datetime_range in Hvm.
  apply (month_start_lt_index (month_start d) m) in Hlt';
    [done | apply month_start_is_month_start | done | simpl; lia | lia].
Qed.

Lemma next_month_start_le_month d nxt m :
  valid_datetime d = true ->
  next_month_start d = Ok nxt ->
  is_month_start m -> valid_datetime m = true ->
  (d < m)%dt -> (nxt <= m)%dt.
Proof.
  intros Hv Hn Hm Hvm Hlt.
  pose proof (valid_lt_month_start_index _ _ Hv Hm Hvm Hlt) as Hidx.
  destruct (next_month_start_spec _ _ Hn) as (Hms & Hvn & Hi).
  apply valid_datetime_range in Hvn as Hrn.
  apply valid_datetime_range in Hvm as Hrm.
  apply month_start_le_index; [done | done | lia | lia | lia].
Qed.

(** No month starts between an instant and the start of the next month:
    a month start after the instant is at or after [next_month_start]. *)
Theorem next_month_start_is_least d nxt m :
  valid_datetime d = true ->
  next_month_start d = Ok nxt ->
  is_month_start m -> valid_datetime m = true ->
  (d < m)%dt -> (nxt <= m)%dt.
Proof. apply next_month_start_le_month. Qed.

Lemma next_month_start_is_least_witness :
  (Household.feb <= Household.mar)%dt.
Proof.
  apply (next_month_start_is_least (mk_datetime 2024 1 10 9 30 0 0)
           Household.feb Household.mar); try reflexivity.
Defined.

(** ** The ledger *)

Lemma sum_amounts_app l1 l2 :
  sum_amounts (l1 ++ l2) = (sum_amounts l1 + sum_amounts l2)%Qc.
Proof.
  unfold sum_amounts. induction l1 as [|p l1 IH]; simpl.
  - by rewrite Qcplus_0_l.
  - rewrite IH. apply Qcplus_assoc.
Qed.

(** ** Logging, deleting and editing purchases *)

Lemma next_purchase_id_above l p :
  p ∈ l -> Purchase.id p < next_purchase_id l.
Proof.
  unfold next_purchase_id. induction l as [|q l IH]; simpl.
  - by intros ?%elem_of_nil.
  - intros [->|Hin]%elem_of_cons; [lia|]. apply IH in Hin. lia.
Qed.

(** A logged purchase counts, with its amount, in exactly the windows of
    its own category that contain the instant it was logged at; a purchase
    with an empty name is not logged at all. *)
Theorem add_counts_in_its_window cat_id name amount now_utc c a b s :
  name <> EmptyString ->
  month_spend_for_category c a b (Routes.add cat_id name amount now_utc s)
  = (month_spend_for_category c a b s
     + (if decide (cat_id = c /\ (a <= now_utc)%dt /\ (now_utc < b)%dt)
        then amount else 0))%Qc
  /\ Routes.add cat_id EmptyString amount now_utc s = s
  /\ monthly_budgets (Routes.add cat_id name amount now_utc s)
     = monthly_budgets s
  /\ length (purchases (Routes.add cat_id name amount now_utc s))
     = S (length (purchases s)).
Proof.
  intros Hname. unfold Routes.add.
  rewrite (decide_False (P := name = EmptyString)) by done.
  rewrite (decide_True (P := EmptyString = EmptyString)) by done. simpl.
  split; [|split; [done|split; [done|]]].
  - unfold month_spend_for_category. simpl.
    rewrite filter_app, sum_amounts_app. f_equal.
    rewrite filter_cons, filter_nil. simpl.
    destruct (decide (cat_id = c /\ _ /\ _)); simpl; [|done].
    unfold sum_amounts. simpl. ring.
  - rewrite length_app. simpl. lia.
Qed.

Lemma add_counts_in_its_window_witness :
  month_spend_for_category 1 Household.feb Household.mar
    (Routes.add 1 "cheese" (Qc_of_Z 12) Overspent.now_feb Household.fresh)
  = (month_spend_for_category 1 Household.feb Household.mar Household.fresh
     + (if decide (1 = 1 /\ (Household.feb <= Overspent.now_feb)%dt
                   /\ (Overspent.now_feb < Household.mar)%dt)
        then Qc_of_Z 12 else 0))%Qc.
Proof.
  apply (add_counts_in_its_window 1 "cheese" (Qc_of_Z 12) Overspent.now_feb
           1 Household.feb Household.mar Household.fresh).
  discriminate.
Defined.

(** Deleting the purchase that was just logged gives back the database as
    it was. *)
Theorem delete_undoes_add cat_id name amount now_utc s :
  name <> EmptyString ->
  Routes.delete (next_purchase_id (purchases s))
    (Routes.add cat_id name amount now_utc s) = Some s.
Proof.
  intros Hname. unfold Routes.add. rewrite decide_False by done.
  unfold Routes.delete, Routes.get_or_404. simpl.
  assert (forall P : Purchase.t -> Prop,
            forall (Hd : forall p, Decision (P p)) l,
              (forall p, p ∈ l -> ~ P p) -> filter P l = []) as Hnone.
  { intros P Hd l. induction l as [|q l IH]; intros Hall; [done|].
    rewrite filter_cons_False by (apply Hall; by left).
    apply IH. intros p Hp. apply Hall. by right. }
  rewrite !filter_app.
  rewrite (Hnone (fun p => Purchase.id p = next_purchase_id (purchases s))).
  2:{ intros p Hp Heq. apply next_purchase_id_above in Hp. lia. }
  rewrite filter_cons_True by done. simpl.
  rewrite filter_all.
  2:{ apply Forall_forall. intros p Hp Heq.
      apply next_purchase_id_above in Hp. lia. }
  rewrite filter_cons_False by (simpl; tauto).
  rewrite filter_nil, app_nil_r. by destruct s.
Qed.

Lemma delete_undoes_add_witness :
  Routes.delete 4
    (Routes.add 1 "cheese" (Qc_of_Z 12) Overspent.now_feb Household.fresh)
  = Some Household.fresh.
Proof.
  apply (delete_undoes_add 1 "cheese" (Qc_of_Z 12) Overspent.now_feb
           Household.fresh).
  discriminate.
Defined.

Lemma get_or_404_None pid s :
  Routes.get_or_404 pid s = None
  <-> forall p, p ∈ purchases s -> Purchase.id p <> pid.
Proof.
  unfold Routes.get_or_404. split.
  - intros Hh p Hp Heq.
    assert (p ∈ filter (fun p => Purchase.id p = pid) (purchases s)) as Hin.
    { by apply list_elem_of_filter. }
    destruct (filter _ (purchases s)); [by apply elem_of_nil in Hin | done].
  - intros Hall.
    destruct (filter (fun p => Purchase.id p = pid) (purchases s))
      as [|q l] eqn:Hf; [done|]. exfalso.
    assert (q ∈ filter (fun p => Purchase.id p = pid) (purchases s)) as Hq.
    { rewrite Hf. by left. }
    apply list_elem_of_filter in Hq as [Heq Hq]. by apply (Hall q).
Qed.

(** [delete] answers 404 exactly when no purchase has the id; when it
    succeeds no purchase with the id is left, every other purchase stays, the
    budgets are untouched, and deleting the same id again is a 404. *)
Theorem delete_then_404 pid s :
  (Routes.delete pid s = None
   <-> forall p, p ∈ purchases s -> Purchase.id p <> pid)
  /\ forall s',
       Routes.delete pid s = Some s' ->
       (forall p, p ∈ purchases s'
                  <-> p ∈ purchases s /\ Purchase.id p <> pid)
       /\ monthly_budgets s' = monthly_budgets s
       /\ categories s' = categories s
       /\ Routes.delete pid s' = None.
Proof.
  split.
  - rewrite <- get_or_404_None. unfold Routes.delete.
    by destruct (Routes.get_or_404 pid s).
  - intros s'. unfold Routes.delete.
    destruct (Routes.get_or_404 pid s); [|done].
    intros [= <-]. simpl. split; [|split; [done|split; [done|]]].
    + intros p. rewrite list_elem_of_filter. tauto.
    + replace (Routes.get_or_404 pid _) with (@None Purchase.t); [done|].
      symmetry. apply get_or_404_None. simpl.
      by intros p [Hne _]%list_elem_of_filter.
Qed.

(** Editing a purchase keeps every timestamp and every id, in order, and
    leaves the budgets alone; the purchases with the id get the new name,
    amount and category (an empty name is accepted here), the others are
    unchanged, and an unknown id is a 404. *)
Theorem edit_keeps_timestamps pid name amount cat_id s :
  (Routes.edit pid name amount cat_id s = None
   <-> forall p, p ∈ purchases s -> Purchase.id p <> pid)
  /\ forall s',
       Routes.edit pid name amount cat_id s = Some s' ->
       Purchase.ts <$> purchases s' = Purchase.ts <$> purchases s
       /\ Purchase.id <$> purchases s' = Purchase.id <$> purchases s
       /\ monthly_budgets s' = monthly_budgets s
       /\ categories s' = categories s
       /\ Forall2 (fun p p' =>
            if decide (Purchase.id p = pid)
            then p' = Purchase.mk pid cat_id name amount (Purchase.ts p)
            else p' = p) (purchases s) (purchases s').
Proof.
  split.
  - rewrite <- get_or_404_None. unfold Routes.edit.
    by destruct (Routes.get_or_404 pid s).
  - intros s'. unfold Routes.edit.
    destruct (Routes.get_or_404 pid s); [|done].
    intros [= <-]. simpl.
    split; [|split; [|split; [done|split; [done|]]]].
    + rewrite <- list_fmap_compose. apply list_fmap_ext.
      intros i p _. simpl. by destruct (decide _).
    + rewrite <- list_fmap_compose. apply list_fmap_ext.
      intros i p _. simpl. by destruct (decide _).
    + induction (purchases s) as [|p l IH]; [constructor|].
      rewrite fmap_cons. constructor; [|done].
      destruct (decide (Purchase.id p = pid)) as [<-|]; done.
Qed.

(** ** Budget rows: lookup after creation *)

(** After [get_or_create_monthly_budget] the category and month look up to
    the returned row and every other category or month looks up as before.
    When the month had no row, exactly one row is added and it has the given
    default; when it had one, that row is returned, the default is ignored
    and nothing is written. *)
Theorem get_or_create_lookup cat m d s mb s' :
  get_or_create_monthly_budget cat m d s = Return mb s' ->
  find_budget (Category.id cat) m s' = Some mb
  /\ (forall c' m', (c', m') <> (Category.id cat, m) ->
        find_budget c' m' s' = find_budget c' m' s)
  /\ (find_budget (Category.id cat) m s = None ->
        monthly_budgets s' = monthly_budgets s ++ [mb]
        /\ mb_key mb = (Category.id cat, m)
        /\ MonthlyBudget.base_budget mb = d)
  /\ (forall r, find_budget (Category.id cat) m s = Some r ->
        mb = r /\ s' = s)
  /\ purchases s' = purchases s /\ categories s' = categories s.
Proof.
  intros Hrun.
  destruct (get_or_create_spec cat m d s)
    as (mb' & s'' & Hrun' & Hf & He & Hd & Hfound).
  rewrite Hrun in Hrun'. injection Hrun' as <- <-.
  split; [done|]. revert Hrun. unfold get_or_create_monthly_budget.
  destruct (find_budget (Category.id cat) m s) as [r|] eqn:Hfs.
  - intros [= <- <-]. split; [done|]. split; [done|].
    split; [|done]. by intros r' [= ->].
  - intros [= <- <-]. split; [|by repeat split].
    intros c' m' Hne. unfold find_budget, add_budget. simpl.
    rewrite filter_app, filter_cons_False, filter_nil, app_nil_r; [done|].
    simpl. intros [<- <-]. done.
Qed.

Lemma get_or_create_lookup_witness :
  find_budget 1 Household.feb
    (state_after Household.fresh
       (get_or_create_monthly_budget Household.groceries Household.feb
          (Qc_of_Z 400) Household.fresh))
  = Some (MonthlyBudget.mk 1 1 Household.feb (Qc_of_Z 400)).
Proof.
  apply (get_or_create_lookup Household.groceries Household.feb (Qc_of_Z 400)
           Household.fresh).
  reflexivity.
Defined.

(** ** The walk: edge cases, backfill, and what it leaves alone *)

(** A category without any purchase and without any budget row has carry 0
    into every month, whatever the other categories hold, and asking
    writes nothing. *)
Theorem carry_zero_without_history cfg cat T s :
  purchases_of (Category.id cat) s = [] ->
  budgets_of (Category.id cat) s = [] ->
  cumulative_carry_until cfg cat T s = Return 0%Qc s.
Proof.
  intros Hp Hb. unfold cumulative_carry_until. rewrite bind_query.
  unfold activity_start, first_purchase_ts, first_budget_ts.
  by rewrite Hp, Hb.
Qed.

Lemma carry_zero_without_history_witness :
  cumulative_carry_until Household.cfg TwoCategories.pets Household.apr
    Household.budget_first = Return 0%Qc Household.budget_first.
Proof.
  apply (carry_zero_without_history Household.cfg TwoCategories.pets
           Household.apr Household.budget_first); reflexivity.
Defined.

Lemma read_loop_covers fuel cat T cur c s v m :
  read_loop fuel cat T cur c s = Some v ->
  is_month_start cur -> valid_datetime cur = true ->
  is_month_start m -> valid_datetime m = true ->
  (cur <= m)%dt -> (m < T)%dt ->
  is_Some (find_budget (Category.id cat) m s).
Proof.
  intros Hread Hc Hvc Hm Hvm Hle Hlt. revert cur c Hread Hc Hvc Hle.
  induction fuel as [|fuel IH]; intros cur c Hread Hc Hvc Hle;
    simpl in Hread;
    rewrite decide_True in Hread by (by eapply dt_le_lt_trans); [done|].
  destruct (next_month_start cur) as [nxt|e] eqn:Hn; [|done].
  destruct (find_budget (Category.id cat) cur s) as [mb|] eqn:Hf; [|done].
  apply dt_le_lteq in Hle as [Hlt'| ->]; [|by rewrite Hf].
  destruct (next_month_start_spec _ _ Hn) as (Hms & Hvn & _).
  eapply IH.
  - exact Hread.
  - exact Hms.
  - exact Hvn.
  - eapply next_month_start_le_month; [exact Hvc | exact Hn | exact Hm | exact Hvm | exact Hlt'].
Qed.

(** After a call that returned, every month of the calendar from the start
    of the walk up to, but not including, the target has its budget row. *)
Theorem walk_backfills_every_month cfg cat T s v s' start m :
  valid_db s ->
  activity_start cat s = Some start ->
  cumulative_carry_until cfg cat T s = Return v s' ->
  is_month_start m -> valid_datetime m = true ->
  (start <= m)%dt -> (m < T)%dt ->
  is_Some (find_budget (Category.id cat) m s').
Proof.
  intros Hdb Hs Hrun Hm Hvm Hle Hlt.
  destruct (activity_start_valid _ _ _ Hdb Hs) as [Hst Hvst].
  pose proof (cumulative_carry_until_spec _ _ _ _ _ _ Hrun) as Hspec.
  rewrite Hs in Hspec. destruct Hspec as (Hread & _ & _).
  by eapply read_loop_covers.
Qed.

Lemma walk_backfills_every_month_witness :
  is_Some (find_budget 1 Household.mar HouseholdRuns.after_apr).
Proof.
  apply (walk_backfills_every_month Household.cfg Household.groceries
           Household.apr HouseholdRuns.after_feb HouseholdRuns.carry_apr
           HouseholdRuns.after_apr Household.jan Household.mar).
  - split; repeat constructor.
  - vm_compute. reflexivity.
  - vm_compute. reflexivity.
  - reflexivity.
  - reflexivity.
  - vm_compute. discriminate.
  - reflexivity.
Defined.

Lemma extends_only_appends cat_id lo s s' :
  extends cat_id lo s s' -> only_appends cat_id s s'.
Proof.
  intros (Hc & Hp & e & He & Hall). repeat (split; [done|]).
  exists e. split; [done|]. eapply Forall_impl; [done|]. by intros mb [? _].
Qed.

Lemma carry_loop_ends_extends fuel cfg cat T cur c s s' :
  ends_in (carry_loop fuel cfg cat T cur c s) s' ->
  extends (Category.id cat) cur s s'.
Proof.
  revert cur c s. induction fuel as [|fuel IH]; intros cur c s;
    (destruct (decide (cur < T)%dt) as [Hlt|Hlt];
      [|rewrite carry_loop_done by done;
        intros [[a [= _ <-]]|[e [=]]]; apply extends_refl]).
  - rewrite carry_loop_O by done. by intros [[a [=]]|[e [=]]].
  - destruct (next_month_start cur) as [nxt|e] eqn:Hn.
    + destruct (carry_loop_step fuel cfg cat T cur nxt c s Hlt Hn)
        as (mb & s1 & _ & _ & He & ->).
      intros Hend%IH. eapply extends_trans; [|done|done].
      by apply dt_lt_le, next_month_start_gt.
    + rewrite (carry_loop_raise _ _ _ _ _ _ _ e) by done.
      intros [[a [=]]|[e' [= _ <-]]]. apply extends_refl.
Qed.

Lemma only_appends_trans cat_id s1 s2 s3 :
  only_appends cat_id s1 s2 -> only_appends cat_id s2 s3 ->
  only_appends cat_id s1 s3.
Proof.
  intros (Hc1 & Hp1 & e1 & He1 & Hf1) (Hc2 & Hp2 & e2 & He2 & Hf2).
  split; [congruence|]. split; [congruence|].
  exists (e1 ++ e2). split; [by rewrite He2, He1, app_assoc|].
  by apply Forall_app.
Qed.

Lemma cumulative_carry_until_ends cfg cat T s s' :
  ends_in (cumulative_carry_until cfg cat T s) s' ->
  only_appends (Category.id cat) s s'.
Proof.
  unfold cumulative_carry_until. rewrite bind_query.
  destruct (activity_start cat s) as [start|].
  - intros He%carry_loop_ends_extends. by eapply extends_only_appends.
  - intros [[a [= _ <-]]|[e [=]]].
    eapply extends_only_appends, (extends_refl _ T).
Qed.

(** The engine only ever appends budget rows of the category it is asked
    about: whether [cumulative_carry_until] or [current_month_summary]
    returns or raises, the purchases and the categories are as they were and
    every budget row that was there is still there, unchanged and in place. *)
Theorem engine_only_appends cfg cat T now_utc s s' :
  (ends_in (cumulative_carry_until cfg cat T s) s' ->
   only_appends (Category.id cat) s s')
  /\ (ends_in (current_month_summary cfg cat now_utc s) s' ->
      only_appends (Category.id cat) s s').
Proof.
  split; [apply cumulative_carry_until_ends|].
  pose proof (current_month_summary_cases cfg cat now_utc s) as Hc.
  destruct (next_month_start (month_start now_utc)) as [nxt|e] eqn:Hn.
  - destruct Hc as (mb & s_a & Hb & _ & He%extends_only_appends & Hc).
    destruct (cumulative_carry_until cfg cat (month_start now_utc) s_a)
      as [v s1|e s1|] eqn:Hrun; [| |done]; rewrite Hc.
    + intros [[a [= _ <-]]|[e [=]]]. eapply only_appends_trans; [done|].
      apply (cumulative_carry_until_ends cfg cat (month_start now_utc)).
      rewrite Hrun. left. eauto.
    + intros [[a [=]]|[e' [= _ <-]]]. eapply only_appends_trans; [done|].
      apply (cumulative_carry_until_ends cfg cat (month_start now_utc)).
      rewrite Hrun. right. eauto.
  - rewrite Hc. intros [[a [=]]|[e' [= _ <-]]].
    eapply extends_only_appends, (extends_refl _ T).
Qed.

(** ** The constraints of the budget table *)

Lemma next_id_above rows mb :
  mb ∈ rows -> MonthlyBudget.id mb < next_id rows.
Proof.
  unfold next_id. induction rows as [|r rows IH]; simpl.
  - by intros ?%elem_of_nil.
  - intros [->|Hin]%elem_of_cons; [lia|]. apply IH in Hin. lia.
Qed.

Lemma get_or_create_constraints cat m d s mb s' :
  get_or_create_monthly_budget cat m d s = Return mb s' ->
  budget_constraints s -> budget_constraints s'.
Proof.
  intros Hrun [Hu Hid]. split; [by eapply get_or_create_uniq|].
  revert Hrun. unfold get_or_create_monthly_budget, budget_ids_unique in *.
  destruct (find_budget _ _ _); intros [= <- <-]; [done|].
  simpl. rewrite fmap_app. apply NoDup_app.
  split; [done|]. split; [|apply NoDup_singleton].
  intros i (r & -> & Hr)%list_elem_of_fmap Heq%list_elem_of_singleton.
  apply next_id_above in Hr. simpl in Heq. lia.
Qed.

Lemma resolve_budget_constraints cfg cat cur s mb s' :
  resolve_budget cfg cat cur s = Return mb s' ->
  budget_constraints s -> budget_constraints s'.
Proof.
  unfold resolve_budget. rewrite bind_query.
  destruct (prev_budget _ _ _); apply get_or_create_constraints.
Qed.

Lemma carry_loop_ends_constraints fuel cfg cat T cur c s s' :
  ends_in (carry_loop fuel cfg cat T cur c s) s' ->
  budget_constraints s -> budget_constraints s'.
Proof.
  revert cur c s. induction fuel as [|fuel IH]; intros cur c s;
    (destruct (decide (cur < T)%dt) as [Hlt|Hlt];
      [|rewrite carry_loop_done by done;
        by intros [[a [= _ <-]]|[e [=]]]]).
  - rewrite carry_loop_O by done. by intros [[a [=]]|[e [=]]].
  - destruct (next_month_start cur) as [nxt|e] eqn:Hn.
    + destruct (carry_loop_step fuel cfg cat T cur nxt c s Hlt Hn)
        as (mb & s1 & Hr & _ & _ & ->).
      intros Hend Hinv. eapply IH; [done|].
      by eapply resolve_budget_constraints.
    + rewrite (carry_loop_raise _ _ _ _ _ _ _ e) by done.
      by intros [[a [=]]|[e' [= _ <-]]].
Qed.

Lemma cumulative_carry_until_ends_constraints cfg cat T s s' :
  ends_in (cumulative_carry_until cfg cat T s) s' ->
  budget_constraints s -> budget_constraints s'.
Proof.
  unfold cumulative_carry_until. rewrite bind_query.
  destruct (activity_start cat s) as [start|].
  - apply carry_loop_ends_constraints.
  - by intros [[a [= _ <-]]|[e [=]]].
Qed.

(** The engine never breaks a constraint of the budget table: starting
    from a table with unique primary keys and at most one row per category
    and month, [cumulative_carry_until] and [current_month_summary] end,
    by a return or by an exception, in a table that has both properties, so
    no insert of theirs can be rejected. *)
Theorem engine_keeps_constraints cfg cat T now_utc s s' :
  budget_constraints s ->
  (ends_in (cumulative_carry_until cfg cat T s) s' -> budget_constraints s')
  /\ (ends_in (current_month_summary cfg cat now_utc s) s' ->
      budget_constraints s').
Proof.
  intros Hinv. split; [by intros ?%cumulative_carry_until_ends_constraints|].
  pose proof (current_month_summary_cases cfg cat now_utc s) as Hc.
  destruct (next_month_start (month_start now_utc)) as [nxt|e] eqn:Hn.
  - destruct Hc as (mb & s_a & Hb & _ & _ & Hc).
    assert (budget_constraints s_a) as Hinv_a.
    { revert Hb. rewrite base_this_month_resolve.
      intros (mb' & s1 & Hr & [= _ <-])%bind_Return.
      by eapply resolve_budget_constraints. }
    destruct (cumulative_carry_until cfg cat (month_start now_utc) s_a)
      as [v s1|e s1|] eqn:Hrun; [| |done]; rewrite Hc.
    + intros [[a [= _ <-]]|[e [=]]].
      eapply (cumulative_carry_until_ends_constraints cfg cat
                (month_start now_utc) s_a); [|done].
      rewrite Hrun. left. eauto.
    + intros [[a [=]]|[e' [= _ <-]]].
      eapply (cumulative_carry_until_ends_constraints cfg cat
                (month_start now_utc) s_a); [|done].
      rewrite Hrun. right. eauto.
  - rewrite Hc. by intros [[a [=]]|[e' [= _ <-]]].
Qed.

Lemma engine_keeps_constraints_witness :
  budget_constraints Overspent.after.
Proof.
  destruct (engine_keeps_constraints Household.cfg Household.groceries
              Household.apr Overspent.now_feb Overspent.overspent
              Overspent.after) as [_ H].
  - split; constructor.
  - apply H. left. exists Overspent.feb_summary. vm_compute. reflexivity.
Defined.

(** ** The summary *)

(** In December of year 9999 the summary raises [ValueError] before it has
    read or written anything; at every other instant, on a database of
    datetimes, it returns. *)
Theorem summary_raises_only_in_december_9999 cfg cat now_utc s :
  valid_db s -> valid_datetime now_utc = true ->
  (year now_utc = MAXYEAR /\ month now_utc = 12 ->
   current_month_summary cfg cat now_utc s = Throw ValueError s)
  /\ (~ (year now_utc = MAXYEAR /\ month now_utc = 12) ->
      exists sm s1, current_month_summary cfg cat now_utc s = Return sm s1).
Proof.
  intros Hdb Hv. split.
  - intros [Hy Hm]. unfold current_month_summary, next_month_start, checked.
    simpl. rewrite Hy, Hm. reflexivity.
  - by apply current_month_summary_returns.
Qed.

Lemma summary_raises_only_in_december_9999_witness :
  current_month_summary Household.cfg Household.groceries
    (mk_datetime 9999 12 31 23 59 59 999999) Household.fresh
  = Throw ValueError Household.fresh.
Proof.
  destruct (summary_raises_only_in_december_9999 Household.cfg
              Household.groceries (mk_datetime 9999 12 31 23 59 59 999999)
              Household.fresh) as [H _].
  - split; repeat constructor.
  - reflexivity.
  - apply H. split; reflexivity.
Defined.

Lemma activity_start_le_row cat s r m :
  valid_db s ->
  find_budget (Category.id cat) m s = Some r ->
  (forall t, first_purchase_ts (Category.id cat) s = Some t ->
             (month_start t <= m)%dt) ->
  exists start, activity_start cat s = Some start /\ (start <= m)%dt.
Proof.
  intros [_ Hvb] Hf Hfirst. unfold activity_start, py_or.
  destruct (first_purchase_ts (Category.id cat) s) as [t|]; [eauto|].
  assert (r ∈ budgets_of (Category.id cat) s /\ MonthlyBudget.month_start r = m)
    as [Hr Hm].
  { rewrite find_budget_budgets_of in Hf.
    assert (r ∈ filter (fun mb => MonthlyBudget.month_start mb = m)
                  (budgets_of (Category.id cat) s)) as Hin.
    { destruct (filter _ _) as [|x l]; [done|]. injection Hf as ->. by left. }
    apply list_elem_of_filter in Hin as [? ?]. done. }
  unfold first_budget_ts.
  destruct (min_dt_is_Some
              (MonthlyBudget.month_start <$> budgets_of (Category.id cat) s))
    as [F HF].
  { intros Hnil. apply fmap_nil_inv in Hnil. rewrite Hnil in Hr.
    by apply elem_of_nil in Hr. }
  rewrite HF. simpl. eexists. split; [done|].
  apply min_dt_spec in HF as [HFin HFle].
  eapply dt_le_trans.
  - apply month_start_le_self.
    apply list_elem_of_fmap in HFin as (mb & -> & Hmb).
    apply list_elem_of_filter in Hmb as [_ Hmb].
    by eapply Forall_forall in Hvb.
  - rewrite <- Hm. apply HFle. apply list_elem_of_fmap. eauto.
Qed.

(** The floor of the effective budget forgives nothing: after the summary
    of a month, the carry into the next month is this month's carry plus its
    base minus its spend, also when the effective budget shown was 0.  The
    first purchase of the category must not be dated after the month. *)
Theorem deficit_carries_into_next_month cfg cat now_utc s sm s1 nxt :
  valid_db s -> valid_datetime now_utc = true ->
  (forall t, first_purchase_ts (Category.id cat) s = Some t ->
             (month_start t <= month_start now_utc)%dt) ->
  current_month_summary cfg cat now_utc s = Return sm s1 ->
  next_month_start (month_start now_utc) = Ok nxt ->
  cumulative_carry_until cfg cat nxt s1
  = Return (carry_in sm + (base sm - spent sm))%Qc s1.
Proof.
  intros Hdb Hv Hfirst Hsum Hn.
  pose proof (current_month_summary_cases cfg cat now_utc s) as Hc.
  rewrite Hn in Hc. destruct Hc as (mb & s_a & Hb & Hf & He & Hc).
  destruct (cumulative_carry_until cfg cat (month_start now_utc) s_a)
    as [v s1'|e s1'|] eqn:Hrun; [|by rewrite Hc in Hsum|done].
  rewrite Hc in Hsum. injection Hsum as <- <-. simpl.
  assert (valid_db s_a) as Hdb_a.
  { revert Hb. rewrite base_this_month_resolve.
    intros (mb' & s2 & Hr & [= _ <-])%bind_Return.
    eapply resolve_budget_valid; [done | by apply month_start_valid | done]. }
  destruct (activity_start_le_row cat s_a mb (month_start now_utc) Hdb_a Hf)
    as (start & Hs & Hle).
  { intros t. rewrite (first_purchase_extends _ _ _ _ _ He). apply Hfirst. }
  destruct (activity_start_valid _ _ _ Hdb_a Hs) as [Hst Hvst].
  pose proof (cumulative_carry_until_spec _ _ _ _ _ _ Hrun) as Hspec.
  rewrite Hs in Hspec. destruct Hspec as (Hread & He1 & Hs1).
  pose proof (find_budget_extends _ _ _ _ _ _ _ He1 Hf) as Hf1.
  rewrite (cumulative_carry_until_fuel
             (S (walk_fuel start (month_start now_utc))) cfg cat nxt s1' start
             Hs1);
    rewrite (carry_loop_split _ _ _ _ _ _ _ _ _ _
               (month_start_is_month_start now_utc)
               (month_start_valid _ Hv) Hn Hst Hvst Hle
               (read_loop_carry_loop _ cfg _ _ _ _ _ _ Hread));
    destruct (carry_step_spec cfg cat (month_start now_utc) nxt v s1')
      as (mb' & t' & Hr' & _ & _ & ->);
    rewrite (resolve_budget_found _ _ _ _ _ Hf1) in Hr';
    injection Hr' as <- <-; [|done].
  rewrite (month_spend_extends _ _ _ _ _ _ _ He1).
  by rewrite (month_spend_extends _ _ _ _ _ _ _ He).
Qed.

Lemma deficit_carries_into_next_month_witness :
  cumulative_carry_until Household.cfg Household.groceries Household.mar
    Overspent.after
  = Return (carry_in Overspent.feb_summary
            + (base Overspent.feb_summary - spent Overspent.feb_summary))%Qc
           Overspent.after
  /\ (carry_in Overspent.feb_summary
      + (base Overspent.feb_summary - spent Overspent.feb_summary))%Qc
     = Qc_of_Z (-220).
Proof.
  split.
  - apply (deficit_carries_into_next_month Household.cfg Household.groceries
             Overspent.now_feb Overspent.overspent).
    + split; repeat constructor.
    + reflexivity.
    + intros t [= <-]. vm_compute. discriminate.
    + vm_compute. reflexivity.
    + reflexivity.
  - apply Qc_is_canon. vm_compute. reflexivity.
Defined.

(** Logging the first purchase of a category restarts its walk: the carry
    into the month of that purchase is then 0, whatever the budget rows of
    earlier months had accumulated. *)
Theorem first_purchase_resets_carry cfg cat name amount now_utc s :
  purchases_of (Category.id cat) s = [] ->
  name <> EmptyString ->
  cumulative_carry_until cfg cat (month_start now_utc)
    (Routes.add (Category.id cat) name amount now_utc s)
  = Return 0%Qc (Routes.add (Category.id cat) name amount now_utc s).
Proof.
  intros Hp Hname. unfold cumulative_carry_until. rewrite bind_query.
  assert (activity_start cat
            (Routes.add (Category.id cat) name amount now_utc s)
          = Some (month_start now_utc)) as ->.
  { unfold Routes.add. rewrite decide_False by done.
    unfold activity_start, first_purchase_ts, purchases_of in *. simpl.
    rewrite filter_app, Hp. simpl. by rewrite filter_cons_True. }
  apply carry_loop_done, dt_lt_irrefl.
Qed.

Lemma first_purchase_resets_carry_witness :
  cumulative_carry_until Household.cfg Household.groceries Household.mar
    Household.budget_only = Return (Qc_of_Z 100 + Qc_of_Z 100)%Qc
      (state_after Household.budget_only
         (cumulative_carry_until Household.cfg Household.groceries
            Household.mar Household.budget_only))
  /\ cumulative_carry_until Household.cfg Household.groceries
       (month_start (mk_datetime 2024 3 10 9 30 0 0))
       (Routes.add 1 "market" (Qc_of_Z 30) (mk_datetime 2024 3 10 9 30 0 0)
          Household.budget_only)
     = Return 0%Qc
         (Routes.add 1 "market" (Qc_of_Z 30) (mk_datetime 2024 3 10 9 30 0 0)
            Household.budget_only).
Proof.
  split.
  - vm_compute. reflexivity.
  - apply (first_purchase_resets_carry Household.cfg Household.groceries
             "market" (Qc_of_Z 30) (mk_datetime 2024 3 10 9 30 0 0)
             Household.budget_only); [reflexivity | discriminate].
Defined.

Lemma Qcopp_minus_nonpos e sp : (- (e - sp) <= 0)%Qc <-> (sp <= e)%Qc.
Proof.
  rewrite (Qcle_minus_iff (- (e - sp)) 0), (Qcle_minus_iff sp e).
  by replace (0 + - - (e - sp))%Qc with (e + - sp)%Qc by ring.
Qed.

Lemma Qcopp_minus_pos e sp : (0 < - (e - sp))%Qc <-> (e < sp)%Qc.
Proof.
  rewrite (Qclt_minus_iff 0 (- (e - sp))), (Qclt_minus_iff e sp).
  by replace (- (e - sp) + - 0)%Qc with (sp + - e)%Qc by ring.
Qed.

Lemma hundred_pos : (0 < hundred)%Qc.
Proof. done. Qed.

Lemma pct_over_hundred sp e :
  (0 < e)%Qc -> (hundred < sp / e * hundred)%Qc <-> (e < sp)%Qc.
Proof.
  intros He.
  assert (e <> 0%Qc) as Hne.
  { intros ->. by apply Qclt_not_eq in He. }
  rewrite <- (Qcmult_1_l hundred) at 1.
  rewrite <- (Qcmult_lt_mono_pos_r _ _ _ hundred_pos).
  rewrite (Qcmult_lt_mono_pos_l _ _ _ He).
  by rewrite Qcmult_1_r, Qcmult_div_r.
Qed.

(** How the figures of a summary hang together.  What remains is the
    effective budget less the spend.  Either the spend is within the
    effective budget, and then nothing is over and what remains is not
    negative; or it exceeds it, and then [over_by] is the excess and what
    remains is negative.  With a positive effective budget, the percentage
    is above 100 exactly when something is over. *)
Theorem summary_figures_agree cfg cat now_utc s sm s1 :
  current_month_summary cfg cat now_utc s = Return sm s1 ->
  remaining sm = (effective sm - spent sm)%Qc
  /\ (((spent sm <= effective sm)%Qc
       /\ over_by sm = 0%Qc /\ (0 <= remaining sm)%Qc)
      \/ ((effective sm < spent sm)%Qc
          /\ over_by sm = (spent sm - effective sm)%Qc
          /\ (0 < over_by sm)%Qc /\ (remaining sm < 0)%Qc))
  /\ ((0 < effective sm)%Qc ->
      ((hundred < pct sm)%Qc <-> (0 < over_by sm)%Qc)
      /\ ((hundred < pct sm)%Qc <-> (effective sm < spent sm)%Qc)).
Proof.
  intros Hsum.
  pose proof (current_month_summary_cases cfg cat now_utc s) as Hc.
  destruct (next_month_start (month_start now_utc)) as [nxt|e];
    [|by rewrite Hc in Hsum].
  destruct Hc as (mb & s_a & _ & _ & _ & Hc).
  destruct (cumulative_carry_until cfg cat (month_start now_utc) s_a)
    as [v s1'|e s1'|] eqn:Hrun; [|by rewrite Hc in Hsum|done].
  rewrite Hc in Hsum. injection Hsum as <- <-. simpl.
  set (eff := py_max 0%Qc (MonthlyBudget.base_budget mb + v)%Qc).
  set (sp := month_spend_for_category (Category.id cat)
               (month_start now_utc) nxt s).
  assert (((sp <= eff)%Qc /\ py_max 0 (- (eff - sp)) = 0%Qc
           /\ (0 <= eff - sp)%Qc)
          \/ ((eff < sp)%Qc /\ py_max 0 (- (eff - sp)) = (sp - eff)%Qc
              /\ (0 < py_max 0 (- (eff - sp)))%Qc /\ (eff - sp < 0)%Qc))
    as Hcases.
  { destruct (py_max_cases (- (eff - sp))%Qc) as [[Hle ->]|[Hlt ->]].
    - left. pose proof (proj1 (Qcopp_minus_nonpos eff sp) Hle) as Hle'.
      split; [done|]. split; [done|].
      exact (proj1 (Qcle_minus_iff sp eff) Hle').
    - right. pose proof (proj1 (Qcopp_minus_pos eff sp) Hlt) as Hlt'.
      split; [done|]. split; [ring|]. split; [done|].
      apply (Qclt_minus_iff (eff - sp) 0).
      by replace (0 + - (eff - sp))%Qc with (- (eff - sp))%Qc by ring. }
  split; [done|]. split; [exact Hcases|].
  intros Heff. rewrite decide_False by by apply Qclt_not_le.
  rewrite pct_over_hundred by done. split; [|done].
  destruct Hcases as [(Hle & -> & _)|(Hlt & _ & Hpos & _)].
  - split; [intros Hlt; by apply Qclt_not_le in Hlt | done].
  - done.
Qed.

Lemma summary_figures_agree_witness :
  remaining Overspent.feb_summary
  = (effective Overspent.feb_summary - spent Overspent.feb_summary)%Qc
  /\ (0 < over_by Overspent.feb_summary)%Qc.
Proof.
  destruct (summary_figures_agree Household.cfg Household.groceries
              Overspent.now_feb Overspent.overspent Overspent.feb_summary
              Overspent.after) as (H1 & _ & _).
  - vm_compute. reflexivity.
  - split; [exact H1 | done].
Defined.

(** ** Logging a purchase and asking again *)

Lemma add_with_purchase cat_id name amount now_utc s :
  name <> EmptyString ->
  Routes.add cat_id name amount now_utc s
  = with_purchase (Purchase.mk (next_purchase_id (purchases s)) cat_id name
                     amount now_utc) s.
Proof. intros Hname. unfold Routes.add. by rewrite decide_False. Qed.

Lemma month_spend_with_purchase c a b p s :
  month_spend_for_category c a b (with_purchase p s)
  = (month_spend_for_category c a b s
     + (if decide (Purchase.category_id p = c /\ (a <= Purchase.ts p)%dt
                   /\ (Purchase.ts p < b)%dt)
        then Purchase.amount p else 0))%Qc.
Proof.
  unfold month_spend_for_category, with_purchase. simpl.
  rewrite filter_app, sum_amounts_app. f_equal.
  rewrite filter_cons, filter_nil.
  destruct (decide _); [|done]. unfold sum_amounts. simpl. ring.
Qed.

Lemma resolve_budget_with_purchase cfg cat cur p s mb s' :
  resolve_budget cfg cat cur s = Return mb s' ->
  resolve_budget cfg cat cur (with_purchase p s)
  = Return mb (with_purchase p s').
Proof.
  unfold resolve_budget. rewrite !bind_query.
  change (prev_budget (Category.id cat) cur (with_purchase p s))
    with (prev_budget (Category.id cat) cur s).
  assert (forall d,
            get_or_create_monthly_budget cat cur d s = Return mb s' ->
            get_or_create_monthly_budget cat cur d (with_purchase p s)
            = Return mb (with_purchase p s')) as Hg.
  { intros d. unfold get_or_create_monthly_budget.
    change (find_budget (Category.id cat) cur (with_purchase p s))
      with (find_budget (Category.id cat) cur s).
    destruct (find_budget _ _ s); by intros [= <- <-]. }
  destruct (prev_budget _ _ s); apply Hg.
Qed.

(** A purchase dated at or after the target is invisible to the walk. *)
Lemma carry_loop_with_purchase fuel cfg cat T cur c p s v s' :
  is_month_start T -> valid_datetime T = true ->
  (T <= Purchase.ts p)%dt ->
  is_month_start cur -> valid_datetime cur = true ->
  carry_loop fuel cfg cat T cur c s = Return v s' ->
  carry_loop fuel cfg cat T cur c (with_purchase p s)
  = Return v (with_purchase p s').
Proof.
  intros HT HvT Hp. revert cur c s.
  induction fuel as [|fuel IH]; intros cur c s Hc Hvc;
    (destruct (decide (cur < T)%dt) as [Hlt|Hlt];
      [|rewrite !carry_loop_done by done; by intros [= <- <-]]).
  - by rewrite carry_loop_O.
  - destruct (next_month_start cur) as [nxt|e] eqn:Hn;
      [|by rewrite (carry_loop_raise _ _ _ _ _ _ _ e)].
    destruct (carry_loop_step fuel cfg cat T cur nxt c s Hlt Hn)
      as (mb & s1 & Hr & _ & _ & ->).
    destruct (carry_loop_step fuel cfg cat T cur nxt c (with_purchase p s)
                Hlt Hn) as (mb' & s1' & Hr' & _ & _ & ->).
    rewrite (resolve_budget_with_purchase _ _ _ p _ _ _ Hr) in Hr'.
    injection Hr' as <- <-.
    rewrite month_spend_with_purchase, decide_False, Qcplus_0_r.
    + destruct (next_month_start_spec _ _ Hn) as (Hms & Hvn & _).
      by apply IH.
    + intros (_ & _ & Hlt'). apply dt_not_lt in Hlt'; [done|].
      eapply dt_le_trans; [|done].
      by eapply next_month_start_le_month.
Qed.

Lemma first_purchase_with_purchase cat_id p s t :
  first_purchase_ts cat_id s = Some t ->
  (t <= Purchase.ts p)%dt ->
  first_purchase_ts cat_id (with_purchase p s) = Some t.
Proof.
  unfold first_purchase_ts, purchases_of, with_purchase. simpl.
  intros [Hin Hle]%min_dt_spec Htp. apply min_dt_spec.
  rewrite filter_app, fmap_app. split.
  - apply elem_of_app. by left.
  - intros x [Hx|Hx]%elem_of_app; [by apply Hle|].
    rewrite filter_cons, filter_nil in Hx.
    destruct (decide _); [|by apply elem_of_nil in Hx].
    by apply list_elem_of_singleton in Hx as ->.
Qed.

Lemma Qcminus_more e sp a :
  (0 <= a)%Qc -> (e - (sp + a) <= e - sp)%Qc.
Proof.
  intros Ha. apply Qcle_minus_iff.
  by replace (e - sp + - (e - (sp + a)))%Qc with a by ring.
Qed.

(** For a category that already has a purchase, logging one more now
    changes the summary of the month in its spend only: the spend is the
    old spend plus the amount, what remains is the effective budget less
    that new spend, and so is not more than before when the amount is
    not negative; base, carry and effective budget are as before, and
    the two orders of logging and asking leave the same database. *)
Theorem purchase_lowers_remaining cfg cat now_utc name amount s sm s1 t :
  valid_db s -> valid_datetime now_utc = true ->
  name <> EmptyString ->
  first_purchase_ts (Category.id cat) s = Some t -> (t <= now_utc)%dt ->
  current_month_summary cfg cat now_utc s = Return sm s1 ->
  let sm' := summary_of (base sm) (carry_in sm) (spent sm + amount)%Qc in
  current_month_summary cfg cat now_utc
    (Routes.add (Category.id cat) name amount now_utc s)
  = Return sm' (Routes.add (Category.id cat) name amount now_utc s1)
  /\ effective sm' = effective sm
  /\ remaining sm' = (effective sm - (spent sm + amount))%Qc
  /\ ((0 <= amount)%Qc -> (remaining sm' <= remaining sm)%Qc).
Proof.
  intros Hdb Hv Hname Ht Htn Hsum. simpl.
  pose proof (current_month_summary_cases cfg cat now_utc s) as Hc.
  destruct (next_month_start (month_start now_utc)) as [nxt|e] eqn:Hn;
    [|by rewrite Hc in Hsum].
  destruct Hc as (mb & s_a & Hb & Hf & He & Hc).
  destruct (cumulative_carry_until cfg cat (month_start now_utc) s_a)
    as [v s1'|e s1'|] eqn:Hrun; [|by rewrite Hc in Hsum|done].
  rewrite Hc in Hsum. injection Hsum as <- <-. simpl.
  split; [|split; [done|split; [done|apply Qcminus_more]]].
  destruct (cumulative_carry_until_extends _ _ _ _ _ _ Hrun)
    as (_ & lo & He1).
  assert (purchases s1' = purchases s) as Hpur.
  { destruct He1 as (_ & -> & _). by destruct He as (_ & -> & _). }
  rewrite !add_with_purchase by done. rewrite Hpur.
  set (p := Purchase.mk (next_purchase_id (purchases s)) (Category.id cat)
              name amount now_utc).
  assert (valid_db s_a) as Hdb_a.
  { revert Hb. rewrite base_this_month_resolve.
    intros (mb' & s2 & Hr & [= _ <-])%bind_Return.
    eapply resolve_budget_valid; [done | by apply month_start_valid | done]. }
  assert (base_this_month cfg cat (month_start now_utc) (with_purchase p s)
          = Return (MonthlyBudget.base_budget mb) (with_purchase p s_a))
    as Hb'.
  { revert Hb. rewrite !base_this_month_resolve.
    intros (mb' & s2 & Hr & [= Hbase <-])%bind_Return.
    unfold bind. rewrite (resolve_budget_with_purchase _ _ _ p _ _ _ Hr).
    unfold ret. by rewrite Hbase. }
  rewrite (current_month_summary_unfold _ _ _ _ _ _ _ Hn Hb').
  assert (cumulative_carry_until cfg cat (month_start now_utc)
            (with_purchase p s_a) = Return v (with_purchase p s1')) as ->.
  { revert Hrun. unfold cumulative_carry_until. rewrite !bind_query.
    assert (activity_start cat (with_purchase p s_a) = activity_start cat s_a)
      as ->.
    { unfold activity_start.
      change (first_budget_ts (Category.id cat) (with_purchase p s_a))
        with (first_budget_ts (Category.id cat) s_a).
      rewrite (first_purchase_with_purchase _ p s_a t); [| |done].
      - by rewrite (first_purchase_extends _ _ _ _ _ He), Ht.
      - by rewrite (first_purchase_extends _ _ _ _ _ He). }
    destruct (activity_start cat s_a) as [start|] eqn:Hs;
      [|by intros [= <- <-]].
    destruct (activity_start_valid _ _ _ Hdb_a Hs) as [Hst Hvst].
    apply carry_loop_with_purchase;
      [apply month_start_is_month_start | by apply month_start_valid
       | by apply month_start_le_self | done | done]. }
  f_equal. f_equal. rewrite month_spend_with_purchase.
  rewrite decide_True.
  - simpl. f_equal.
    rewrite (month_spend_extends _ _ _ _ _ _ _ He1).
    by rewrite (month_spend_extends _ _ _ _ _ _ _ He).
  - simpl. split; [done|]. split; [by apply month_start_le_self|].
    by apply (next_month_start_gt now_utc).
Qed.

Lemma purchase_lowers_remaining_witness :
  let sm' := summary_of (base Overspent.feb_summary)
               (carry_in Overspent.feb_summary)
               (spent Overspent.feb_summary + Qc_of_Z 12)%Qc in
  current_month_summary Household.cfg Household.groceries Overspent.now_feb
    (Routes.add 1 "cheese" (Qc_of_Z 12) Overspent.now_feb Overspent.overspent)
  = Return sm'
      (Routes.add 1 "cheese" (Qc_of_Z 12) Overspent.now_feb Overspent.after)
  /\ effective sm' = effective Overspent.feb_summary
  /\ remaining sm'
     = (effective Overspent.feb_summary
        - (spent Overspent.feb_summary + Qc_of_Z 12))%Qc
  /\ ((0 <= Qc_of_Z 12)%Qc ->
      (remaining sm' <= remaining Overspent.feb_summary)%Qc).
Proof.
  apply (purchase_lowers_remaining Household.cfg Household.groceries
           Overspent.now_feb "cheese" (Qc_of_Z 12) Overspent.overspent
           Overspent.feb_summary Overspent.after
           (mk_datetime 2024 1 10 9 30 0 0)).
  - split; repeat constructor.
  - reflexivity.
  - discriminate.
  - reflexivity.
  - vm_compute. discriminate.
  - vm_compute. reflexivity.
Defined.

(** ** The display order *)

(** On categories whose names are written in ASCII, [sort_categories]
    orders by preferred position, then by lower-cased name: the result
    holds the same categories, no category in it sorts strictly below
    one that stands before it, categories with equal keys keep the order
    they came in, and sorting again changes nothing. *)
Theorem sort_categories_sorted_stable cats :
  Forall (fun c => ascii_name (Category.name c) = true) cats ->
  sort_categories cats ≡ₚ cats
  /\ StronglySorted
       (fun c d =>
          order_index (Category.name c) < order_index (Category.name d)
          \/ (order_index (Category.name c) = order_index (Category.name d)
              /\ String.leb (lower (Category.name c))
                   (lower (Category.name d)) = true))
       (sort_categories cats)
  /\ (forall k,
        filter (fun c => sort_key c = k) (sort_categories cats)
        = filter (fun c => sort_key c = k) cats)
  /\ sort_categories (sort_categories cats) = sort_categories cats.
Proof.
  intros _. split; [apply sort_categories_perm|]. split; [|split].
  - eapply strongly_sorted_impl; [|apply sort_categories_strongly_sorted].
    intros c d Hle%key_le_cmp. revert Hle. unfold key_cmp, sort_key. simpl.
    unfold String.leb.
    destruct (Z.compare_spec (order_index (Category.name c))
                (order_index (Category.name d))); [|by left|done].
    intros Hs. right. split; [done|].
    by destruct (String.compare _ _).
  - intros k. unfold sort_categories.
    induction cats as [|c cats IH]; simpl; [done|].
    by rewrite insert_sorted_filter, !filter_cons, IH.
  - apply sort_categories_fixed, sort_categories_strongly_sorted.
Qed.

Lemma sort_categories_sorted_stable_witness :
  sort_categories Rounding.retabled ≡ₚ Rounding.retabled
  /\ sort_categories Rounding.retabled = Rounding.retabled
  /\ sort_categories Rounding.table = Rounding.table.
Proof.
  split; [|by split].
  apply (sort_categories_sorted_stable Rounding.retabled).
  repeat constructor.
Defined.

Lemma index_of_Some x l i j :
  index_of x l i = Some j -> x ∈ l /\ i <= j < i + Z.of_nat (length l).
Proof.
  revert i. induction l as [|y l IH]; intros i; simpl; [done|].
  destruct (decide (y = x)) as [->|Hne].
  - intros [= <-]. split; [left | lia].
  - intros [Hin Hj]%IH. split; [by right | lia].
Qed.

Lemma index_of_None x l i : index_of x l i = None -> x ∉ l.
Proof.
  revert i. induction l as [|y l IH]; intros i; simpl.
  - intros _. apply not_elem_of_nil.
  - destruct (decide (y = x)) as [->|Hne]; [done|].
    intros Hn%IH. by apply not_elem_of_cons.
Qed.

Lemma order_index_preferred c :
  preferred c -> 0 <= order_index (Category.name c) < 5.
Proof.
  unfold preferred, order_index. intros Hin.
  destruct (index_of _ _ _) as [j|] eqn:Hj.
  - apply index_of_Some in Hj as [_ Hj]. simpl in *. lia.
  - by apply index_of_None in Hj.
Qed.

Lemma order_index_other c :
  ~ preferred c -> order_index (Category.name c) = 9999.
Proof.
  unfold preferred, order_index. intros Hnot.
  destruct (index_of _ _ _) as [j|] eqn:Hj; [|done].
  by apply index_of_Some in Hj as [Hin _].
Qed.

Lemma key_le_order_index c d :
  key_le c d -> order_index (Category.name c) <= order_index (Category.name d).
Proof.
  intros Hle%key_le_cmp. revert Hle. unfold key_cmp, sort_key. simpl.
  destruct (Z.compare_spec (order_index (Category.name c))
              (order_index (Category.name d))); [lia|lia|done].
Qed.

(** The categories named in [PREFERRED_ORDER] are listed before all the
    others: a category of the preferred list stands before every place
    of a category that is not on it, and never after one. *)
Theorem preferred_categories_come_first cats c d l1 l2 :
  c ∈ cats -> preferred c -> ~ preferred d ->
  sort_categories cats = l1 ++ d :: l2 ->
  c ∈ l1 /\ c ∉ l2.
Proof.
  intros Hc Hpc Hpd Hsplit.
  pose proof (sort_categories_strongly_sorted cats) as Hs.
  rewrite Hsplit in Hs.
  apply StronglySorted_app in Hs as (_ & _ & Hs).
  apply StronglySorted_cons in Hs as [Hall _].
  assert (c ∉ l2) as Hnot.
  { intros Hin. rewrite Forall_forall in Hall.
    apply Hall, key_le_order_index in Hin.
    rewrite (order_index_other d Hpd) in Hin.
    pose proof (order_index_preferred c Hpc). lia. }
  split; [|done].
  rewrite <- (sort_categories_perm cats), Hsplit in Hc.
  apply elem_of_app in Hc as [Hc|Hc]; [done|].
  apply elem_of_cons in Hc as [->|Hc]; done.
Qed.

Lemma preferred_categories_come_first_witness :
  Household.groceries ∈ [Household.groceries; Household.groceries]
  /\ Household.groceries ∉ @nil Category.t.
Proof.
  apply (preferred_categories_come_first
           [Household.groceries; TwoCategories.pets; Household.groceries]
           Household.groceries TwoCategories.pets
           [Household.groceries; Household.groceries] []).
  - left.
  - unfold preferred. vm_compute. repeat constructor.
  - vm_compute. intros H.
    repeat (apply elem_of_cons in H as [H|H]; [discriminate|]).
    by apply elem_of_nil in H.
  - vm_compute. reflexivity.
Defined.

Lemma NoDup_fmap_filter {A B} (f : A -> B) (P : A -> Prop)
    `{!forall x, Decision (P x)} l :
  NoDup (f <$> l) -> NoDup (f <$> filter P l).
Proof.
  induction l as [|x l IH]; simpl; [done|].
  intros [Hx Hl]%NoDup_cons. rewrite filter_cons.
  destruct (decide (P x)); [|by apply IH].
  simpl. apply NoDup_cons. split; [|by apply IH].
  intros (y & Hy & Hin%list_elem_of_filter)%list_elem_of_fmap.
  apply Hx, list_elem_of_fmap. exists y. tauto.
Qed.

(** ** Saving a budget on the admin page *)


Lemma find_budget_elem cat_id m s r :
  find_budget cat_id m s = Some r ->
  r ∈ monthly_budgets s /\ mb_key r = (cat_id, m).
Proof.
  unfold find_budget. intros Hh.
  assert (r ∈ filter (fun mb => MonthlyBudget.category_id mb = cat_id
                        /\ MonthlyBudget.month_start mb = m)
                (monthly_budgets s)) as Hin.
  { destruct (filter _ _); [done|]. injection Hh as ->. left. }
  apply list_elem_of_filter in Hin as [[<- <-] Hin]. done.
Qed.

Lemma find_budget_rewritten (f : MonthlyBudget.t -> MonthlyBudget.t)
    cat_id m cats rows ps :
  (forall r, mb_key (f r) = mb_key r) ->
  find_budget cat_id m (mk_db cats (f <$> rows) ps)
  = f <$> find_budget cat_id m (mk_db cats rows ps).
Proof.
  intros Hk. unfold find_budget. simpl.
  induction rows as [|r rows IH]; [done|].
  rewrite fmap_cons, !filter_cons.
  pose proof (Hk r) as Hr. unfold mb_key in Hr. injection Hr as Hc Hm.
  rewrite Hc, Hm. destruct (decide _); [done|apply IH].
Qed.

(** Saving a value for a category on the admin page makes it the base of
    the current month: the month's row, made on the spot when missing,
    holds the value, the summary reads it, the row of no other category
    or month changes, and neither the ledger nor the constraints of the
    budget table are touched. *)
Theorem admin_save_sets_this_month cfg c cur_start val s :
  budget_ids_unique s ->
  exists s',
    Routes.admin_save c cur_start val s = Return tt s'
    /\ (exists r, find_budget (Category.id c) cur_start s' = Some r
                  /\ MonthlyBudget.base_budget r = val)
    /\ base_this_month cfg c cur_start s' = Return val s'
    /\ (forall c' m', (c', m') <> (Category.id c, cur_start) ->
          find_budget c' m' s' = find_budget c' m' s)
    /\ purchases s' = purchases s /\ categories s' = categories s
    /\ budget_ids_unique s'
    /\ (uniq_cat_month s -> uniq_cat_month s').
Proof.
  intros Hid. unfold Routes.admin_save.
  destruct (get_or_create_spec c cur_start 0%Qc s)
    as (mb & s1 & Hrun & Hf1 & (Hc1 & Hp1 & _) & _ & _).
  assert (budget_ids_unique s1 /\ (uniq_cat_month s -> uniq_cat_month s1)
          /\ forall c' m', (c', m') <> (Category.id c, cur_start) ->
               find_budget c' m' s1 = find_budget c' m' s)
    as (Hid1 & Hu1 & Hother).
  { revert Hrun. unfold get_or_create_monthly_budget.
    destruct (find_budget (Category.id c) cur_start s) as [r|] eqn:Hfs;
      intros [= <- <-]; [done|].
    split; [|split].
    - unfold budget_ids_unique in *. simpl. rewrite fmap_app.
      apply NoDup_app. split; [done|]. split; [|apply NoDup_singleton].
      intros i (r & -> & Hr)%list_elem_of_fmap Heq%list_elem_of_singleton.
      apply next_id_above in Hr. simpl in Heq. lia.
    - intros Hu. unfold uniq_cat_month in *. simpl. rewrite fmap_app.
      apply NoDup_app. split; [done|]. split; [|apply NoDup_singleton].
      intros k Hk ->%list_elem_of_singleton.
      by apply find_budget_None_key in Hfs.
    - intros c' m' Hne. unfold find_budget, add_budget. simpl.
      rewrite filter_app, filter_cons_False, filter_nil, app_nil_r; [done|].
      simpl. intros [<- <-]. done. }
  unfold bind. rewrite Hrun.
  set (f := fun r : MonthlyBudget.t =>
              if decide (MonthlyBudget.id r = MonthlyBudget.id mb)
              then MonthlyBudget.mk (MonthlyBudget.id r)
                     (MonthlyBudget.category_id r)
                     (MonthlyBudget.month_start r) val
              else r).
  assert (forall r, mb_key (f r) = mb_key r) as Hkey.
  { intros r. unfold f. by destruct (decide _). }
  assert (forall r, MonthlyBudget.id (f r) = MonthlyBudget.id r) as Hfid.
  { intros r. unfold f. by destruct (decide _). }
  assert (forall c' m',
            find_budget c' m'
              (mk_db (categories s1) (f <$> monthly_budgets s1) (purchases s1))
            = f <$> find_budget c' m' s1) as Hmap.
  { intros c' m'. rewrite find_budget_rewritten by done. by destruct s1. }
  assert (find_budget (Category.id c) cur_start
            (mk_db (categories s1) (f <$> monthly_budgets s1) (purchases s1))
          = Some (f mb)) as Hf'.
  { by rewrite Hmap, Hf1. }
  assert (MonthlyBudget.base_budget (f mb) = val) as Hval.
  { unfold f. by rewrite decide_True. }
  eexists. split; [done|]. split; [by exists (f mb)|].
  split; [by rewrite (base_this_month_found _ _ _ _ _ Hf'), Hval|].
  split; [|split; [done|split; [done|split]]].
  - intros c' m' Hne. rewrite Hmap, <- (Hother c' m' Hne).
    destruct (find_budget c' m' s1) as [r|] eqn:Hr; [|done].
    simpl. f_equal. unfold f. rewrite decide_False; [done|].
    intros Heq. apply find_budget_elem in Hr as [Hr Hkr].
    apply find_budget_elem in Hf1 as [Hmb Hkmb].
    pose proof (NoDup_fmap_same _ _ _ _ Hid1 Hr Hmb Heq) as ->.
    rewrite Hkmb in Hkr. by injection Hkr as <- <-.
  - unfold budget_ids_unique in *. simpl. rewrite <- list_fmap_compose.
    erewrite list_fmap_ext; [exact Hid1|]. intros i r _. apply Hfid.
  - intros Hu%Hu1. unfold uniq_cat_month in *. simpl.
    rewrite <- list_fmap_compose.
    erewrite list_fmap_ext; [exact Hu|]. intros i r _. apply Hkey.
Qed.

Lemma admin_save_sets_this_month_witness :
  base_this_month Household.cfg Household.groceries Household.feb
    (state_after Household.fresh
       (Routes.admin_save Household.groceries Household.feb (Qc_of_Z 250)
          Household.fresh))
  = Return (Qc_of_Z 250)
      (state_after Household.fresh
         (Routes.admin_save Household.groceries Household.feb (Qc_of_Z 250)
            Household.fresh)).
Proof.
  destruct (admin_save_sets_this_month Household.cfg Household.groceries
              Household.feb (Qc_of_Z 250) Household.fresh)
    as (s' & Hrun & _ & Hbase & _).
  - apply NoDup_nil_2.
  - rewrite Hrun. exact Hbase.
Defined.

(** ** The walk reads only the months before its target *)

Lemma filter_by_data (Q : datetime -> Prop) `{HQ : !forall x, Decision (Q x)}
    (l l' : list MonthlyBudget.t) :
  row_data <$> l' = row_data <$> l ->
  row_data <$> filter (fun r => Q (MonthlyBudget.month_start r)) l'
  = row_data <$> filter (fun r => Q (MonthlyBudget.month_start r)) l.
Proof.
  revert l'. induction l as [|r l IH]; intros [|r' l']; try done.
  rewrite !fmap_cons. intros [= Hm Hb Hrest]. rewrite !filter_cons, Hm.
  destruct (decide _); [|by apply IH].
  rewrite !fmap_cons. unfold row_data at 1 3. rewrite Hm, Hb. f_equal.
  by apply IH.
Qed.

Lemma latest_by_data (l l' : list MonthlyBudget.t) :
  row_data <$> l' = row_data <$> l ->
  row_data <$> latest l' = row_data <$> latest l.
Proof.
  revert l'. induction l as [|r l IH]; intros [|r' l']; try done.
  rewrite !fmap_cons. intros [= Hm Hb Hrest]. simpl.
  specialize (IH l' Hrest).
  destruct (latest l') as [p'|], (latest l) as [p|]; try done.
  - injection IH as Hpm Hpb. rewrite Hm, Hpm.
    destruct (decide _); simpl; unfold row_data; congruence.
  - simpl. unfold row_data. congruence.
Qed.

Lemma prev_budget_same cat_id T cur s s' :
  same_below cat_id T s s' -> (cur < T)%dt ->
  row_data <$> prev_budget cat_id cur s' = row_data <$> prev_budget cat_id cur s.
Proof.
  intros [_ Hrows] Hlt. unfold prev_budget.
  assert (forall rows : list MonthlyBudget.t,
            filter (fun mb => MonthlyBudget.category_id mb = cat_id
                              /\ (MonthlyBudget.month_start mb <= cur)%dt) rows
            = filter (fun r => (MonthlyBudget.month_start r <= cur)%dt)
                (filter (fun r => MonthlyBudget.category_id r = cat_id
                                  /\ (MonthlyBudget.month_start r < T)%dt)
                        rows)) as Heq.
  { intros rows. rewrite list_filter_filter. apply list_filter_iff.
    intros r. split; [|tauto]. intros [Hc Hle].
    split; [done|]. split; [done|]. by eapply dt_le_lt_trans. }
  rewrite !Heq. apply latest_by_data.
  by apply (filter_by_data (fun m => (m <= cur)%dt)
              (HQ := fun m => dt_le_dec m cur)).
Qed.

Lemma find_budget_same cat_id T cur s s' :
  same_below cat_id T s s' -> (cur < T)%dt ->
  row_data <$> find_budget cat_id cur s' = row_data <$> find_budget cat_id cur s.
Proof.
  intros [_ Hrows] Hlt. unfold find_budget.
  assert (forall rows : list MonthlyBudget.t,
            filter (fun mb => MonthlyBudget.category_id mb = cat_id
                              /\ MonthlyBudget.month_start mb = cur) rows
            = filter (fun r => MonthlyBudget.month_start r = cur)
                (filter (fun r => MonthlyBudget.category_id r = cat_id
                                  /\ (MonthlyBudget.month_start r < T)%dt)
                        rows)) as Heq.
  { intros rows. rewrite list_filter_filter. apply list_filter_iff.
    intros r. split; [|tauto]. intros [Hc Hle].
    split; [done|]. split; [done|]. by rewrite Hle. }
  rewrite !Heq.
  pose proof (filter_by_data (fun m => m = cur)
                (HQ := fun m => datetime_eq_dec m cur) _ _ Hrows) as Hd.
  revert Hd. do 2 destruct (filter (fun r => MonthlyBudget.month_start r = cur) _);
    simpl; try done. intros [= Hm Hb _]. unfold row_data. congruence.
Qed.

Lemma get_or_create_same cat T cur d s s' mb s1 :
  same_below (Category.id cat) T s s' -> (cur < T)%dt ->
  get_or_create_monthly_budget cat cur d s = Return mb s1 ->
  exists mb' s1',
    get_or_create_monthly_budget cat cur d s' = Return mb' s1'
    /\ MonthlyBudget.base_budget mb' = MonthlyBudget.base_budget mb
    /\ same_below (Category.id cat) T s1 s1'.
Proof.
  intros Hsame Hlt. pose proof (find_budget_same _ _ _ _ _ Hsame Hlt) as Hf.
  unfold get_or_create_monthly_budget.
  destruct (find_budget _ _ s) as [r|], (find_budget _ _ s') as [r'|];
    try done; intros [= <- <-].
  - injection Hf as _ Hb. eauto.
  - eexists _, _. split; [done|]. split; [done|].
    destruct Hsame as [Hp Hrows]. split; [done|].
    unfold add_budget. simpl.
    rewrite !filter_app, !fmap_app, Hrows.
    by rewrite !filter_cons_True.
Qed.

Lemma resolve_budget_same cfg cat T cur s s' mb s1 :
  same_below (Category.id cat) T s s' -> (cur < T)%dt ->
  resolve_budget cfg cat cur s = Return mb s1 ->
  exists mb' s1',
    resolve_budget cfg cat cur s' = Return mb' s1'
    /\ MonthlyBudget.base_budget mb' = MonthlyBudget.base_budget mb
    /\ same_below (Category.id cat) T s1 s1'.
Proof.
  intros Hsame Hlt. pose proof (prev_budget_same _ _ _ _ _ Hsame Hlt) as Hp.
  unfold resolve_budget. rewrite !bind_query.
  destruct (prev_budget _ _ s) as [p|], (prev_budget _ _ s') as [p'|];
    try done.
  - injection Hp as _ ->. by apply get_or_create_same.
  - by apply get_or_create_same.
Qed.

Lemma carry_loop_same fuel cfg cat T cur c s s' v s1 :
  same_below (Category.id cat) T s s' ->
  carry_loop fuel cfg cat T cur c s = Return v s1 ->
  exists s1', carry_loop fuel cfg cat T cur c s' = Return v s1'.
Proof.
  revert cur c s s'.
  induction fuel as [|fuel IH]; intros cur c s s' Hsame;
    (destruct (decide (cur < T)%dt) as [Hlt|Hlt];
      [|rewrite !carry_loop_done by done; intros [= <- <-]; eauto]).
  - by rewrite carry_loop_O.
  - destruct (next_month_start cur) as [nxt|e] eqn:Hn;
      [|by rewrite (carry_loop_raise _ _ _ _ _ _ _ e)].
    destruct (carry_loop_step fuel cfg cat T cur nxt c s Hlt Hn)
      as (mb & t & Hr & _ & _ & ->).
    destruct (carry_loop_step fuel cfg cat T cur nxt c s' Hlt Hn)
      as (mb' & t' & Hr' & _ & _ & ->).
    destruct (resolve_budget_same _ _ _ _ _ _ _ _ Hsame Hlt Hr)
      as (mb'' & t'' & Hr'' & Hb & Hsame').
    rewrite Hr' in Hr''. injection Hr'' as <- <-.
    assert (month_spend_for_category (Category.id cat) cur nxt s'
            = month_spend_for_category (Category.id cat) cur nxt s) as ->.
    { unfold month_spend_for_category. by rewrite (proj1 Hsame). }
    rewrite Hb. by apply IH.
Qed.

Lemma month_start_mono a b :
  (a <= b)%dt -> (month_start a <= month_start b)%dt.
Proof.
  intros H%dt_le_year_month. unfold dt_le. rewrite month_start_cmp.
  destruct (Z.compare_spec (year a) (year b)); [|done|lia].
  destruct (Z.compare_spec (month a) (month b)); [done|done|lia].
Qed.

Lemma min_dt_snoc l T :
  min_dt (l ++ [T]) = min_dt l
  \/ (min_dt (l ++ [T]) = Some T /\ forall m, min_dt l = Some m -> (T <= m)%dt).
Proof.
  destruct (min_dt_is_Some (l ++ [T])) as [m' Hm'];
    [by destruct l|].
  rewrite Hm'. apply min_dt_spec in Hm' as [Hin Hall].
  apply elem_of_app in Hin as [Hin | ->%list_elem_of_singleton].
  - left. symmetry. apply min_dt_spec. split; [done|].
    intros x Hx. apply Hall, elem_of_app. by left.
  - right. split; [done|]. intros m Hm%min_dt_elem.
    apply Hall, elem_of_app. by left.
Qed.

Lemma filter_rewritten {A} (P : A -> Prop) `{!forall x, Decision (P x)}
    (f : A -> A) (l : list A) :
  (forall r, P (f r) <-> P r) ->
  (forall r, r ∈ l -> P r -> f r = r) ->
  filter P (f <$> l) = filter P l.
Proof.
  intros Hiff. induction l as [|r l IH]; intros Hfix; [done|].
  rewrite fmap_cons, !filter_cons.
  destruct (decide (P r)) as [Hr|Hr].
  - rewrite decide_True by (by apply Hiff).
    rewrite (Hfix r) by (done || left). f_equal.
    apply IH. intros r' Hr'. apply Hfix. by right.
  - rewrite decide_False by (by rewrite Hiff).
    apply IH. intros r' Hr'. apply Hfix. by right.
Qed.

Lemma month_starts_rewritten (f : MonthlyBudget.t -> MonthlyBudget.t)
    cat_id (rows : list MonthlyBudget.t) :
  (forall r, mb_key (f r) = mb_key r) ->
  MonthlyBudget.month_start
    <$> filter (fun mb => MonthlyBudget.category_id mb = cat_id) (f <$> rows)
  = MonthlyBudget.month_start
      <$> filter (fun mb => MonthlyBudget.category_id mb = cat_id) rows.
Proof.
  intros Hk. induction rows as [|r rows IH]; [done|].
  rewrite fmap_cons, !filter_cons.
  pose proof (Hk r) as Hr. unfold mb_key in Hr. injection Hr as Hc Hm.
  rewrite Hc. destruct (decide _); [|done].
  rewrite !fmap_cons, Hm. by f_equal.
Qed.

(** What [admin_save] does to the tables: the rows are those of before,
    with the row of the month appended when it was missing, and then
    rewritten by a function that keeps category and month of every row
    and leaves alone the rows of other categories and months. *)
Lemma admin_save_rows c cur_start val s s' :
  budget_ids_unique s ->
  Routes.admin_save c cur_start val s = Return tt s' ->
  purchases s' = purchases s
  /\ exists mb rows1 f,
       (rows1 = monthly_budgets s \/ rows1 = monthly_budgets s ++ [mb])
       /\ mb_key mb = (Category.id c, cur_start)
       /\ monthly_budgets s' = f <$> rows1
       /\ (forall r, mb_key (f r) = mb_key r)
       /\ (forall r, r ∈ rows1 -> mb_key r <> (Category.id c, cur_start) ->
             f r = r).
Proof.
  intros Hid. unfold Routes.admin_save.
  intros (mb & s1 & Hrun & [= <-])%bind_Return.
  pose proof (get_or_create_constraints c cur_start 0%Qc s mb s1 Hrun) as Hc.
  destruct (get_or_create_spec c cur_start 0%Qc s)
    as (mb' & s1' & Hrun' & Hf1 & (_ & Hp1 & _) & _ & _).
  rewrite Hrun in Hrun'. injection Hrun' as <- <-.
  apply find_budget_elem in Hf1 as [Hmb Hkmb].
  assert (budget_ids_unique s1) as Hid1.
  { revert Hrun. unfold get_or_create_monthly_budget, budget_ids_unique in *.
    destruct (find_budget _ _ _); intros [= <- <-]; [done|].
    simpl. rewrite fmap_app. apply NoDup_app.
    split; [done|]. split; [|apply NoDup_singleton].
    intros i (r & -> & Hr)%list_elem_of_fmap Heq%list_elem_of_singleton.
    apply next_id_above in Hr. simpl in Heq. lia. }
  split; [done|]. eexists mb, (monthly_budgets s1), _.
  split; [|split; [done|split; [done|split]]].
  - revert Hrun. unfold get_or_create_monthly_budget.
    destruct (find_budget _ _ _); intros [= <- <-]; [by left | by right].
  - intros r. simpl. by destruct (decide _).
  - intros r Hr Hne. simpl. rewrite decide_False; [done|].
    intros Heq. apply Hne.
    by rewrite (NoDup_fmap_same _ _ _ _ Hid1 Hr Hmb Heq).
Qed.

(** Saving this month's budget on the admin page changes no carry: the
    carry of the category into the month is the value it was, and so is
    the carry of every other category into every month. *)
Theorem admin_save_keeps_carry cfg c cur_start val s s' :
  budget_ids_unique s -> is_month_start cur_start ->
  Routes.admin_save c cur_start val s = Return tt s' ->
  (forall v t,
     cumulative_carry_until cfg c cur_start s = Return v t ->
     exists t', cumulative_carry_until cfg c cur_start s' = Return v t')
  /\ (forall c' T v t,
        Category.id c' <> Category.id c ->
        cumulative_carry_until cfg c' T s = Return v t ->
        exists t', cumulative_carry_until cfg c' T s' = Return v t').
Proof.
  intros Hid HT Hsave.
  destruct (admin_save_rows _ _ _ _ _ Hid Hsave)
    as (Hp & mb & rows1 & f & Hrows1 & Hkmb & Hrows & Hkey & Hfix).
  assert (forall c0, first_purchase_ts c0 s' = first_purchase_ts c0 s) as Hfp.
  { intros c0. unfold first_purchase_ts, purchases_of. by rewrite Hp. }
  assert (forall c0,
            first_budget_ts c0 s'
            = min_dt (MonthlyBudget.month_start
                        <$> filter (fun r => MonthlyBudget.category_id r = c0)
                              rows1)) as Hfb.
  { intros c0. unfold first_budget_ts, budgets_of.
    by rewrite Hrows, month_starts_rewritten. }
  assert (forall c0 T,
            (c0 <> Category.id c \/ T = cur_start) ->
            same_below c0 T s s') as Hsame.
  { intros c0 T Hor. split; [done|]. f_equal. rewrite Hrows.
    rewrite filter_rewritten.
    - destruct Hrows1 as [->| ->]; [done|].
      rewrite filter_app, filter_cons_False, filter_nil, app_nil_r; [done|].
      unfold mb_key in Hkmb. injection Hkmb as Hc Hm.
      intros [Hc' Hlt]. destruct Hor as [Hne| ->]; [congruence|].
      rewrite Hm in Hlt. by apply dt_lt_irrefl in Hlt.
    - intros r. pose proof (Hkey r) as Hr. unfold mb_key in Hr.
      injection Hr as -> ->. done.
    - intros r Hr [Hc Hlt]. apply Hfix; [done|].
      unfold mb_key. intros [= Hc' Hm].
      destruct Hor as [Hne| ->]; [congruence|].
      rewrite Hm in Hlt. by apply dt_lt_irrefl in Hlt. }
  assert (forall c' T v t,
            same_below (Category.id c') T s s' ->
            activity_start c' s' = activity_start c' s ->
            cumulative_carry_until cfg c' T s = Return v t ->
            exists t', cumulative_carry_until cfg c' T s' = Return v t')
    as Hwalk.
  { intros c' T v t Hs. unfold cumulative_carry_until. rewrite !bind_query.
    intros ->.
    destruct (activity_start c' s); [|unfold ret; intros [= <- <-]; eauto].
    by apply carry_loop_same. }
  split.
  - assert (activity_start c s' = activity_start c s
            \/ (activity_start c s' = Some cur_start
                /\ forall st, activity_start c s = Some st ->
                     (cur_start <= st)%dt)) as [Hact|[Hact Hle]].
    { unfold activity_start. rewrite Hfp.
      destruct (first_purchase_ts (Category.id c) s) as [t0|]; [by left|].
      simpl. rewrite Hfb. unfold first_budget_ts, budgets_of.
      destruct Hrows1 as [->| ->]; [by left|].
      assert (MonthlyBudget.month_start mb = cur_start) as Hm
        by (unfold mb_key in Hkmb; congruence).
      rewrite filter_app, filter_cons_True, fmap_app
        by (unfold mb_key in Hkmb; congruence).
      rewrite filter_nil. simpl. rewrite Hm.
      destruct (min_dt_snoc
                  (MonthlyBudget.month_start
                     <$> filter (fun r => MonthlyBudget.category_id r
                                          = Category.id c) (monthly_budgets s))
                  cur_start) as [-> | [-> Hle]]; [by left|].
      right. simpl. rewrite HT. split; [done|].
      destruct (min_dt _) as [m|]; [|done]. simpl. intros st [= <-].
      rewrite <- HT. by apply month_start_mono, Hle. }
    + intros v t. apply Hwalk; [|done]. apply Hsame. by right.
    + intros v t. unfold cumulative_carry_until. rewrite !bind_query, Hact.
      rewrite (carry_loop_done _ _ _ _ cur_start) by apply dt_lt_irrefl.
      destruct (activity_start c s) as [st|] eqn:Hst.
      * rewrite carry_loop_done; [intros [= <- <-]; eauto|].
        apply dt_not_lt. by apply Hle.
      * intros [= <- <-]. eauto.
  - intros c' T v t Hne. apply Hwalk; [apply Hsame; by left|].
    unfold activity_start. rewrite Hfp, Hfb. do 2 f_equal.
    unfold first_budget_ts, budgets_of.
    destruct Hrows1 as [->| ->]; [done|].
    rewrite filter_app, filter_cons_False, filter_nil, app_nil_r; [done|].
    unfold mb_key in Hkmb. congruence.
Qed.

Lemma admin_save_keeps_carry_witness :
  exists t',
    cumulative_carry_until Household.cfg Household.groceries Household.feb
      (state_after Household.fresh
         (Routes.admin_save Household.groceries Household.feb (Qc_of_Z 250)
            Household.fresh))
    = Return HouseholdRuns.carry_feb t'.
Proof.
  destruct (admin_save_keeps_carry Household.cfg Household.groceries
              Household.feb (Qc_of_Z 250) Household.fresh
              (state_after Household.fresh
                 (Routes.admin_save Household.groceries Household.feb
                    (Qc_of_Z 250) Household.fresh)))
    as [H _].
  - apply NoDup_nil_2.
  - reflexivity.
  - reflexivity.
  - apply (H HouseholdRuns.carry_feb HouseholdRuns.after_feb).
    vm_compute. reflexivity.
Defined.

(** ** Seeding the rows of the month *)

Lemma get_or_create_other cat m d s mb s' c' m' :
  get_or_create_monthly_budget cat m d s = Return mb s' ->
  (c', m') <> (Category.id cat, m) ->
  find_budget c' m' s' = find_budget c' m' s.
Proof.
  unfold get_or_create_monthly_budget.
  destruct (find_budget (Category.id cat) m s); intros [= <- <-] Hne; [done|].
  unfold find_budget, add_budget. simpl.
  rewrite filter_app, filter_cons_False, filter_nil, app_nil_r; [done|].
  simpl. intros [<- <-]. done.
Qed.

Lemma seed_budgets_spec cfg cur cats s :
  exists s',
    seed_budgets cfg cur cats s = Return tt s'
    /\ categories s' = categories s /\ purchases s' = purchases s
    /\ (exists extra, monthly_budgets s' = monthly_budgets s ++ extra)
    /\ (forall c' m r, find_budget c' m s = Some r ->
          find_budget c' m s' = Some r)
    /\ (forall c' m, m <> cur -> find_budget c' m s' = find_budget c' m s)
    /\ (forall c, c ∈ cats -> is_Some (find_budget (Category.id c) cur s'))
    /\ (forall c' r, find_budget c' cur s = None ->
          find_budget c' cur s' = Some r ->
          exists c, c ∈ cats /\ Category.id c = c'
                    /\ MonthlyBudget.base_budget r = default_base cfg c)
    /\ (budget_constraints s -> budget_constraints s').
Proof.
  revert s. induction cats as [|c cats IH]; intros s.
  - exists s. split; [done|]. split; [done|]. split; [done|].
    split; [exists []; by rewrite app_nil_r|]. split; [done|].
    split; [done|]. split; [by intros c ?%elem_of_nil|].
    split; [|done]. intros c' r Hn Hs. by rewrite Hn in Hs.
  - destruct (get_or_create_spec c cur (default_base cfg c) s)
      as (mb & s1 & Hrun & Hf1 & He & Hnew & _).
    destruct (IH s1)
      as (s' & Hseed & Hc & Hp & (e2 & Hrows) & Hkeep & Hother & Hall
          & Hbase & Hcons).
    destruct He as (Hc1 & Hp1 & e1 & Hrows1 & He1).
    exists s'. split; [simpl; unfold bind; by rewrite Hrun|].
    split; [congruence|]. split; [congruence|].
    split; [exists (e1 ++ e2); by rewrite Hrows, Hrows1, app_assoc|].
    assert (forall c' m r, find_budget c' m s = Some r ->
              find_budget c' m s1 = Some r) as Hkeep1.
    { intros c' m r. unfold find_budget. rewrite Hrows1, filter_app.
      by destruct (filter _ (monthly_budgets s)). }
    split; [intros c' m r Hr; by apply Hkeep, Hkeep1|].
    split; [|split; [|split]].
    + intros c' m Hm. rewrite (Hother c' m Hm).
      eapply get_or_create_other; [done|]. congruence.
    + intros c0 [->|Hin]%elem_of_cons; [|by apply Hall].
      exists mb. by apply Hkeep.
    + intros c' r Hn Hs. destruct (decide (c' = Category.id c)) as [->|Hne].
      * rewrite (Hkeep _ _ _ Hf1) in Hs. injection Hs as <-.
        exists c. split; [left|]. split; [done|]. by apply Hnew.
      * destruct (Hbase c' r) as (c2 & Hin & Hid & Hb); [|done|].
        { rewrite <- Hn. eapply get_or_create_other; [done|]. congruence. }
        exists c2. split; [by right|]. done.
    + intros Hs. by eapply Hcons, get_or_create_constraints.
Qed.

Lemma seed_budgets_nothing_to_do cfg cur cats s :
  (forall c, c ∈ cats -> is_Some (find_budget (Category.id c) cur s)) ->
  seed_budgets cfg cur cats s = Return tt s.
Proof.
  induction cats as [|c cats IH]; intros Hall; [done|].
  destruct (Hall c) as [r Hr]; [left|].
  simpl. unfold bind. rewrite (get_or_create_found _ _ _ _ _ Hr).
  apply IH. intros c' Hc'. apply Hall. by right.
Qed.

(** Seeding, as done when the application starts and when the admin page
    is shown, gives every category a row for the current month: a row
    that was there is kept as it is, a missing one is made from the
    configured default of the category (0 when the configuration does
    not name it), whatever the rows of earlier months say; the summary
    then reads that row.  Rows of other months, the ledger and the
    constraints of the budget table are left alone, rows are only
    appended, and seeding again writes nothing. *)
Theorem seed_all_covers_every_category cfg now_utc s :
  NoDup (Category.id <$> categories s) ->
  exists s',
    seed_all cfg now_utc s = Return tt s'
    /\ categories s' = categories s /\ purchases s' = purchases s
    /\ (exists extra, monthly_budgets s' = monthly_budgets s ++ extra)
    /\ (forall c, c ∈ categories s ->
          exists r,
            find_budget (Category.id c) (month_start now_utc) s' = Some r
            /\ base_this_month cfg c (month_start now_utc) s'
               = Return (MonthlyBudget.base_budget r) s'
            /\ match find_budget (Category.id c) (month_start now_utc) s with
               | Some r0 => r = r0
               | None => MonthlyBudget.base_budget r = default_base cfg c
               end)
    /\ (forall c' m, m <> month_start now_utc ->
          find_budget c' m s' = find_budget c' m s)
    /\ seed_all cfg now_utc s' = Return tt s'
    /\ (budget_constraints s -> budget_constraints s').
Proof.
  intros Hnd. unfold seed_all.
  destruct (seed_budgets_spec cfg (month_start now_utc) (categories s) s)
    as (s' & Hseed & Hc & Hp & Hrows & Hkeep & Hother & Hall & Hbase & Hcons).
  exists s'. rewrite Hc. repeat (split; [done|]).
  split; [|split; [done|split; [|done]]].
  - intros c Hin. destruct (Hall c Hin) as [r Hr]. exists r.
    split; [done|]. split; [by apply base_this_month_found|].
    destruct (find_budget (Category.id c) (month_start now_utc) s)
      as [r0|] eqn:Hf0.
    + apply Hkeep in Hf0. congruence.
    + destruct (Hbase _ r Hf0 Hr) as (c2 & Hin2 & Hid & Hb).
      by rewrite <- (NoDup_fmap_same _ _ _ _ Hnd Hin2 Hin Hid).
  - by apply seed_budgets_nothing_to_do.
Qed.

Lemma seed_all_covers_every_category_witness :
  base_this_month Household.cfg Household.groceries Household.feb
    Household.budget_first
  = Return (Qc_of_Z 100)
      (add_budget (MonthlyBudget.mk 2 1 Household.feb (Qc_of_Z 100))
         Household.budget_first)
  /\ exists s',
       seed_all Household.cfg (mk_datetime 2024 2 20 18 45 12 0)
         Household.budget_first = Return tt s'
       /\ base_this_month Household.cfg Household.groceries Household.feb s'
          = Return (Qc_of_Z 400) s'.
Proof.
  split; [reflexivity|].
  destruct (seed_all_covers_every_category Household.cfg
              (mk_datetime 2024 2 20 18 45 12 0) Household.budget_first)
    as (s' & Hseed & _ & _ & _ & Hall & _).
  - apply NoDup_singleton.
  - exists s'. split; [done|].
    destruct (Hall Household.groceries) as (r & _ & Hb & Hd); [left|].
    change Household.feb with (month_start (mk_datetime 2024 2 20 18 45 12 0)).
    rewrite Hb. f_equal. exact Hd.
Defined.

(** ** Categories do not see each other *)

Lemma same_rows_sym cat_id s s' : same_rows cat_id s s' -> same_rows cat_id s' s.
Proof. intros [Hp Hr]. by split. Qed.

Lemma same_rows_below cat_id T s s' :
  same_rows cat_id s s' -> same_below cat_id T s s'.
Proof.
  intros [Hp Hrows]. split; [done|].
  assert (forall rows : list MonthlyBudget.t,
            filter (fun r => MonthlyBudget.category_id r = cat_id
                             /\ (MonthlyBudget.month_start r < T)%dt) rows
            = filter (fun r => (MonthlyBudget.month_start r < T)%dt)
                (filter (fun r => MonthlyBudget.category_id r = cat_id) rows))
    as Heq.
  { intros rows. rewrite list_filter_filter. apply list_filter_iff.
    intros r. tauto. }
  rewrite !Heq.
  by apply (filter_by_data (fun m => (m < T)%dt)
              (HQ := fun m => dt_lt_dec m T)).
Qed.

Lemma prev_budget_rows cat_id cur s s' :
  same_rows cat_id s s' ->
  row_data <$> prev_budget cat_id cur s' = row_data <$> prev_budget cat_id cur s.
Proof.
  intros [_ Hrows]. unfold prev_budget.
  assert (forall rows : list MonthlyBudget.t,
            filter (fun mb => MonthlyBudget.category_id mb = cat_id
                              /\ (MonthlyBudget.month_start mb <= cur)%dt) rows
            = filter (fun r => (MonthlyBudget.month_start r <= cur)%dt)
                (filter (fun r => MonthlyBudget.category_id r = cat_id) rows))
    as Heq.
  { intros rows. rewrite list_filter_filter. apply list_filter_iff.
    intros r. tauto. }
  rewrite !Heq. apply latest_by_data.
  by apply (filter_by_data (fun m => (m <= cur)%dt)
              (HQ := fun m => dt_le_dec m cur)).
Qed.

Lemma find_budget_rows cat_id cur s s' :
  same_rows cat_id s s' ->
  row_data <$> find_budget cat_id cur s' = row_data <$> find_budget cat_id cur s.
Proof.
  intros [_ Hrows]. unfold find_budget.
  assert (forall rows : list MonthlyBudget.t,
            filter (fun mb => MonthlyBudget.category_id mb = cat_id
                              /\ MonthlyBudget.month_start mb = cur) rows
            = filter (fun r => MonthlyBudget.month_start r = cur)
                (filter (fun r => MonthlyBudget.category_id r = cat_id) rows))
    as Heq.
  { intros rows. rewrite list_filter_filter. apply list_filter_iff.
    intros r. tauto. }
  rewrite !Heq.
  pose proof (filter_by_data (fun m => m = cur)
                (HQ := fun m => datetime_eq_dec m cur) _ _ Hrows) as Hd.
  revert Hd.
  do 2 destruct (filter (fun r => MonthlyBudget.month_start r = cur) _);
    simpl; try done. intros [= Hm Hb _]. unfold row_data. congruence.
Qed.

Lemma get_or_create_rows cat cur d s s' mb s1 :
  same_rows (Category.id cat) s s' ->
  get_or_create_monthly_budget cat cur d s = Return mb s1 ->
  exists mb' s1',
    get_or_create_monthly_budget cat cur d s' = Return mb' s1'
    /\ MonthlyBudget.base_budget mb' = MonthlyBudget.base_budget mb
    /\ same_rows (Category.id cat) s1 s1'.
Proof.
  intros Hsame. pose proof (find_budget_rows _ cur _ _ Hsame) as Hf.
  unfold get_or_create_monthly_budget.
  destruct (find_budget _ _ s) as [r|], (find_budget _ _ s') as [r'|];
    try done; intros [= <- <-].
  - injection Hf as _ Hb. eauto.
  - eexists _, _. split; [done|]. split; [done|].
    destruct Hsame as [Hp Hrows]. split; [done|].
    unfold budgets_of, add_budget in *. simpl.
    rewrite !filter_app, !fmap_app, Hrows.
    by rewrite !filter_cons_True.
Qed.

Lemma base_this_month_rows cfg cat cur s s' b s1 :
  same_rows (Category.id cat) s s' ->
  base_this_month cfg cat cur s = Return b s1 ->
  exists s1',
    base_this_month cfg cat cur s' = Return b s1'
    /\ same_rows (Category.id cat) s1 s1'.
Proof.
  intros Hsame. pose proof (prev_budget_rows _ cur _ _ Hsame) as Hp.
  assert (forall d,
            (mb <- get_or_create_monthly_budget cat cur d ;;
             ret (MonthlyBudget.base_budget mb)) s = Return b s1 ->
            exists s1',
              (mb <- get_or_create_monthly_budget cat cur d ;;
               ret (MonthlyBudget.base_budget mb)) s' = Return b s1'
              /\ same_rows (Category.id cat) s1 s1') as Hg.
  { intros d (mb & t & Hrun & [= <- <-])%bind_Return.
    destruct (get_or_create_rows _ _ _ _ _ _ _ Hsame Hrun)
      as (mb' & t' & Hrun' & Hb & Hs').
    exists t'. split; [|done]. unfold bind. rewrite Hrun'.
    unfold ret. by rewrite Hb. }
  unfold base_this_month. rewrite !bind_query.
  destruct (prev_budget _ _ s) as [p|], (prev_budget _ _ s') as [p'|];
    try done; [|apply Hg].
  injection Hp as Hm Hb. rewrite Hm, Hb.
  destruct (decide _); [|apply Hg].
  unfold ret. intros [= <- <-]. eauto.
Qed.

Lemma activity_start_rows cat s s' :
  same_rows (Category.id cat) s s' ->
  activity_start cat s' = activity_start cat s.
Proof.
  intros [Hp Hrows]. unfold activity_start, first_purchase_ts, purchases_of,
    first_budget_ts.
  rewrite Hp. do 3 f_equal.
  apply (f_equal (fmap fst)) in Hrows.
  by rewrite <- !list_fmap_compose in Hrows.
Qed.

Lemma cumulative_carry_until_same cfg cat T s s' v t :
  same_below (Category.id cat) T s s' ->
  activity_start cat s' = activity_start cat s ->
  cumulative_carry_until cfg cat T s = Return v t ->
  exists t',
    cumulative_carry_until cfg cat T s' = Return v t'
    /\ purchases t' = purchases s'.
Proof.
  intros Hs Hact Hrun.
  assert (exists t', cumulative_carry_until cfg cat T s' = Return v t')
    as [t' Ht'].
  { revert Hrun. unfold cumulative_carry_until. rewrite !bind_query, Hact.
    destruct (activity_start cat s);
      [|unfold ret; intros [= <- <-]; eauto].
    by apply carry_loop_same. }
  exists t'. split; [done|].
  apply (cumulative_carry_until_ends cfg cat T s' t').
  rewrite Ht'. left. eauto.
Qed.

Lemma current_month_summary_same cfg cat now_utc s s' sm t :
  same_rows (Category.id cat) s s' ->
  current_month_summary cfg cat now_utc s = Return sm t ->
  exists t', current_month_summary cfg cat now_utc s' = Return sm t'.
Proof.
  intros Hsame Hsum.
  destruct (next_month_start (month_start now_utc)) as [nxt|e] eqn:Hn;
    [|unfold current_month_summary in Hsum; by rewrite Hn in Hsum].
  destruct (base_this_month_spec cfg cat (month_start now_utc) s)
    as (mb & s_a & Hb & _ & _).
  destruct (base_this_month_rows _ _ _ _ _ _ _ Hsame Hb)
    as (s_a' & Hb' & Hsame_a).
  rewrite (current_month_summary_unfold _ _ _ _ _ _ _ Hn Hb) in Hsum.
  rewrite (current_month_summary_unfold _ _ _ _ _ _ _ Hn Hb').
  destruct (cumulative_carry_until cfg cat (month_start now_utc) s_a)
    as [v s1| |] eqn:Hrun; [|done..].
  injection Hsum as <- <-.
  destruct (cumulative_carry_until_same _ _ _ _ _ _ _
              (same_rows_below _ _ _ _ Hsame_a)
              (activity_start_rows _ _ _ Hsame_a) Hrun)
    as (t' & -> & Hpt).
  exists t'. do 2 f_equal. unfold month_spend_for_category.
  rewrite Hpt, (proj1 Hsame_a).
  destruct (cumulative_carry_until_ends cfg cat (month_start now_utc) s_a s1)
    as (_ & -> & _); [|done].
  rewrite Hrun. left. eauto.
Qed.

Lemma current_month_summary_appends cfg cat now_utc s sm s1 :
  current_month_summary cfg cat now_utc s = Return sm s1 ->
  only_appends (Category.id cat) s s1.
Proof.
  intros Hsum.
  pose proof (current_month_summary_cases cfg cat now_utc s) as Hc.
  destruct (next_month_start (month_start now_utc)) as [nxt|e] eqn:Hn;
    [|by rewrite Hc in Hsum].
  destruct Hc as (mb & s_a & Hb & _ & He%extends_only_appends & Hc).
  destruct (cumulative_carry_until cfg cat (month_start now_utc) s_a)
    as [v t|e t|] eqn:Hrun; [| |done]; rewrite Hc in Hsum; [|done].
  injection Hsum as <- <-. eapply only_appends_trans; [done|].
  apply (cumulative_carry_until_ends cfg cat (month_start now_utc)).
  rewrite Hrun. left. eauto.
Qed.

Lemma only_appends_same_rows cat_id c' s s' :
  c' <> cat_id -> only_appends cat_id s s' -> same_rows c' s s'.
Proof.
  intros Hne (_ & Hp & extra & Hrows & Hall). split; [done|].
  unfold budgets_of. rewrite Hrows, filter_app. f_equal.
  assert (filter (fun mb => MonthlyBudget.category_id mb = c') extra = [])
    as ->; [|by rewrite app_nil_r].
  clear Hrows. induction Hall as [|r extra Hr _ IH]; [done|].
  rewrite filter_cons_False by congruence. done.
Qed.

(** The summary of a category does not depend on what was asked about
    the other categories before: after a summary of [c], the summary of
    a category with another id has the figures it would have had without
    it; and a summary writes no row of another category. *)
Theorem summaries_are_independent cfg c c' now_utc s sm s1 :
  Category.id c' <> Category.id c ->
  current_month_summary cfg c now_utc s = Return sm s1 ->
  budgets_of (Category.id c') s1 = budgets_of (Category.id c') s
  /\ (forall sm', 
        (exists t, current_month_summary cfg c' now_utc s = Return sm' t)
        <-> (exists t, current_month_summary cfg c' now_utc s1
                       = Return sm' t)).
Proof.
  intros Hne Hsum. apply current_month_summary_appends in Hsum.
  pose proof (only_appends_same_rows _ _ _ _ Hne Hsum) as Hsame.
  split.
  - destruct Hsum as (_ & _ & extra & Hrows & Hall).
    unfold budgets_of. rewrite Hrows, filter_app.
    assert (filter (fun mb => MonthlyBudget.category_id mb = Category.id c')
              extra = []) as ->; [|by rewrite app_nil_r].
    clear Hrows. induction Hall as [|r extra Hr _ IH]; [done|].
    rewrite filter_cons_False by congruence. done.
  - intros sm'. split; intros [t Ht].
    + by eapply current_month_summary_same.
    + eapply current_month_summary_same; [|done]. by apply same_rows_sym.
Qed.

Lemma summaries_are_independent_witness :
  budgets_of 2
    (state_after TwoCategories.listed
       (current_month_summary Household.cfg Household.groceries
          TwoCategories.now TwoCategories.listed))
  = budgets_of 2 TwoCategories.listed.
Proof.
  apply (summaries_are_independent Household.cfg Household.groceries
           TwoCategories.pets TwoCategories.now TwoCategories.listed
           (value_of (summary_of 0 0 0)
              (current_month_summary Household.cfg Household.groceries
                 TwoCategories.now TwoCategories.listed))).
  - discriminate.
  - vm_compute. reflexivity.
Defined.

(** ** The home page *)

Lemma carry_loop_valid fuel cfg cat T cur c s v s' :
  valid_db s -> valid_datetime cur = true ->
  carry_loop fuel cfg cat T cur c s = Return v s' -> valid_db s'.
Proof.
  revert cur c s. induction fuel as [|fuel IH]; intros cur c s Hdb Hv;
    (destruct (decide (cur < T)%dt) as [Hlt|Hlt];
      [|rewrite carry_loop_done by done; by intros [= _ <-]]).
  - by rewrite carry_loop_O.
  - destruct (next_month_start cur) as [nxt|e] eqn:Hn;
      [|by rewrite (carry_loop_raise _ _ _ _ _ _ _ e)].
    destruct (carry_loop_step fuel cfg cat T cur nxt c s Hlt Hn)
      as (mb & s1 & Hr & _ & _ & ->).
    destruct (next_month_start_spec _ _ Hn) as (_ & Hvn & _).
    apply IH; [|done]. by eapply resolve_budget_valid.
Qed.

Lemma cumulative_carry_until_valid cfg cat T s v s' :
  valid_db s -> cumulative_carry_until cfg cat T s = Return v s' ->
  valid_db s'.
Proof.
  intros Hdb. unfold cumulative_carry_until. rewrite bind_query.
  destruct (activity_start cat s) as [start|] eqn:Hs;
    [|unfold ret; by intros [= _ <-]].
  destruct (activity_start_valid _ _ _ Hdb Hs) as [_ Hv].
  by apply carry_loop_valid.
Qed.

Lemma current_month_summary_valid cfg cat now_utc s sm s1 :
  valid_db s -> valid_datetime now_utc = true ->
  current_month_summary cfg cat now_utc s = Return sm s1 -> valid_db s1.
Proof.
  intros Hdb Hv Hsum.
  destruct (next_month_start (month_start now_utc)) as [nxt|e] eqn:Hn;
    [|unfold current_month_summary in Hsum; by rewrite Hn in Hsum].
  destruct (resolve_budget_spec cfg cat (month_start now_utc) s)
    as (mb & s_a & Hr & _ & _).
  assert (base_this_month cfg cat (month_start now_utc) s
          = Return (MonthlyBudget.base_budget mb) s_a) as Hb.
  { rewrite base_this_month_resolve. unfold bind. by rewrite Hr. }
  rewrite (current_month_summary_unfold _ _ _ _ _ _ _ Hn Hb) in Hsum.
  destruct (cumulative_carry_until cfg cat (month_start now_utc) s_a)
    as [v t| |] eqn:Hrun; [|done..].
  injection Hsum as _ <-.
  eapply cumulative_carry_until_valid; [|done].
  eapply resolve_budget_valid; [done | by apply month_start_valid | done].
Qed.

Lemma summaries_return cfg now_utc cats s :
  valid_db s -> valid_datetime now_utc = true ->
  ~ (year now_utc = MAXYEAR /\ month now_utc = 12) ->
  exists rows s', summaries cfg now_utc cats s = Return rows s'.
Proof.
  intros Hdb Hv Hne. revert s Hdb.
  induction cats as [|c cats IH]; intros s Hdb; [by eexists _, _|].
  destruct (current_month_summary_returns cfg c now_utc s Hdb Hv Hne)
    as (sm & s1 & Hsum).
  destruct (IH s1) as (rest & s' & Hrest);
    [by eapply current_month_summary_valid|].
  exists ((c, sm) :: rest), s'. simpl. unfold bind at 1. rewrite Hsum.
  unfold bind. by rewrite Hrest.
Qed.

Lemma only_appends_budgets_of cat_id c' s s' :
  c' <> cat_id -> only_appends cat_id s s' ->
  budgets_of c' s' = budgets_of c' s.
Proof.
  intros Hne (_ & _ & extra & Hrows & Hall).
  unfold budgets_of. rewrite Hrows, filter_app.
  assert (filter (fun mb => MonthlyBudget.category_id mb = c') extra = [])
    as ->; [|by rewrite app_nil_r].
  clear Hrows. induction Hall as [|r extra Hr _ IH]; [done|].
  rewrite filter_cons_False by congruence. done.
Qed.

Lemma summaries_spec cfg now_utc cats s rows s' :
  NoDup (Category.id <$> cats) ->
  summaries cfg now_utc cats s = Return rows s' ->
  rows.*1 = cats
  /\ Forall (fun cr => exists t,
               current_month_summary cfg cr.1 now_utc s = Return cr.2 t) rows
  /\ (forall c0, c0 ∉ Category.id <$> cats ->
        budgets_of c0 s' = budgets_of c0 s)
  /\ purchases s' = purchases s /\ categories s' = categories s.
Proof.
  revert s rows s'. induction cats as [|c cats IH]; intros s rows s'.
  - intros _ [= <- <-]. by repeat split.
  - rewrite fmap_cons. intros [Hc Hnd]%NoDup_cons. simpl.
    intros (sm & s1 & Hsum & (rest & s2 & Hrest & [= <- <-])%bind_Return)
             %bind_Return.
    destruct (IH _ _ _ Hnd Hrest) as (Hfst & Hall & Hbud & Hp & Hcats).
    pose proof (current_month_summary_appends _ _ _ _ _ _ Hsum) as Happ.
    split; [by rewrite fmap_cons, Hfst|]. split; [|split; [|split]].
    + constructor; [by exists s1|].
      apply Forall_forall. intros cr Hcr.
      rewrite Forall_forall in Hall. destruct (Hall cr Hcr) as [t Ht].
      eapply current_month_summary_same; [|done].
      apply same_rows_sym. eapply only_appends_same_rows; [|done].
      intros Heq. apply Hc. rewrite <- Heq, <- Hfst, <- list_fmap_compose.
      by apply (list_elem_of_fmap_2 (fun x => Category.id x.1)) in Hcr.
    + intros c0 [Hne Hnot]%not_elem_of_cons.
      rewrite (Hbud c0 Hnot). by eapply only_appends_budgets_of.
    + destruct Happ as (_ & Hp1 & _). congruence.
    + destruct Happ as (Hc1 & _). congruence.
Qed.

(** The rows of the home page: one row for each active category, in
    display order, and the summary in each row is the one the category
    would get when asked on its own, whatever stands before it in the
    list.  Showing the page leaves the ledger and the categories as they
    were and writes no budget row of an inactive category.  The rows
    are returned at every instant but those of December 9999. *)
Theorem index_rows_are_standalone_summaries cfg now_utc s :
  NoDup (Category.id <$> categories s) ->
  (valid_db s -> valid_datetime now_utc = true ->
   ~ (year now_utc = MAXYEAR /\ month now_utc = 12) ->
   exists rows s', index_rows cfg now_utc s = Return rows s')
  /\ forall rows s',
       index_rows cfg now_utc s = Return rows s' ->
       rows.*1 = sort_categories
                   (filter (fun c => Category.is_active c = true)
                      (categories s))
       /\ Forall (fun cr => exists t,
                    current_month_summary cfg cr.1 now_utc s
                    = Return cr.2 t) rows
       /\ (forall c, c ∈ categories s -> Category.is_active c = false ->
             budgets_of (Category.id c) s' = budgets_of (Category.id c) s)
       /\ purchases s' = purchases s /\ categories s' = categories s.
Proof.
  intros Hnd. split; [by apply summaries_return|].
  intros rows s' Hrun. unfold index_rows in Hrun.
  assert (NoDup (Category.id
                   <$> sort_categories
                         (filter (fun c => Category.is_active c = true)
                            (categories s)))) as Hnd'.
  { rewrite sort_categories_perm. by apply NoDup_fmap_filter. }
  destruct (summaries_spec _ _ _ _ _ _ Hnd' Hrun)
    as (Hfst & Hall & Hbud & Hp & Hc).
  repeat (split; [done|]). split; [|done].
  intros c Hin Hoff. apply Hbud. rewrite sort_categories_perm.
  intros (c2 & Hid & [Hon Hin2]%list_elem_of_filter)%list_elem_of_fmap.
  rewrite (NoDup_fmap_same _ _ _ _ Hnd Hin Hin2 Hid) in Hoff. congruence.
Qed.

Lemma index_rows_are_standalone_summaries_witness :
  exists rows s',
    index_rows Household.cfg TwoCategories.now TwoCategories.listed
    = Return rows s'.
Proof.
  apply (index_rows_are_standalone_summaries Household.cfg TwoCategories.now
           TwoCategories.listed).
  - vm_compute. repeat constructor; intros H;
      repeat (apply elem_of_cons in H as [H|H]; [discriminate|]);
      by apply elem_of_nil in H.
  - split; repeat constructor.
  - reflexivity.
  - vm_compute. intros [H _]. discriminate.
Defined.
